(** * Geodash: the simulation step of [GameRunner.tsx] and what surrounds it

    A shallow embedding of the per-frame [update] closure of the
    [GameRunner] component, of the input handlers that feed it, and of
    the constants it reads, followed by the properties of the
    specification that were checked against it.  Around it: the reset
    effect, the procedural generator and the numbers [draw] shows
    (GameRunner.tsx), the editing operations of LevelEditor.tsx, and
    the page of App.tsx that mounts the runner and receives its
    callbacks.

    Conventions of the embedding.
    - JavaScript numbers are embedded as rationals ([Q]), every double
      being one; the comparison operators of the source become boolean
      tests on [Q].  [Math.sqrt (s) < r] is written [s < r * r].
    - Where the outcome of the program depends on the rounding of
      doubles, the rounding is part of the embedding ([round64]): the
      clock, which accumulates 0.05 and decides by [% 0.1 < 0.05]
      which frames record a trail point, and the rotation of an
      editor object, [(rotation + 90) % 360].  The positions and
      velocities of the simulation are computed exactly; they are
      integers except under the speed multipliers 0.8, 1.2 and 1.4 and
      under the decay of the shake and the easing of the camera, where
      a comparison at an exact boundary may come out differently in
      the browser.
    - The mutable refs of the component ([playerRef], [inputRef],
      [timeRef], [recordedTrailRef], [shakeRef], [cameraRef]) are the
      fields of one record, [World], threaded through every stage.
    - Calls that leave the component (the host callbacks [onDie],
      [onWin], [onTestComplete]) and the particle bursts requested with
      [spawnParticles] (whose particles are drawn from [Math.random])
      are appended, in program order, to the [emitted] log of the
      world.  The particle list itself, the visual trail and the
      background particles only feed [draw] and are left out.
    - What a function takes from outside the program is an argument of
      its embedding: the values of [Math.random], the text of a number
      or of [Date.now ()], the rectangle the browser reports for the
      canvas.
    - The values a component keeps with [useState] are the fields of a
      record; a handler is a function on that record. *)

From Stdlib Require Import QArith Qabs Qround Lqa.
From Stdlib Require Import ZArith Lia Bool List String.
From Stdlib Require Import DecimalString.
Import ListNotations.
Open Scope Q_scope.

(** ** Numbers *)

Definition Qltb (a b : Q) : bool := negb (Qle_bool b a).

Notation "a <? b" := (Qltb a b) (at level 70, no associativity) : Q_scope.
Notation "a <=? b" := (Qle_bool a b) (at level 70, no associativity) : Q_scope.
Notation "a >? b" := (Qltb b a) (at level 70, no associativity) : Q_scope.
Notation "a >=? b" := (Qle_bool b a) (at level 70, no associativity) : Q_scope.
Notation "a =? b" := (Qeq_bool a b) (at level 70, no associativity) : Q_scope.

(** Truncation toward zero, as the [%] operator of JavaScript needs it. *)
Definition Qtrunc (a : Q) : Z :=
  if 0 <=? a then Qfloor a else Qceiling a.

(** [a % b]: the remainder takes the sign of the dividend. *)
Definition jsRem (a b : Q) : Q := a - b * inject_Z (Qtrunc (a / b)).

(** *** binary64

    The double nearest to a rational, ties to the even significand.
    [binade a] is the exponent [e] with [2 ^ e <= a < 2 ^ (e + 1)];
    the significand has 53 bits, and below [2 ^ -1022] the spacing
    stays [2 ^ -1074].  Overflow to infinity is left out: no value
    that is rounded here comes near [2 ^ 1024]. *)
Definition binade (a : Q) : Z :=
  let k := (Z.log2 (Qnum a) - Z.log2 (Zpos (Qden a)))%Z in
  if 2 ^ k <=? a then k else (k - 1)%Z.

Definition roundHalfEven (m : Q) : Z :=
  let f := Qfloor m in
  let r := m - inject_Z f in
  if r <? 1 # 2 then f
  else if (1 # 2) <? r then (f + 1)%Z
  else if Z.even f then f else (f + 1)%Z.

Definition round64 (q : Q) : Q :=
  let q := Qred q in
  if q =? 0 then 0
  else
    let a := Qabs q in
    let u := Z.max (binade a - 52) (-1074) in
    let m := Qred (inject_Z (roundHalfEven (a / 2 ^ u)) * 2 ^ u) in
    if 0 <? q then m else - m.

Arguments round64 : simpl never.

(** [Math.round]: the nearest integer, halves rounded up. *)
Definition Math_round (a : Q) : Q := inject_Z (Qfloor (a + 0.5)).

Definition Math_abs (a : Q) : Q := Qabs a.

(** ** constants.ts *)

Definition TILE_SIZE : Q := 48.
Definition GRAVITY : Q := 2.0.
Definition JUMP_FORCE : Q := -24.
Definition ORB_JUMP_FORCE : Q := -21.
Definition ORB_JUMP_PURPLE_FORCE : Q := -15.
Definition ORB_JUMP_RED_FORCE : Q := -34.
Definition MOVE_SPEED : Q := 9.
Definition TERMINAL_VELOCITY : Q := 30.
Definition ROTATION_SPEED : Q := 6.
Definition CEILING_HEIGHT : Q := 12.
Definition PORTAL_HEIGHT_BLOCKS : Q := 3.

Definition COLOR_PLAYER : string := "#fbbf24".
Definition COLOR_ORB_JUMP : string := "#facc15".
Definition COLOR_ORB_PURPLE : string := "#a855f7".
Definition COLOR_ORB_RED : string := "#ef4444".
Definition COLOR_ORB_GRAVITY : string := "#3b82f6".
Definition COLOR_PORTAL_GRAVITY : string := "#10b981".

(** ** types.ts *)

Inductive EntityType :=
| PLAYER | BLOCK | SPIKE | HALF_SPIKE
| ORB_JUMP | ORB_JUMP_PURPLE | ORB_JUMP_RED | ORB_GRAVITY
| PORTAL_GRAVITY
| PORTAL_SPEED_SLOW | PORTAL_SPEED_NORMAL | PORTAL_SPEED_FAST
| PORTAL_SPEED_VERY_FAST
| FLOOR.

Inductive GameMode := CLASSIC | FREE.

Module Vector2.
Record t := mk { x : Q; y : Q }.
End Vector2.

Module LevelObject.
Record t := mk {
  id : string;
  type : EntityType;
  x : Q;
  y : Q;
  rotation : option Q
}.
End LevelObject.

(** Of [LevelData] the simulation reads [objects], [length] and
    [gameMode]. *)
Module LevelData.
Record t := mk {
  objects : list LevelObject.t;
  length : Q;
  gameMode : GameMode
}.
End LevelData.

(** [Player], with the property [lastPortalX] that the gravity portal
    attaches to the player object at run time ([None]: not attached). *)
Record Player := mkPlayer {
  position : Vector2.t;
  velocity : Vector2.t;
  isGrounded : bool;
  isDead : bool;
  rotation : Q;
  gravityScale : Q;
  canOrbJump : bool;
  speedMultiplier : Q;
  lastPortalX : option Q
}.

Definition set_position (v : Vector2.t) (p : Player) : Player :=
  mkPlayer v (velocity p) (isGrounded p) (isDead p) (rotation p)
           (gravityScale p) (canOrbJump p) (speedMultiplier p) (lastPortalX p).
Definition set_velocity (v : Vector2.t) (p : Player) : Player :=
  mkPlayer (position p) v (isGrounded p) (isDead p) (rotation p)
           (gravityScale p) (canOrbJump p) (speedMultiplier p) (lastPortalX p).
Definition set_isGrounded (b : bool) (p : Player) : Player :=
  mkPlayer (position p) (velocity p) b (isDead p) (rotation p)
           (gravityScale p) (canOrbJump p) (speedMultiplier p) (lastPortalX p).
Definition set_isDead (b : bool) (p : Player) : Player :=
  mkPlayer (position p) (velocity p) (isGrounded p) b (rotation p)
           (gravityScale p) (canOrbJump p) (speedMultiplier p) (lastPortalX p).
Definition set_rotation (r : Q) (p : Player) : Player :=
  mkPlayer (position p) (velocity p) (isGrounded p) (isDead p) r
           (gravityScale p) (canOrbJump p) (speedMultiplier p) (lastPortalX p).
Definition set_gravityScale (g : Q) (p : Player) : Player :=
  mkPlayer (position p) (velocity p) (isGrounded p) (isDead p) (rotation p)
           g (canOrbJump p) (speedMultiplier p) (lastPortalX p).
Definition set_canOrbJump (b : bool) (p : Player) : Player :=
  mkPlayer (position p) (velocity p) (isGrounded p) (isDead p) (rotation p)
           (gravityScale p) b (speedMultiplier p) (lastPortalX p).
Definition set_speedMultiplier (m : Q) (p : Player) : Player :=
  mkPlayer (position p) (velocity p) (isGrounded p) (isDead p) (rotation p)
           (gravityScale p) (canOrbJump p) m (lastPortalX p).
Definition set_lastPortalX (l : option Q) (p : Player) : Player :=
  mkPlayer (position p) (velocity p) (isGrounded p) (isDead p) (rotation p)
           (gravityScale p) (canOrbJump p) (speedMultiplier p) l.

Definition set_position_x (a : Q) (p : Player) : Player :=
  set_position (Vector2.mk a (Vector2.y (position p))) p.
Definition set_position_y (a : Q) (p : Player) : Player :=
  set_position (Vector2.mk (Vector2.x (position p)) a) p.
Definition set_velocity_x (a : Q) (p : Player) : Player :=
  set_velocity (Vector2.mk a (Vector2.y (velocity p))) p.
Definition set_velocity_y (a : Q) (p : Player) : Player :=
  set_velocity (Vector2.mk (Vector2.x (velocity p)) a) p.

(** ** GameRunner.tsx: props, refs and effects *)

(** The props that [update] reads.  [onTestComplete] is optional in
    [GameRunnerProps]: the field tells whether the host supplied it. *)
Record Props := mkProps {
  isProcedural : bool;
  isTestMode : bool;
  onTestComplete : bool
}.

Inductive Event :=
| SpawnParticles (x y : Q) (count : nat) (color : string) (speedMult : Q)
| OnDie
| OnWin
| OnTestComplete (trail : list Vector2.t) (deathPos : option Vector2.t).

Record Input := mkInput {
  jump : bool;
  jumpPressedThisFrame : bool
}.

Record World := mkWorld {
  player : Player;
  input : Input;
  time : Q;
  recordedTrail : list Vector2.t;
  shake : Q;
  camera : Vector2.t;
  emitted : list Event
}.

Definition set_player (p : Player) (w : World) : World :=
  mkWorld p (input w) (time w) (recordedTrail w) (shake w) (camera w) (emitted w).
Definition set_input (i : Input) (w : World) : World :=
  mkWorld (player w) i (time w) (recordedTrail w) (shake w) (camera w) (emitted w).
Definition set_time (t : Q) (w : World) : World :=
  mkWorld (player w) (input w) t (recordedTrail w) (shake w) (camera w) (emitted w).
Definition set_recordedTrail (l : list Vector2.t) (w : World) : World :=
  mkWorld (player w) (input w) (time w) l (shake w) (camera w) (emitted w).
Definition set_shake (s : Q) (w : World) : World :=
  mkWorld (player w) (input w) (time w) (recordedTrail w) s (camera w) (emitted w).
Definition set_camera (c : Vector2.t) (w : World) : World :=
  mkWorld (player w) (input w) (time w) (recordedTrail w) (shake w) c (emitted w).
Definition emit (e : Event) (w : World) : World :=
  mkWorld (player w) (input w) (time w) (recordedTrail w) (shake w) (camera w)
          (emitted w ++ [e]).

Definition upd_player (f : Player -> Player) (w : World) : World :=
  set_player (f (player w)) w.

Definition posX (w : World) : Q := Vector2.x (position (player w)).
Definition posY (w : World) : Q := Vector2.y (position (player w)).
Definition velX (w : World) : Q := Vector2.x (velocity (player w)).
Definition velY (w : World) : Q := Vector2.y (velocity (player w)).

(** The state the run-reset effect installs. *)
Definition initialPlayer : Player :=
  mkPlayer (Vector2.mk 0 0) (Vector2.mk MOVE_SPEED 0) true false 0 1 true 1.0 None.

Definition initialWorld : World :=
  mkWorld initialPlayer (mkInput false false) 0 [] 0 (Vector2.mk 0 0) [].

(** *** Input handlers *)

(** [handleKeyDown] (for the jump keys), [handleMouseDown] and the touch
    start share one body; so do [handleKeyUp], [handleMouseUp] and the
    touch end. *)
Inductive InputEvent := Press | Release.

Definition handleDown (w : World) : World :=
  let i := input w in
  let pressed := if negb (jump i) then true else jumpPressedThisFrame i in
  set_input (mkInput true pressed) w.

Definition handleUp (w : World) : World :=
  upd_player (set_canOrbJump true) (set_input (mkInput false false) w).

Definition handleInput (w : World) (e : InputEvent) : World :=
  match e with
  | Press => handleDown w
  | Release => handleUp w
  end.

(** *** checkCollision *)

Module Rect.
Record t := mk { x : Q; y : Q; w : Q; h : Q }.
End Rect.

Definition checkCollision (r1 r2 : Rect.t) : bool :=
  (Rect.x r1 <? Rect.x r2 + Rect.w r2) &&
  (Rect.x r1 + Rect.w r1 >? Rect.x r2) &&
  (Rect.y r1 <? Rect.y r2 + Rect.h r2) &&
  (Rect.y r1 + Rect.h r1 >? Rect.y r2).

(** *** The stages of [update] *)

Definition isOrb (t : EntityType) : bool :=
  match t with
  | ORB_JUMP | ORB_GRAVITY | ORB_JUMP_PURPLE | ORB_JUMP_RED => true
  | _ => false
  end.

Definition isPortal (t : EntityType) : bool :=
  match t with
  | PORTAL_GRAVITY | PORTAL_SPEED_SLOW | PORTAL_SPEED_NORMAL
  | PORTAL_SPEED_FAST | PORTAL_SPEED_VERY_FAST => true
  | _ => false
  end.

Definition isBlock (t : EntityType) : bool :=
  match t with BLOCK => true | _ => false end.

Definition isLethal (t : EntityType) : bool :=
  match t with SPIKE | HALF_SPIKE => true | _ => false end.

(** [shakeRef] decays at the top of every call. *)
Definition decayShake (w : World) : World :=
  let w := if shake w >? 0 then set_shake (shake w * 0.9) w else w in
  if shake w <? 0.5 then set_shake 0 w else w.

(** "Record Trail for Editor Test".  The literals 0.1 and 0.05 are the
    doubles nearest to them; [%] on doubles is exact. *)
Definition recordTrail (props : Props) (w : World) : World :=
  if isTestMode props && negb (isDead (player w)) &&
     (jsRem (time w) (round64 0.1) <? round64 0.05)
  then set_recordedTrail
         (recordedTrail w ++ [Vector2.mk (posX w) (posY w)]) w
  else w.

(** The search for a supporting block, [for ... break]. *)
Definition blockSupports (gravityMult pX posy : Q) (obj : LevelObject.t) : bool :=
  if isBlock (LevelObject.type obj) then
    let oX := LevelObject.x obj * TILE_SIZE in
    let oY := - LevelObject.y obj * TILE_SIZE in
    if (pX >? oX) && (pX <? oX + TILE_SIZE) then
      if gravityMult =? 1 then
        Math_abs (posy - oY) <? 5
      else
        let targetY := oY + 2 * TILE_SIZE in
        Math_abs (posy - targetY) <? 5
    else false
  else false.

(** "Ground / Stability Check". *)
Definition stabilityCheck (lvl : LevelData.t) (gravityMult : Q) (w : World) : World :=
  if isGrounded (player w) && negb (jump (input w)) then
    let supported :=
      if gravityMult =? 1 then
        posY w >=? 0
      else
        match LevelData.gameMode lvl with
        | FREE => false
        | CLASSIC =>
            let ceilY := - (CEILING_HEIGHT * TILE_SIZE) in
            posY w <=? ceilY + TILE_SIZE + 2
        end in
    let supported :=
      if negb supported then
        let pX := posX w + TILE_SIZE / 2 in
        existsb (blockSupports gravityMult pX (posY w)) (LevelData.objects lvl)
      else supported in
    if negb supported then upd_player (set_isGrounded false) w else w
  else w.

(** "Physics Update": gravity, run speed, ground jump, terminal
    velocity, horizontal advance, rotation. *)
Definition applyGravity (gravityMult : Q) (w : World) : World :=
  if negb (isGrounded (player w)) then
    upd_player (set_velocity_y (velY w + GRAVITY * gravityMult)) w
  else
    upd_player (set_velocity_y 0) w.

Definition applySpeed (w : World) : World :=
  upd_player (set_velocity_x (MOVE_SPEED * speedMultiplier (player w))) w.

Definition groundJump (gravityMult : Q) (w : World) : World :=
  if jump (input w) && isGrounded (player w) then
    let w1 := upd_player (set_velocity_y (JUMP_FORCE * gravityMult)) w in
    let w2 := upd_player (set_isGrounded false) w1 in
    let w3 := upd_player (set_canOrbJump false) w2 in
    emit (SpawnParticles (posX w3 + 24) (posY w3) 10 "white" 1) w3
  else w.

Definition clampVelocity (gravityMult : Q) (w : World) : World :=
  if gravityMult =? 1 then
    if velY w >? TERMINAL_VELOCITY
    then upd_player (set_velocity_y TERMINAL_VELOCITY) w else w
  else
    if velY w <? - TERMINAL_VELOCITY
    then upd_player (set_velocity_y (- TERMINAL_VELOCITY)) w else w.

Definition advanceX (w : World) : World :=
  upd_player (set_position_x (posX w + velX w)) w.

Definition rotate (gravityMult : Q) (w : World) : World :=
  let r := rotation (player w) in
  if negb (isGrounded (player w)) then
    upd_player (set_rotation (r + ROTATION_SPEED * gravityMult)) w
  else
    let rem := jsRem r 90 in
    if negb (rem =? 0)
    then upd_player (set_rotation (Math_round (r / 90) * 90)) w
    else w.

Definition physics (gravityMult : Q) (w : World) : World :=
  rotate gravityMult
    (advanceX
      (clampVelocity gravityMult
        (groundJump gravityMult
          (applySpeed
            (applyGravity gravityMult w))))).

(** "Collision Detection": the values fixed before the loop over the
    level objects.  [prevY] is read before the vertical advance. *)
Record TickCtx := mkCtx {
  gravityMult : Q;
  prevY : Q;
  pRect : Rect.t;
  pCenterX : Q;
  pCenterY : Q
}.

Definition advanceY (w : World) : World :=
  upd_player (set_position_y (posY w + velY w)) w.

(** The context, from the world as it is before the vertical advance. *)
Definition tickCtx (gravityMult : Q) (w : World) : TickCtx :=
  let prevY := posY w - velY w in
  let w' := advanceY w in
  mkCtx gravityMult prevY
        (Rect.mk (posX w' + 10) (posY w' - TILE_SIZE + 10)
                 (TILE_SIZE - 20) (TILE_SIZE - 20))
        (posX w' + TILE_SIZE / 2)
        (posY w' - TILE_SIZE / 2).

(** The body of [for (const obj of currentLevel.objects)] either falls
    through to the next object or leaves [update] with [return]. *)
Inductive Flow :=
| Continue (w : World)
| Return (w : World).

(** The callback a death invokes; [player.position] is passed as it is
    at the call. *)
Definition deathCallback (props : Props) (w : World) : Event :=
  if isTestMode props && onTestComplete props
  then OnTestComplete (recordedTrail w) (Some (position (player w)))
  else OnDie.

Definition reportDeath (props : Props) (w : World) : World :=
  emit (deathCallback props w) w.

(** Death inside the loop: spike, or block hit from the wrong side. *)
Definition crash (props : Props) (w : World) : World :=
  reportDeath props (set_shake 20 (upd_player (set_isDead true) w)).

Definition orbColor (t : EntityType) : string :=
  match t with
  | ORB_GRAVITY => COLOR_ORB_GRAVITY
  | ORB_JUMP_PURPLE => COLOR_ORB_PURPLE
  | ORB_JUMP_RED => COLOR_ORB_RED
  | _ => COLOR_ORB_JUMP
  end.

Definition orbRadius : Q := 32.

Definition orbInRange (ctx : TickCtx) (obj : LevelObject.t) : bool :=
  let objX := LevelObject.x obj * TILE_SIZE in
  let objY := - LevelObject.y obj * TILE_SIZE in
  let objCenterX := objX + TILE_SIZE / 2 in
  let objCenterY := objY + TILE_SIZE / 2 in
  let dx := pCenterX ctx - objCenterX in
  let dy := pCenterY ctx - objCenterY in
  dx * dx + dy * dy <? orbRadius * orbRadius.

Definition orbEffect (ctx : TickCtx) (t : EntityType) (p : Player) : Player :=
  match t with
  | ORB_JUMP =>
      set_isGrounded false (set_velocity_y (ORB_JUMP_FORCE * gravityMult ctx) p)
  | ORB_JUMP_PURPLE =>
      set_isGrounded false (set_velocity_y (ORB_JUMP_PURPLE_FORCE * gravityMult ctx) p)
  | ORB_JUMP_RED =>
      set_isGrounded false (set_velocity_y (ORB_JUMP_RED_FORCE * gravityMult ctx) p)
  | ORB_GRAVITY =>
      let p1 := set_gravityScale (gravityScale p * -1) p in
      set_isGrounded false (set_velocity_y (JUMP_FORCE * 0.5 * gravityScale p1) p1)
  | _ => p
  end.

(** The guard of the orb branch. *)
Definition orbFires (ctx : TickCtx) (obj : LevelObject.t) (w : World) : bool :=
  let isJumpInputActive :=
    jumpPressedThisFrame (input w) ||
    (jump (input w) && canOrbJump (player w)) in
  orbInRange ctx obj && isJumpInputActive && canOrbJump (player w).

Definition handleOrb (ctx : TickCtx) (obj : LevelObject.t) (w : World) : World :=
  let objX := LevelObject.x obj * TILE_SIZE in
  let objY := - LevelObject.y obj * TILE_SIZE in
  let objCenterX := objX + TILE_SIZE / 2 in
  let objCenterY := objY + TILE_SIZE / 2 in
  if orbFires ctx obj w then
    let w1 := upd_player (set_canOrbJump false) w in
    let w2 := set_input (mkInput (jump (input w1)) false) w1 in
    let w3 := emit (SpawnParticles objCenterX objCenterY 15
                      (orbColor (LevelObject.type obj)) 1) w2 in
    upd_player (orbEffect ctx (LevelObject.type obj)) w3
  else w.

(** [(player as any).lastPortalX || -1000]: an absent property and the
    number zero both yield the default. *)
Definition lastPortalXOr (l : option Q) (d : Q) : Q :=
  match l with
  | Some v => if v =? 0 then d else v
  | None => d
  end.

Definition portalRect (obj : LevelObject.t) : Rect.t :=
  let objX := LevelObject.x obj * TILE_SIZE in
  let objY := - LevelObject.y obj * TILE_SIZE in
  let portalTop := objY - (PORTAL_HEIGHT_BLOCKS - 1) * TILE_SIZE in
  let portalH := PORTAL_HEIGHT_BLOCKS * TILE_SIZE in
  Rect.mk (objX + 15) portalTop 18 portalH.

Definition speedPortal (t : EntityType) (p : Player) : Player :=
  match t with
  | PORTAL_SPEED_SLOW => set_speedMultiplier 0.8 p
  | PORTAL_SPEED_NORMAL => set_speedMultiplier 1.0 p
  | PORTAL_SPEED_FAST => set_speedMultiplier 1.2 p
  | PORTAL_SPEED_VERY_FAST => set_speedMultiplier 1.4 p
  | _ => p
  end.

Definition gravityPortal (ctx : TickCtx) (w : World) : World :=
  let lastX := lastPortalXOr (lastPortalX (player w)) (-1000) in
  if Math_abs (posX w - lastX) >? TILE_SIZE * 2 then
    let w1 := upd_player (fun p => set_gravityScale (gravityScale p * -1) p) w in
    let w2 := emit (SpawnParticles (pCenterX ctx) (pCenterY ctx) 20
                      COLOR_PORTAL_GRAVITY 2) w1 in
    upd_player (set_lastPortalX (Some (posX w2))) w2
  else w.

Definition handlePortal (ctx : TickCtx) (obj : LevelObject.t) (w : World) : World :=
  if checkCollision (pRect ctx) (portalRect obj) then
    let w1 := upd_player (speedPortal (LevelObject.type obj)) w in
    match LevelObject.type obj with
    | PORTAL_GRAVITY => gravityPortal ctx w1
    | _ => w1
    end
  else w.

(** The hit box of everything that is neither orb nor portal. *)
Definition hitBox (obj : LevelObject.t) : Rect.t :=
  let objX := LevelObject.x obj * TILE_SIZE in
  let objY := - LevelObject.y obj * TILE_SIZE in
  match LevelObject.type obj with
  | SPIKE =>
      Rect.mk (objX + 14) (objY + 14) (TILE_SIZE - 28) (TILE_SIZE - 28)
  | HALF_SPIKE =>
      Rect.mk (objX + 14) (objY + 28) (TILE_SIZE - 28) (TILE_SIZE - 28)
  | _ => Rect.mk objX objY TILE_SIZE TILE_SIZE
  end.

Definition handleBlock (props : Props) (ctx : TickCtx) (obj : LevelObject.t)
    (w : World) : Flow :=
  let objY := - LevelObject.y obj * TILE_SIZE in
  let '(w1, landed) :=
    if gravityMult ctx =? 1 then
      if (velY w >=? 0) && (prevY ctx <=? objY + 15)
      then (upd_player (set_position_y objY) w, true)
      else (w, false)
    else
      let blockBottom := objY + TILE_SIZE in
      if (velY w <=? 0) && (prevY ctx - TILE_SIZE >=? blockBottom - 15)
      then (upd_player (set_position_y (blockBottom + TILE_SIZE)) w, true)
      else (w, false) in
  if landed : bool then
    Continue (upd_player (set_isGrounded true)
               (upd_player (set_velocity_y 0) w1))
  else
    Return (crash props w1).

Definition handleSolid (props : Props) (ctx : TickCtx) (obj : LevelObject.t)
    (w : World) : Flow :=
  if checkCollision (pRect ctx) (hitBox obj) then
    if isLethal (LevelObject.type obj) then Return (crash props w)
    else if isBlock (LevelObject.type obj) then handleBlock props ctx obj w
    else Continue w
  else Continue w.

Definition collideObject (props : Props) (ctx : TickCtx) (obj : LevelObject.t)
    (w : World) : Flow :=
  if isOrb (LevelObject.type obj) then Continue (handleOrb ctx obj w)
  else if isPortal (LevelObject.type obj) then Continue (handlePortal ctx obj w)
  else handleSolid props ctx obj w.

Fixpoint collide (props : Props) (ctx : TickCtx) (objs : list LevelObject.t)
    (w : World) : Flow :=
  match objs with
  | [] => Continue w
  | obj :: rest =>
      match collideObject props ctx obj w with
      | Continue w' => collide props ctx rest w'
      | Return w' => Return w'
      end
  end.

(** "Floor/Ceiling Logic". *)
Definition floorCeiling (props : Props) (lvl : LevelData.t) (gravityMult : Q)
    (w : World) : World :=
  if negb (isDead (player w)) then
    if gravityMult =? 1 then
      if posY w >=? 0 then
        upd_player (set_isGrounded true)
          (upd_player (set_velocity_y 0)
            (upd_player (set_position_y 0) w))
      else w
    else
      let ceilY := - (CEILING_HEIGHT * TILE_SIZE) in
      match LevelData.gameMode lvl with
      | FREE =>
          if (posY w <? -3000) || (posY w >? 1000)
          then reportDeath props (upd_player (set_isDead true) w)
          else w
      | CLASSIC =>
          if posY w - TILE_SIZE <=? ceilY then
            upd_player (set_isGrounded true)
              (upd_player (set_velocity_y 0)
                (upd_player (set_position_y (ceilY + TILE_SIZE)) w))
          else w
      end
  else w.

Definition clearPressed (w : World) : World :=
  set_input (mkInput (jump (input w)) false) w.

Definition updateCamera (lvl : LevelData.t) (w : World) : World :=
  let targetCamX := posX w - 300 in
  let w1 := set_camera (Vector2.mk targetCamX (Vector2.y (camera w))) w in
  match LevelData.gameMode lvl with
  | FREE =>
      let targetCamY := posY w1 - 150 in
      let cy := Vector2.y (camera w1) in
      set_camera (Vector2.mk (Vector2.x (camera w1))
                             (cy + (targetCamY - cy) * 0.1)) w1
  | CLASSIC =>
      set_camera (Vector2.mk (Vector2.x (camera w1)) 0) w1
  end.

Definition winCallback (props : Props) (w : World) : Event :=
  if isTestMode props && onTestComplete props
  then OnTestComplete (recordedTrail w) None
  else OnWin.

Definition pastEnd (props : Props) (lvl : LevelData.t) (w : World) : bool :=
  negb (isProcedural props) && (posX w >? LevelData.length lvl * TILE_SIZE).

Definition winCheck (props : Props) (lvl : LevelData.t) (w : World) : World :=
  if pastEnd props lvl w then emit (winCallback props w) w else w.

(** What follows the loop when it did not [return]. *)
Definition afterCollisions (props : Props) (lvl : LevelData.t) (gravityMult : Q)
    (w : World) : World :=
  winCheck props lvl
    (updateCamera lvl
      (clearPressed
        (floorCeiling props lvl gravityMult w))).

(** The stages that precede the loop over the level objects, up to and
    excluding the vertical advance. *)
Definition beforeLoop (props : Props) (lvl : LevelData.t) (w : World) : World :=
  let gravityMult := gravityScale (player w) in
  physics gravityMult (stabilityCheck lvl gravityMult (recordTrail props w)).

Definition loopCtx (props : Props) (lvl : LevelData.t) (w : World) : TickCtx :=
  tickCtx (gravityScale (player w)) (beforeLoop props lvl w).

(** The world on entry to the loop. *)
Definition loopEntry (props : Props) (lvl : LevelData.t) (w : World) : World :=
  advanceY (beforeLoop props lvl w).

Definition runLoop (props : Props) (lvl : LevelData.t) (w : World) : Flow :=
  collide props (loopCtx props lvl w) (LevelData.objects lvl)
          (loopEntry props lvl w).

(** The part of [update] that runs for a living player. *)
Definition simulate (props : Props) (lvl : LevelData.t) (w : World) : World :=
  match runLoop props lvl w with
  | Return w' => w'
  | Continue w' => afterCollisions props lvl (gravityScale (player w)) w'
  end.

(** The head of [update]: the clock and the camera shake.
    [timeRef.current += 0.05] adds the double nearest to 0.05 and
    rounds the sum. *)
Definition tickStart (w : World) : World :=
  decayShake (set_time (round64 (time w + round64 0.05)) w).

(** [update]. *)
Definition update (props : Props) (lvl : LevelData.t) (w : World) : World :=
  let w0 := tickStart w in
  if isDead (player w0) then
    emit (SpawnParticles (posX w0 + 24) (posY w0 - 24) 5 COLOR_PLAYER 0.5) w0
  else simulate props lvl w0.

(** *** Runs *)

(** One animation frame: the input events that arrived since the last
    frame, then [update]. *)
Definition frame (props : Props) (lvl : LevelData.t) (w : World)
    (evs : list InputEvent) : World :=
  update props lvl (fold_left handleInput evs w).

Definition run (props : Props) (lvl : LevelData.t) (frames : list (list InputEvent))
    (w : World) : World :=
  fold_left (frame props lvl) frames w.

Definition ticks (props : Props) (lvl : LevelData.t) (n : nat) (w : World) : World :=
  Nat.iter n (update props lvl) w.

(** Whether a call of [update] on a living player leaves from inside
    the loop over the level objects (the two [return]s after a death
    on a spike or against a block). *)
Definition crashes (props : Props) (lvl : LevelData.t) (w : World) : bool :=
  match runLoop props lvl (tickStart w) with
  | Return _ => true
  | Continue _ => false
  end.

(** ** Predicates of the statements *)

(** Inside the loop of a tick: the player is to the right of the
    origin, runs forward, and a recorded portal position is positive. *)
Definition forward (w : World) : Prop :=
  0 < posX w /\ 0 < speedMultiplier (player w) /\
  forall v, lastPortalX (player w) = Some v -> 0 < v.

(** Between ticks the player may still be at the origin. *)
Definition sane (w : World) : Prop :=
  0 <= posX w /\ 0 < speedMultiplier (player w) /\
  forall v, lastPortalX (player w) = Some v -> 0 < v.


(** The callbacks among logged effects. *)
Definition isCallback (e : Event) : bool :=
  match e with
  | SpawnParticles _ _ _ _ _ => false
  | _ => true
  end.

Definition callbacks (l : list Event) : list Event := filter isCallback l.

Definition isOnDie (e : Event) : bool :=
  match e with OnDie => true | _ => false end.
Definition isOnWin (e : Event) : bool :=
  match e with OnWin => true | _ => false end.
Definition isOnTestComplete (e : Event) : bool :=
  match e with OnTestComplete _ _ => true | _ => false end.

Definition countIf (f : Event -> bool) (l : list Event) : nat :=
  List.length (filter f l).

(** A ground jump requests a burst of 10 particles; no other call of
    [spawnParticles] asks for 10. *)
Definition isJumpBurst (e : Event) : bool :=
  match e with
  | SpawnParticles _ _ 10 _ _ => true
  | _ => false
  end.

(** An orb that activates requests a burst of 15 particles at its
    centre; no other call of [spawnParticles] asks for 15. *)
Definition isOrbBurst (e : Event) : bool :=
  match e with
  | SpawnParticles _ _ 15 _ _ => true
  | _ => false
  end.

Definition orbBursts (l : list Event) : nat := countIf isOrbBurst l.

(** The effects logged between two worlds of one run. *)
Definition since (w w' : World) : list Event :=
  skipn (List.length (emitted w)) (emitted w').

(** The orb-jump lock as a number: 1 while an orb may still activate. *)
Definition lock (w : World) : nat :=
  if canOrbJump (player w) then 1%nat else 0%nat.

(** [w'] comes after [w] in a run without a release of the jump
    control: the log was extended, by effects whose callbacks are
    [cbs], and every orb burst among them used up the lock. *)
Definition emits (w w' : World) (cbs : list Event) : Prop :=
  exists evs,
    emitted w' = emitted w ++ evs /\
    callbacks evs = cbs /\
    (orbBursts evs + lock w' <= lock w)%nat.

(** In the loop, the bursts of orbs are exactly what the lock lost. *)
Definition spends (w w' : World) : Prop :=
  exists evs,
    emitted w' = emitted w ++ evs /\
    (orbBursts evs + lock w' = lock w)%nat.

(** The callbacks of a tick that starts with a living player, read off
    the world it produces: the death callback if the player is dead,
    then the win callback if [update] got as far as the win test and
    the player is past the end of the level. *)
Definition tickCallbacks (props : Props) (lvl : LevelData.t) (w : World)
    : list Event :=
  let w' := update props lvl w in
  (if isDead (player w') then [deathCallback props w'] else []) ++
  (if negb (crashes props lvl w) && pastEnd props lvl w'
   then [winCallback props w'] else []).

(** The input side of the orb guard: the part of [orbFires] that does
    not depend on the orb. *)
Definition gate (w : World) : bool :=
  (jumpPressedThisFrame (input w) ||
   (jump (input w) && canOrbJump (player w))) &&
  canOrbJump (player w).

(** Frames in which the jump control is never released. *)
Definition held (frames : list (list InputEvent)) : Prop :=
  Forall (Forall (fun e => e = Press)) frames.

(** The centre of the tile of an object. *)
Definition centerX (obj : LevelObject.t) : Q :=
  LevelObject.x obj * TILE_SIZE + TILE_SIZE / 2.
Definition centerY (obj : LevelObject.t) : Q :=
  - LevelObject.y obj * TILE_SIZE + TILE_SIZE / 2.

(** ** The mirror of CLASSIC mode *)

(** The ceiling line of CLASSIC mode, [-576]. *)
Definition ceilingY : Q := - (CEILING_HEIGHT * TILE_SIZE).

(** The reflection that exchanges the floor line [0] and the ceiling
    line: a point at height [s] goes to [ceilingY - s].  The player
    occupies [position.y - TILE_SIZE, position.y], so its position goes
    to [ceilingY + TILE_SIZE - position.y]. *)
Definition mirrorY (y : Q) : Q := ceilingY + TILE_SIZE - y.

(** The grid row whose hit region is the reflection of the hit region
    of an object of type [t] in row [row]: tiles, spikes and orbs are
    symmetric within their tile; the strip of a portal extends two
    tiles above its tile, the box of a half spike is the lower 20px of
    its tile inset by 28. *)
Definition mirrorRow (t : EntityType) (row : Q) : Q :=
  match t with
  | PORTAL_GRAVITY | PORTAL_SPEED_SLOW | PORTAL_SPEED_NORMAL
  | PORTAL_SPEED_FAST | PORTAL_SPEED_VERY_FAST =>
      CEILING_HEIGHT + 1 - (PORTAL_HEIGHT_BLOCKS - 1) - row
  | HALF_SPIKE => CEILING_HEIGHT + 1 + 28 / TILE_SIZE - row
  | _ => CEILING_HEIGHT + 1 - row
  end.

Definition mirrorObject (o : LevelObject.t) : LevelObject.t :=
  LevelObject.mk (LevelObject.id o) (LevelObject.type o) (LevelObject.x o)
                 (mirrorRow (LevelObject.type o) (LevelObject.y o))
                 (LevelObject.rotation o).

Definition mirrorLevel (lvl : LevelData.t) : LevelData.t :=
  LevelData.mk (map mirrorObject (LevelData.objects lvl))
               (LevelData.length lvl) (LevelData.gameMode lvl).

Definition mirrorPlayer (p : Player) : Player :=
  mkPlayer (Vector2.mk (Vector2.x (position p)) (mirrorY (Vector2.y (position p))))
           (Vector2.mk (Vector2.x (velocity p)) (- Vector2.y (velocity p)))
           (isGrounded p) (isDead p) (rotation p) (- gravityScale p)
           (canOrbJump p) (speedMultiplier p) (lastPortalX p).

Definition mirrorWorld (w : World) : World :=
  set_player (mirrorPlayer (player w)) w.

Definition sameOpt (a b : option Q) : Prop :=
  match a, b with
  | Some u, Some v => u == v
  | None, None => True
  | _, _ => False
  end.

(** [p'] is the mirror image of [p]: vertical position reflected,
    vertical velocity and gravity negated, everything else that the
    simulation reads equal.  (The rotation is only drawn.) *)
Definition mirroredPlayer (p p' : Player) : Prop :=
  Vector2.x (position p') == Vector2.x (position p) /\
  Vector2.y (position p') == mirrorY (Vector2.y (position p)) /\
  Vector2.x (velocity p') == Vector2.x (velocity p) /\
  Vector2.y (velocity p') == - Vector2.y (velocity p) /\
  isGrounded p' = isGrounded p /\
  isDead p' = isDead p /\
  gravityScale p' == - gravityScale p /\
  canOrbJump p' = canOrbJump p /\
  speedMultiplier p' == speedMultiplier p /\
  sameOpt (lastPortalX p) (lastPortalX p').

Definition mirrored (w w' : World) : Prop :=
  mirroredPlayer (player w) (player w') /\ input w' = input w.

(** Gravity is one of the two signs. *)
Definition upright (w : World) : Prop :=
  gravityScale (player w) == 1 \/ gravityScale (player w) == -1.

(** A grounded player is not inside the 2px by which the support test
    at the ceiling is wider than the one at the floor. *)
Definition settled (w : World) : Prop :=
  isGrounded (player w) = true ->
  ~ (-2 <= posY w /\ posY w < 0) /\
  ~ (mirrorY 0 < posY w /\ posY w <= mirrorY 0 + 2).

(** Blocks sit on integer grid rows. *)
Definition integerRows (lvl : LevelData.t) : Prop :=
  forall o, In o (LevelData.objects lvl) ->
            LevelObject.type o = BLOCK ->
            exists z : Z, LevelObject.y o == inject_Z z.

(** Reflection of rectangles and of the values a tick fixes before its
    loop. *)
Definition mirroredRect (r r' : Rect.t) : Prop :=
  Rect.x r' == Rect.x r /\ Rect.w r' == Rect.w r /\ Rect.h r' == Rect.h r /\
  Rect.y r' == ceilingY - Rect.y r - Rect.h r.

Definition mirroredCtx (c c' : TickCtx) : Prop :=
  gravityMult c' == - gravityMult c /\
  prevY c' == mirrorY (prevY c) /\
  mirroredRect (pRect c) (pRect c') /\
  pCenterX c' == pCenterX c /\
  pCenterY c' == ceilingY - pCenterY c.

Definition mirroredFlow (f f' : Flow) : Prop :=
  match f, f' with
  | Continue w, Continue w' => mirrored w w'
  | Return w, Return w' => mirrored w w'
  | _, _ => False
  end.

(** A grounded player has no vertical velocity (true between the
    gravity step and the vertical advance of a tick). *)
Definition rests (w : World) : Prop :=
  isGrounded (player w) = true -> velY w == 0.

(** ** Concrete inputs used below *)

Definition noObject : LevelData.t := LevelData.mk [] 50 CLASSIC.
Definition freeLevel : LevelData.t := LevelData.mk [] 50 FREE.
Definition playProps : Props := mkProps false false false.
Definition testProps : Props := mkProps false true true.

(** A dead player, where it stood at the start of the run. *)
Definition deadWorld : World :=
  upd_player (set_isDead true) initialWorld.

(** A half spike one tile above the start tile: the player that jumps
    on the first frame runs into it. *)
Definition halfSpikeAbove : LevelObject.t :=
  LevelObject.mk "hs" HALF_SPIKE 0 2 None.
Definition halfSpikeLevel : LevelData.t :=
  LevelData.mk [halfSpikeAbove] 50 CLASSIC.

(** FREE mode, normal gravity, the player below the floor line at
    [y = 1001]. *)
Definition below1001 : World :=
  upd_player (set_position_y 1001) initialWorld.

(** FREE mode, inverted gravity, airborne and at rest at [y = 1001]. *)
Definition inverted1001 : World :=
  upd_player (fun p => set_isGrounded false
                         (set_gravityScale (-1) (set_position_y 1001 p)))
             initialWorld.

(** FREE mode, inverted gravity, airborne at [y = -3001], moving back
    toward the band at terminal speed. *)
Definition inverted3001 : World :=
  upd_player (fun p => set_isGrounded false
                         (set_gravityScale (-1)
                           (set_velocity_y 30 (set_position_y (-3001) p))))
             initialWorld.

(** FREE mode, inverted gravity, airborne and at rest at [y = -3001]. *)
Definition lost3001 : World :=
  upd_player (fun p => set_isGrounded false
                         (set_gravityScale (-1) (set_position_y (-3001) p)))
             initialWorld.


(** Frames without input events. *)
Definition idle (n : nat) : list (list InputEvent) := repeat [] n.

(** A spike standing on the floor two tiles from the start. *)
Definition spikeAt2 : LevelObject.t := LevelObject.mk "s" SPIKE 2 1 None.
Definition spikeLevel : LevelData.t := LevelData.mk [spikeAt2] 50 CLASSIC.

(** A yellow orb on the start tile: the centre of the player at the
    start of the run is the centre of the orb. *)
Definition orbAtStart : LevelObject.t := LevelObject.mk "o" ORB_JUMP 0 1 None.
Definition orbLevel : LevelData.t := LevelData.mk [orbAtStart] 50 CLASSIC.

(** A yellow orb three tiles up, and a player in the air next to it
    with the jump control just pressed. *)
Definition orbAbove : LevelObject.t := LevelObject.mk "o" ORB_JUMP 0 3 None.
Definition orbAboveLevel : LevelData.t := LevelData.mk [orbAbove] 50 CLASSIC.
Definition airborneAtOrb : World :=
  handleDown
    (upd_player (fun p => set_isGrounded false (set_position_y (-100) p))
                initialWorld).

(** A block one tile above the floor row, five tiles from the start,
    and the frames of a single jump from the start of the run: pressed
    before the first frame, released before the second. *)
Definition blockAt5 : LevelObject.t := LevelObject.mk "b" BLOCK 5 2 None.
Definition blockLevel : LevelData.t := LevelData.mk [blockAt5] 200 CLASSIC.
Definition jumpFrames (n : nat) : list (list InputEvent) :=
  [Press] :: [Release] :: idle n.

(** A player in the air above the left part of [blockAt5], falling. *)
Definition fallingAtBlock : World :=
  upd_player (fun p => set_isGrounded false
                         (set_velocity_y 10
                           (set_position (Vector2.mk 230 (-90)) p)))
             initialWorld.

(** ** GameRunner.tsx: the reset effect, the keys, the generator *)

(** *** The run-reset effect *)

(** The effect that runs when the component mounts and when [level],
    [isActive] or [isProcedural] change: the player, the camera, the
    recorded trail and the shake are reinstalled; [inputRef] and
    [timeRef] are not touched. *)
Definition resetRun (w : World) : World :=
  mkWorld initialPlayer (input w) (time w) [] 0 (Vector2.mk 0 0) (emitted w).

(** *** Keyboard *)

Definition isJumpKey (code : string) : bool :=
  String.eqb code "Space" || String.eqb code "ArrowUp" || String.eqb code "KeyW".

Definition handleKeyDown (code : string) (w : World) : World :=
  if isJumpKey code then handleDown w else w.

Definition handleKeyUp (code : string) (w : World) : World :=
  if isJumpKey code then handleUp w else w.

(** *** What a run keeps *)

(** What the motion of the player is made of: the player, the input
    flags, the shake and the camera. *)
Definition sameBody (w1 w2 : World) : Prop :=
  player w1 = player w2 /\ input w1 = input w2 /\
  shake w1 = shake w2 /\ camera w1 = camera w2.

Definition sameBodyFlow (f1 f2 : Flow) : Prop :=
  match f1, f2 with
  | Continue w1, Continue w2 => sameBody w1 w2
  | Return w1, Return w2 => sameBody w1 w2
  | _, _ => False
  end.

(** The speed multipliers a speed portal installs, and the initial one. *)
Definition runSpeed (m : Q) : Prop :=
  m == 0.8 \/ m == 1 \/ m == 1.2 \/ m == 1.4.

(** Between the ticks of a run. *)
Definition steady (w : World) : Prop :=
  upright w /\ runSpeed (speedMultiplier (player w)) /\
  (-34 <= velY w /\ velY w <= 34) /\
  rests w /\
  0 <= posX w /\
  (0 <= shake w /\ shake w <= 20) /\
  (isDead (player w) = false -> shake w == 0).

(** Every spike and block of the level lies behind the hit box of the
    player. *)
Definition behind (lvl : LevelData.t) (w : World) : Prop :=
  forall o, In o (LevelData.objects lvl) ->
    isLethal (LevelObject.type o) || isBlock (LevelObject.type o) = true ->
    LevelObject.x o * TILE_SIZE + TILE_SIZE <= posX w + 10.

(** The part of [steady] that the stages of a tick pass on. *)
Definition paced (w : World) : Prop :=
  runSpeed (speedMultiplier (player w)) /\
  (-34 <= velY w /\ velY w <= 34) /\
  rests w.

Definition quake (w : World) : Prop :=
  (0 <= shake w /\ shake w <= 20) /\
  (isDead (player w) = false -> shake w == 0).

(** The player runs at no less than the slowest and no more than the
    fastest portal speed. *)
Definition brisk (w : World) : Prop :=
  0.8 <= speedMultiplier (player w) /\ speedMultiplier (player w) <= 1.4.

(** The callbacks that report the end of the level reached. *)
Definition isCompletion (e : Event) : bool :=
  match e with
  | OnWin => true
  | OnTestComplete _ None => true
  | _ => false
  end.

(** *** generateProceduralSegment *)

Section Procedural.

(** The text of a number inside a template literal. *)
Variable showNumber : Q -> string.

(** The values [Math.random ()] returns to the successive iterations of
    the loop. *)
Variable random : nat -> Q.

(** The helper [place], with [objects], [x] and [currentGravity] of the
    enclosing scope as arguments. *)
Definition place (objects : list LevelObject.t) (x currentGravity : Q)
    (type : EntityType) (offsetX offsetY rotation : Q) : list LevelObject.t :=
  let y := if currentGravity =? 1 then offsetY
           else CEILING_HEIGHT - offsetY + 1 in
  let finalRot :=
    if (currentGravity =? -1) && isLethal type
    then jsRem (rotation + 180) 360
    else rotation in
  objects ++
  [LevelObject.mk
     (String.append "p-"
        (String.append (showNumber x)
           (String.append "-" (showNumber offsetX))))
     type (x + offsetX) y (Some finalRot)].

Record Segment := mkSegment {
  placed : list LevelObject.t;
  cursor : Q;
  currentGravity : Q
}.

(** One iteration of [while (x < startX + length)], [r] being the value
    drawn. *)
Definition segmentStep (r : Q) (s : Segment) : Segment :=
  let x := cursor s in
  let g := currentGravity s in
  if r <? 0.15 then
    mkSegment (place (placed s) x g SPIKE 0 1 0) (x + 3) g
  else if r <? 0.35 then
    mkSegment (place (placed s) x g BLOCK 0 1 0) (x + 4) g
  else if r <? 0.40 then
    let o1 := place (placed s) x g BLOCK 0 1 0 in
    let o2 := place o1 x g PORTAL_GRAVITY 0 2 0 in
    mkSegment o2 (x + 10) (g * -1)
  else if r <? 0.5 then
    let o1 := place (placed s) x g BLOCK 0 1 0 in
    let o2 := place o1 x g BLOCK 1 2 0 in
    let o3 := place o2 x g BLOCK 2 3 0 in
    mkSegment o3 (x + 6) g
  else if r <? 0.55 then
    let o1 := place (placed s) x g ORB_JUMP 0 3 0 in
    let o2 := place o1 x g SPIKE 0 1 0 in
    let o3 := place o2 x g SPIKE 1 1 0 in
    mkSegment o3 (x + 5) g
  else
    mkSegment (placed s) (x + 2) g.

(** The loop, with [fuel] bounding the number of iterations; [k] counts
    the values drawn so far. *)
Fixpoint segmentLoop (fuel k : nat) (bound : Q) (s : Segment)
    : option (list LevelObject.t) :=
  if cursor s <? bound then
    match fuel with
    | O => None
    | S fuel' => segmentLoop fuel' (S k) bound (segmentStep (random k) s)
    end
  else Some (placed s).

Definition generateProceduralSegment (fuel : nat) (startX length : Q)
    : option (list LevelObject.t) :=
  segmentLoop fuel 0 (startX + length) (mkSegment [] (startX + 15) 1).

End Procedural.

(** The level the reset effect installs for a procedural run. *)
Definition proceduralLevel (objects : list LevelObject.t) : LevelData.t :=
  LevelData.mk objects 100000 CLASSIC.

(** The side of the level an object was placed for: rows 1 to 3 stand
    on the floor, rows 10 to 12 hang from the ceiling. *)
Definition onSide (g : Q) (o : LevelObject.t) : Prop :=
  (g == 1 /\ 1 <= LevelObject.y o /\ LevelObject.y o <= 3) \/
  (g == -1 /\ 10 <= LevelObject.y o /\ LevelObject.y o <= 12).

(** Scanning a list of objects from the left, gravity flipping behind
    every gravity portal: each object is on the side of the gravity
    under which it is reached. *)
Fixpoint laidOut (g : Q) (objs : list LevelObject.t) : Prop :=
  match objs with
  | [] => True
  | o :: rest =>
      onSide g o /\
      laidOut (match LevelObject.type o with
               | PORTAL_GRAVITY => g * -1
               | _ => g
               end) rest
  end.

Fixpoint gravityAfter (g : Q) (objs : list LevelObject.t) : Q :=
  match objs with
  | [] => g
  | o :: rest =>
      gravityAfter (match LevelObject.type o with
                    | PORTAL_GRAVITY => g * -1
                    | _ => g
                    end) rest
  end.

(** What the generator places. *)
Definition generated (startX length : Q) (o : LevelObject.t) : Prop :=
  (startX + 15 <= LevelObject.x o /\ LevelObject.x o < startX + length + 2) /\
  (1 <= LevelObject.y o /\ LevelObject.y o <= CEILING_HEIGHT) /\
  (LevelObject.type o = SPIKE \/ LevelObject.type o = BLOCK \/
   LevelObject.type o = PORTAL_GRAVITY \/ LevelObject.type o = ORB_JUMP) /\
  (exists r, LevelObject.rotation o = Some r /\
             (r == 0 \/ (r == 180 /\ LevelObject.type o = SPIKE))).

Fixpoint ascending (objs : list LevelObject.t) : Prop :=
  match objs with
  | a :: (b :: _) as rest => LevelObject.x a <= LevelObject.x b /\ ascending rest
  | _ => True
  end.

(** ** LevelEditor.tsx *)

(** The editor hands every change to [onUpdateLevel] as a copy of the
    level with one field replaced; the functions below give the new
    value of that field. *)

Definition Math_max (a b : Q) : Q := if a <? b then b else a.
Definition Math_min (a b : Q) : Q := if b <? a then b else a.
Definition Math_floor (a : Q) : Q := inject_Z (Qfloor a).

(** [o.x !== x || o.y !== y]: the object is not in the cell. *)
Definition offCell (x y : Q) (o : LevelObject.t) : bool :=
  negb (LevelObject.x o =? x) || negb (LevelObject.y o =? y).

(** [o.x === gridX && o.y === gridY]. *)
Definition inCell (x y : Q) (o : LevelObject.t) : bool :=
  (LevelObject.x o =? x) && (LevelObject.y o =? y).

(** [placeBlock]; [newId] is the text of [Date.now ()] and
    [Math.random ()]. *)
Definition placeBlock (selectedEntity : EntityType) (newId : string)
    (x y : Q) (objects : list LevelObject.t) : list LevelObject.t :=
  if (x <? 0) || (y <? 1) then objects
  else
    let filtered := filter (offCell x y) objects in
    let newObj := LevelObject.mk newId selectedEntity x y (Some 0) in
    filtered ++ [newObj].

(** The ERASE tool, on pointer down and on pointer move. *)
Definition erase (gridX gridY : Q) (objects : list LevelObject.t)
    : list LevelObject.t :=
  filter (offCell gridX gridY) objects.

(** The EDIT tool: the id that becomes [selectedObjectId]. *)
Definition selectAt (gridX gridY : Q) (objects : list LevelObject.t)
    : option string :=
  match find (inCell gridX gridY) objects with
  | Some obj => Some (LevelObject.id obj)
  | None => None
  end.

(** [obj.rotation || 0]. *)
Definition rotationOr0 (r : option Q) : Q :=
  match r with
  | Some v => v
  | None => 0
  end.

(** [((obj.rotation || 0) + 90) % 360]: the sum is rounded to a
    double, the remainder is exact. *)
Definition rotateObject (obj : LevelObject.t) : LevelObject.t :=
  LevelObject.mk (LevelObject.id obj) (LevelObject.type obj)
                 (LevelObject.x obj) (LevelObject.y obj)
                 (Some (jsRem (round64 (rotationOr0 (LevelObject.rotation obj) + 90))
                              360)).

(** The function [rotateSelection] maps over the objects. *)
Definition turnSelected (sel : string) (obj : LevelObject.t) : LevelObject.t :=
  if String.eqb (LevelObject.id obj) sel then rotateObject obj else obj.

(** [rotateSelection]: [!selectedObjectId] holds for [null] and for the
    empty string. *)
Definition rotateSelection (selectedObjectId : option string)
    (objects : list LevelObject.t) : list LevelObject.t :=
  match selectedObjectId with
  | None => objects
  | Some sel =>
      if String.eqb sel "" then objects
      else map (turnSelected sel) objects
  end.

(** [handleTestPlay]: the length of the level handed to the test run. *)
Definition lastObjectX (objects : list LevelObject.t) : Q :=
  fold_left (fun max obj => Math_max max (LevelObject.x obj)) objects 0.

Definition testLength (objects : list LevelObject.t) : Q :=
  let buffer := 23 in
  Math_max 50 (lastObjectX objects + buffer).

Definition handleTestPlay (level : LevelData.t) : LevelData.t :=
  LevelData.mk (LevelData.objects level)
               (testLength (LevelData.objects level))
               (LevelData.gameMode level).

(** [handleClearLevel]. *)
Definition handleClearLevel (level : LevelData.t) : LevelData.t :=
  LevelData.mk [] (LevelData.length level) (LevelData.gameMode level).

(** [getGridPos]: the result of [canvas.getBoundingClientRect ()], the
    size of the canvas and the scroll position are arguments. *)
Module DOMRect.
Record t := mk { left : Q; top : Q; width : Q; height : Q }.
End DOMRect.



(** The PAN tool, on pointer move by [(dx, dy)]. *)
Definition pan (dx dy : Q) (scroll : Q * Q) : Q * Q :=
  (Math_max 0 (fst scroll - dx * 2), snd scroll - dy * 2).

(** The number of objects in a cell. *)
Definition cellCount (x y : Q) (objects : list LevelObject.t) : nat :=
  List.length (filter (inCell x y) objects).

(** Two levels hold the same objects as far as the simulation goes:
    same types in the same cells, in the same order. *)
Definition sameObject (a b : LevelObject.t) : Prop :=
  LevelObject.type a = LevelObject.type b /\
  LevelObject.x a = LevelObject.x b /\
  LevelObject.y a = LevelObject.y b.


Definition sameLevel (a b : LevelData.t) : Prop :=
  Forall2 sameObject (LevelData.objects a) (LevelData.objects b) /\
  LevelData.length a = LevelData.length b /\
  LevelData.gameMode a = LevelData.gameMode b.

(** The level after [rotateSelection]. *)
Definition rotatedLevel (selectedObjectId : option string) (level : LevelData.t)
    : LevelData.t :=
  LevelData.mk (rotateSelection selectedObjectId (LevelData.objects level))
               (LevelData.length level) (LevelData.gameMode level).



(** ** App.tsx *)

Inductive GameState := MENU | PLAYING | EDITOR | TESTING | GAME_OVER | WON.

(** [DEFAULT_LEVEL] of constants.ts, the initial [levelData]. *)
Definition DEFAULT_LEVEL : LevelData.t :=
  LevelData.mk
    [LevelObject.mk "1" BLOCK 10 1 (Some 0);
     LevelObject.mk "2" BLOCK 11 1 (Some 0);
     LevelObject.mk "3" SPIKE 15 1 (Some 0)]
    200 CLASSIC.

(** The state of the component: one field for each [useState]. *)
Record App := mkApp {
  gameState : GameState;
  levelData : LevelData.t;
  key : Z;
  testTrail : list Vector2.t;
  deathPos : option Vector2.t
}.

Definition initialApp : App := mkApp MENU DEFAULT_LEVEL 0 [] None.

Definition setGameState (s : GameState) (app : App) : App :=
  mkApp s (levelData app) (key app) (testTrail app) (deathPos app).
Definition setLevelData (l : LevelData.t) (app : App) : App :=
  mkApp (gameState app) l (key app) (testTrail app) (deathPos app).
Definition setKey (k : Z) (app : App) : App :=
  mkApp (gameState app) (levelData app) k (testTrail app) (deathPos app).
Definition setTestTrail (t : list Vector2.t) (app : App) : App :=
  mkApp (gameState app) (levelData app) (key app) t (deathPos app).
Definition setDeathPos (d : option Vector2.t) (app : App) : App :=
  mkApp (gameState app) (levelData app) (key app) (testTrail app) d.

Definition startProcedural (app : App) : App :=
  setKey (key app + 1) (setGameState PLAYING app).

Definition startEditorTest (app : App) : App :=
  setKey (key app + 1)
    (setGameState TESTING (setDeathPos None (setTestTrail [] app))).

Definition retry (targetState : GameState) (app : App) : App :=
  setKey (key app + 1) (setGameState targetState app).

Definition isPlaying (s : GameState) : bool :=
  match s with PLAYING => true | _ => false end.
Definition isTesting (s : GameState) : bool :=
  match s with TESTING => true | _ => false end.

(** The callbacks handed to [GameRunner] are closures of one render:
    the [gameState] they test is the one of that render, [rendered]. *)
Definition handleDie (rendered : GameState) (app : App) : App :=
  if isPlaying rendered then setGameState GAME_OVER app else app.

Definition handleWin (rendered : GameState) (app : App) : App :=
  if isPlaying rendered then setGameState WON app else app.

Definition handleTestComplete (trail : list Vector2.t)
    (deathPosition : option Vector2.t) (app : App) : App :=
  setGameState EDITOR (setDeathPos deathPosition (setTestTrail trail app)).

(** [GameRunner] is rendered in the states PLAYING and TESTING, with
    these props. *)
Definition runnerProps (s : GameState) : option Props :=
  match s with
  | PLAYING | TESTING => Some (mkProps (isPlaying s) (isTesting s) true)
  | _ => None
  end.

(** The controls of the page. *)
Inductive UserAction :=
| ClickPlay                               (* MENU: PLAY *)
| ClickEditor                             (* MENU: EDITOR *)
| ClickRetry                              (* GAME_OVER: Retry Procedural *)
| ClickMenu                               (* GAME_OVER, WON: Menu *)
| ClickExit                               (* PLAYING, TESTING: EXIT *)
| EditorUpdateLevel (level : LevelData.t) (* EDITOR: onUpdateLevel *)
| EditorPlay                              (* EDITOR: onPlay *)
| EditorExit.                             (* EDITOR: onExit *)

(** Whether the control is on the page in a state. *)
Definition offered (s : GameState) (a : UserAction) : bool :=
  match s, a with
  | MENU, (ClickPlay | ClickEditor) => true
  | GAME_OVER, (ClickRetry | ClickMenu) => true
  | WON, ClickMenu => true
  | (PLAYING | TESTING), ClickExit => true
  | EDITOR, (EditorUpdateLevel _ | EditorPlay | EditorExit) => true
  | _, _ => false
  end.

Definition act (a : UserAction) (app : App) : App :=
  match a with
  | ClickPlay => startProcedural app
  | ClickEditor => setGameState EDITOR app
  | ClickRetry => retry PLAYING app
  | ClickMenu => setGameState MENU app
  | ClickExit => setGameState MENU app
  | EditorUpdateLevel level => setLevelData level app
  | EditorPlay => startEditorTest app
  | EditorExit => setGameState MENU app
  end.

(** What one logged effect of the runner does to the page. *)
Definition deliver (rendered : GameState) (app : App) (e : Event) : App :=
  match e with
  | OnDie => handleDie rendered app
  | OnWin => handleWin rendered app
  | OnTestComplete trail deathPosition =>
      handleTestComplete trail deathPosition app
  | SpawnParticles _ _ _ _ _ => app
  end.

(** One animation frame of the mounted runner, seen from the page: the
    effects the frame logs are delivered in order. *)
Definition runnerFrame (props : Props) (lvl : LevelData.t) (w : World)
    (evs : list InputEvent) (app : App) : App :=
  let w1 := fold_left handleInput evs w in
  fold_left (deliver (gameState app)) (since w1 (update props lvl w1)) app.

(** The pages that can be reached: by the controls on the page, and by
    frames of the runner while it is mounted (over any level, from any
    state of its refs). *)
Inductive reachable : App -> Prop :=
| reach_initial : reachable initialApp
| reach_act (a : UserAction) (app : App) :
    reachable app -> offered (gameState app) a = true ->
    reachable (act a app)
| reach_frame (props : Props) (lvl : LevelData.t) (w : World)
    (evs : list InputEvent) (app : App) :
    reachable app -> runnerProps (gameState app) = Some props ->
    reachable (runnerFrame props lvl w evs app).

(** ** What [draw] shows *)

(** The "UI" part of [draw] in GameRunner.tsx. *)
Definition progress (lvl : LevelData.t) (w : World) : Q :=
  Math_min 100
    (Math_max 0 (posX w / (LevelData.length lvl * TILE_SIZE) * 100)).

(** The number in front of the percent sign. *)
Definition progressPercent (lvl : LevelData.t) (w : World) : Q :=
  Math_floor (progress lvl w).

(** The number behind [SCORE:] in a procedural run. *)
Definition score (w : World) : Q := Math_floor (posX w / 100).

(** The bar and its background. *)
Definition progressTrack : Rect.t := Rect.mk 20 50 200 10.
Definition progressBar (lvl : LevelData.t) (w : World) : Rect.t :=
  Rect.mk 20 50 (2 * progress lvl w) 10.

(** The outlines drawn with [showHitboxes]. *)
Inductive Outline :=
| StrokeRect (strokeStyle : string) (r : Rect.t)
| StrokeArc (strokeStyle : string) (cx cy radius : Q).

(** In [draw] of GameRunner.tsx. *)
Definition runnerOutline (obj : LevelObject.t) : option Outline :=
  let x := LevelObject.x obj * TILE_SIZE in
  let y := - LevelObject.y obj * TILE_SIZE in
  match LevelObject.type obj with
  | BLOCK => Some (StrokeRect "red" (Rect.mk x y TILE_SIZE TILE_SIZE))
  | SPIKE =>
      Some (StrokeRect "red"
              (Rect.mk (x + 14) (y + 14) (TILE_SIZE - 28) (TILE_SIZE - 28)))
  | HALF_SPIKE =>
      Some (StrokeRect "red"
              (Rect.mk (x + 14) (y + 28) (TILE_SIZE - 28) (TILE_SIZE - 28)))
  | ORB_JUMP | ORB_GRAVITY | ORB_JUMP_PURPLE | ORB_JUMP_RED =>
      Some (StrokeArc "yellow" (x + TILE_SIZE / 2) (y + TILE_SIZE / 2) 32)
  | PORTAL_GRAVITY | PORTAL_SPEED_SLOW | PORTAL_SPEED_NORMAL
  | PORTAL_SPEED_FAST | PORTAL_SPEED_VERY_FAST =>
      let portalTop := y - (PORTAL_HEIGHT_BLOCKS - 1) * TILE_SIZE in
      let portalH := PORTAL_HEIGHT_BLOCKS * TILE_SIZE in
      Some (StrokeRect "red" (Rect.mk (x + 15) portalTop 18 portalH))
  | _ => None
  end.

(** In the drawing effect of LevelEditor.tsx. *)
Definition editorOutline (obj : LevelObject.t) : option Outline :=
  let x := LevelObject.x obj * TILE_SIZE in
  let y := - LevelObject.y obj * TILE_SIZE in
  match LevelObject.type obj with
  | BLOCK => Some (StrokeRect "red" (Rect.mk x y TILE_SIZE TILE_SIZE))
  | SPIKE =>
      Some (StrokeRect "red"
              (Rect.mk (x + 14) (y + 14) (TILE_SIZE - 28) (TILE_SIZE - 28)))
  | HALF_SPIKE =>
      Some (StrokeRect "red"
              (Rect.mk (x + 14) (y + 28) (TILE_SIZE - 28) (TILE_SIZE - 28)))
  | ORB_JUMP | ORB_JUMP_PURPLE | ORB_JUMP_RED | ORB_GRAVITY =>
      Some (StrokeArc "yellow" (x + TILE_SIZE / 2) (y + TILE_SIZE / 2) 32)
  | PORTAL_GRAVITY | PORTAL_SPEED_SLOW | PORTAL_SPEED_NORMAL
  | PORTAL_SPEED_FAST | PORTAL_SPEED_VERY_FAST =>
      let portalTop := y - (PORTAL_HEIGHT_BLOCKS - 1) * TILE_SIZE in
      let portalH := PORTAL_HEIGHT_BLOCKS * TILE_SIZE in
      Some (StrokeRect "red" (Rect.mk (x + 15) portalTop 18 portalH))
  | _ => None
  end.

(** Both drawing loops turn the context about the centre of the tile
    before they draw an object, [if (obj.rotation) ctx.rotate (...)]:
    the angle in degrees, none for a missing rotation and for 0. *)
Definition drawTurn (obj : LevelObject.t) : option Q :=
  match LevelObject.rotation obj with
  | Some r => if r =? 0 then None else Some r
  | None => None
  end.

(** What is stroked for an object with [showHitboxes]: the turn of the
    context and, in the turned frame, the outline. *)
Definition runnerHitbox (obj : LevelObject.t) : option Q * option Outline :=
  (drawTurn obj, runnerOutline obj).

Definition editorHitbox (obj : LevelObject.t) : option Q * option Outline :=
  (drawTurn obj, editorOutline obj).

(** The region of an object that [update] tests, as an outline. *)
Definition testedRegion (obj : LevelObject.t) : option Outline :=
  let t := LevelObject.type obj in
  if isOrb t then Some (StrokeArc "yellow" (centerX obj) (centerY obj) orbRadius)
  else if isPortal t then Some (StrokeRect "red" (portalRect obj))
  else if isLethal t || isBlock t then Some (StrokeRect "red" (hitBox obj))
  else None.

(** ** The arc of a jump *)

(** In flight, [k] ticks after the take-off from the floor at [x0] with
    speed multiplier [m]. *)
Definition inFlight (x0 m : Q) (k : nat) (u : World) : Prop :=
  let t := inject_Z (Z.of_nat k) in
  isDead (player u) = false /\
  gravityScale (player u) == 1 /\
  isGrounded (player u) = false /\
  velY u == 2 * t - 26 /\
  posY u == - t * (25 - t) /\
  posX u == x0 + t * MOVE_SPEED * m /\
  speedMultiplier (player u) = m.

(** ** The recorded trail *)

(** The points of a trail go from left to right. *)
Fixpoint leftToRight (trail : list Vector2.t) : Prop :=
  match trail with
  | a :: (b :: _) as rest => Vector2.x a <= Vector2.x b /\ leftToRight rest
  | _ => True
  end.

(** What a run keeps of its recorded trail. *)
Definition trailKept (props : Props) (n : nat) (w : World) : Prop :=
  (isTestMode props = false -> recordedTrail w = []) /\
  leftToRight (recordedTrail w) /\
  Forall (fun p => 0 <= Vector2.x p /\ Vector2.x p <= posX w) (recordedTrail w) /\
  (List.length (recordedTrail w) <= n)%nat.

(** ** What the induction over a run or a loop carries along *)

(** Either a callback was invoked, or the player lives, has come at
    least [7.2 n] far, and is not past the end. *)
Definition underway (lvl : LevelData.t) (n : nat) (w : World) : Prop :=
  callbacks (emitted w) <> [] \/
  (isDead (player w) = false /\ brisk w /\
   7.2 * inject_Z (Z.of_nat n) <= posX w /\
   posX w <= LevelData.length lvl * TILE_SIZE).

(** After [n] frames the player has come at most [12.6 n] far and no
    completion was reported. *)
Definition early (n : nat) (w : World) : Prop :=
  posX w <= 12.6 * inject_Z (Z.of_nat n) /\ brisk w /\
  countIf isCompletion (emitted w) = 0%nat.

(** What a tick keeps once the obstacles are behind. *)
Definition passed (lvl : LevelData.t) (w : World) : Prop :=
  isDead (player w) = false /\ 0 < speedMultiplier (player w) /\ behind lvl w.

(** While the generator loops: gravity is one of the two signs, the
    cursor is past the free start, and what is placed is as [generated]
    says. *)
Definition placedWell (startX length : Q) (s : Segment) : Prop :=
  (currentGravity s == 1 \/ currentGravity s == -1) /\
  startX + 15 <= cursor s /\
  Forall (generated startX length) (placed s).

(** What is placed is in ascending order and not beyond the cursor. *)
Definition inOrder (s : Segment) : Prop :=
  ascending (placed s) /\
  forall a, In a (placed s) -> LevelObject.x a <= cursor s.

(** What is placed follows the gravity the generator tracks. *)
Definition sided (s : Segment) : Prop :=
  (currentGravity s == 1 \/ currentGravity s == -1) /\
  laidOut 1 (placed s) /\
  gravityAfter 1 (placed s) == currentGravity s.

(** ** Concrete inputs of the further properties *)

(** A living player that has run past [spikeAt2]. *)
Definition pastSpike : World :=
  upd_player (set_position_x 200) initialWorld.

(** The props of a procedural run, as the page passes them. *)
Definition proceduralProps : Props := mkProps true false true.

(** The text of an integer. *)
Definition showInteger (a : Q) : string :=
  NilZero.string_of_int (Z.to_int (Qfloor a)).

(** Draws that go through the five patterns of the generator and the
    gap, in turn. *)
Definition sampleRandom (k : nat) : Q :=
  nth (k mod 6) [0.1; 0.2; 0.37; 0.45; 0.52; 0.9] 0.9.

(** The segment generated from these draws for [startX = 0] and
    [length = 50]. *)
Definition sampleSegment : list LevelObject.t :=
  match generateProceduralSegment showInteger sampleRandom 20 0 50 with
  | Some objs => objs
  | None => []
  end.

(** A living player beyond that segment. *)
Definition pastSegment : World :=
  upd_player (set_position_x 2600) initialWorld.



(** * Properties *)

(** ** Comparisons *)

Lemma Qltb_spec (a b : Q) : reflect (a < b) (a <? b).
Proof.
  unfold Qltb. destruct (Qle_bool b a) eqn:E; simpl; constructor.
  - apply Qle_bool_iff in E. lra.
  - apply Qnot_le_lt. intro H. apply Qle_bool_iff in H. congruence.
Qed.

Lemma Qleb_spec (a b : Q) : reflect (a <= b) (a <=? b).
Proof.
  destruct (Qle_bool a b) eqn:E; constructor.
  - now apply Qle_bool_iff.
  - intro H. apply Qle_bool_iff in H. congruence.
Qed.

Lemma Qeqb_spec (a b : Q) : reflect (a == b) (a =? b).
Proof.
  destruct (Qeq_bool a b) eqn:E; constructor.
  - now apply Qeq_bool_iff.
  - intro H. apply Qeq_bool_iff in H. congruence.
Qed.

Lemma Qltb_true (a b : Q) : (a <? b) = true <-> a < b.
Proof. destruct (Qltb_spec a b); split; intros; auto; try discriminate; lra. Qed.

Lemma Qltb_false (a b : Q) : (a <? b) = false <-> b <= a.
Proof. destruct (Qltb_spec a b); split; intros; auto; try discriminate; lra. Qed.

Lemma Qleb_true (a b : Q) : (a <=? b) = true <-> a <= b.
Proof. apply Qle_bool_iff. Qed.

Lemma Qleb_false (a b : Q) : (a <=? b) = false <-> b < a.
Proof. destruct (Qleb_spec a b); split; intros; auto; try discriminate; lra. Qed.

Lemma Qeqb_true (a b : Q) : (a =? b) = true <-> a == b.
Proof. apply Qeq_bool_iff. Qed.

Lemma Qeqb_false (a b : Q) : (a =? b) = false <-> ~ a == b.
Proof. destruct (Qeqb_spec a b); split; intros; auto; try discriminate; tauto. Qed.

(** Turns the boolean tests among the hypotheses into propositions. *)
Ltac qprop :=
  repeat match goal with
  | H : (_ && _) = true |- _ => apply andb_true_iff in H; destruct H
  | H : (_ || _) = false |- _ => apply orb_false_iff in H; destruct H
  | H : negb _ = true |- _ => apply negb_true_iff in H
  | H : negb _ = false |- _ => apply negb_false_iff in H
  | H : (_ <? _) = true |- _ => apply Qltb_true in H
  | H : (_ <? _) = false |- _ => apply Qltb_false in H
  | H : (_ <=? _) = true |- _ => apply Qleb_true in H
  | H : (_ <=? _) = false |- _ => apply Qleb_false in H
  | H : (_ =? _) = true |- _ => apply Qeqb_true in H
  | H : (_ =? _) = false |- _ => apply Qeqb_false in H
  end.

Lemma checkCollision_true (r1 r2 : Rect.t) :
  checkCollision r1 r2 = true <->
  Rect.x r1 < Rect.x r2 + Rect.w r2 /\ Rect.x r2 < Rect.x r1 + Rect.w r1 /\
  Rect.y r1 < Rect.y r2 + Rect.h r2 /\ Rect.y r2 < Rect.y r1 + Rect.h r1.
Proof.
  unfold checkCollision. rewrite !andb_true_iff, !Qltb_true. tauto.
Qed.

(** ** Opening a world *)

Ltac open_worlds :=
  repeat match goal with
  | w : World |- _ =>
      destruct w as [[[? ?] [? ?] ? ? ? ? ? ? ?] [? ?] ? ? ? ? ?]
  end.

Ltac open_world w :=
  destruct w as [[[? ?] [? ?] ? ? ? ? ? ? ?] [? ?] ? ? ? ? ?].

Ltac qcase :=
  match goal with
  | |- context [?a <? ?b] => destruct (Qltb_spec a b)
  | |- context [?a <=? ?b] => destruct (Qleb_spec a b)
  | |- context [?a =? ?b] => destruct (Qeqb_spec a b)
  end.

Ltac boolcase :=
  match goal with
  | |- context [if ?c then _ else _] =>
      match c with
      | context [?v] =>
          is_var v;
          match type of v with bool => destruct v end
      end
  end.

Ltac sim_unfold :=
  unfold posX, posY, velX, velY, upd_player,
    set_position_x, set_position_y, set_velocity_x, set_velocity_y,
    CEILING_HEIGHT, TILE_SIZE, GRAVITY, JUMP_FORCE, MOVE_SPEED,
    TERMINAL_VELOCITY in *;
  cbn [player input position velocity isGrounded isDead rotation gravityScale
       canOrbJump speedMultiplier lastPortalX Vector2.x Vector2.y
       set_player set_input set_position set_velocity set_isGrounded
       set_isDead set_rotation set_gravityScale set_canOrbJump
       set_speedMultiplier set_lastPortalX emit set_shake set_camera
       set_time set_recordedTrail jump jumpPressedThisFrame
       orbEffect speedPortal gravityMult] in *.

Ltac sim_cases :=
  repeat (first
    [ qcase
    | boolcase
    | match goal with
      | |- context [if ?b then _ else _] => destruct b
      end ];
    cbn [andb orb negb] in *; sim_unfold).

(** ** What the stages leave alone *)

Lemma player_tickStart (w : World) : player (tickStart w) = player w.
Proof.
  unfold tickStart, decayShake.
  repeat match goal with |- context [if ?b then _ else _] => destruct b end;
  reflexivity.
Qed.

Lemma input_tickStart (w : World) : input (tickStart w) = input w.
Proof.
  unfold tickStart, decayShake.
  repeat match goal with |- context [if ?b then _ else _] => destruct b end;
  reflexivity.
Qed.

Lemma emitted_tickStart (w : World) : emitted (tickStart w) = emitted w.
Proof.
  unfold tickStart, decayShake.
  repeat match goal with |- context [if ?b then _ else _] => destruct b end;
  reflexivity.
Qed.

Lemma recordedTrail_tickStart (w : World) :
  recordedTrail (tickStart w) = recordedTrail w.
Proof.
  unfold tickStart, decayShake.
  repeat match goal with |- context [if ?b then _ else _] => destruct b end;
  reflexivity.
Qed.

Lemma update_dead (props : Props) (lvl : LevelData.t) (w : World) :
  isDead (player w) = true ->
  update props lvl w =
  emit (SpawnParticles (posX (tickStart w) + 24) (posY (tickStart w) - 24) 5
          COLOR_PLAYER 0.5) (tickStart w).
Proof.
  intro H. unfold update. cbv zeta. now rewrite player_tickStart, H.
Qed.

Lemma update_alive (props : Props) (lvl : LevelData.t) (w : World) :
  isDead (player w) = false ->
  update props lvl w = simulate props lvl (tickStart w).
Proof.
  intro H. unfold update. cbv zeta. now rewrite player_tickStart, H.
Qed.

(** ** C9 *)

(** C9. [isDead] is terminal for the simulation: once it is set, no
    number of further calls of [update] changes any field of the player
    (position, velocity and the rest alike). *)
Theorem dead_player_is_frozen (props : Props) (lvl : LevelData.t) (w : World) :
  isDead (player w) = true ->
  forall n : nat, player (ticks props lvl n w) = player w.
Proof.
  intros H n. induction n as [|n IH]; [reflexivity|].
  unfold ticks in *. simpl.
  rewrite update_dead by (rewrite IH; exact H).
  simpl. now rewrite player_tickStart.
Qed.

Lemma dead_player_is_frozen_witness :
  player (ticks playProps noObject 3 deadWorld) = player deadWorld.
Proof.
  apply (dead_player_is_frozen playProps noObject deadWorld); reflexivity.
Defined.

(** ** The loop over the level objects *)

Lemma collide_app (props : Props) (ctx : TickCtx) (pre post : list LevelObject.t)
    (w : World) :
  collide props ctx (pre ++ post) w =
  match collide props ctx pre w with
  | Continue w' => collide props ctx post w'
  | Return w' => Return w'
  end.
Proof.
  revert w. induction pre as [|o pre IH]; intro w; simpl; [reflexivity|].
  destruct (collideObject props ctx o w); [apply IH | reflexivity].
Qed.

(** When the loop reaches object [o] in world [wi], what [o] does
    decides how the loop goes on. *)
Lemma collide_reach (props : Props) (ctx : TickCtx)
    (pre post : list LevelObject.t) (o : LevelObject.t) (w wi : World) :
  collide props ctx pre w = Continue wi ->
  collide props ctx (pre ++ o :: post) w =
  match collideObject props ctx o wi with
  | Continue w' => collide props ctx post w'
  | Return w' => Return w'
  end.
Proof. intro H. rewrite collide_app, H. reflexivity. Qed.

Ltac split_ifs :=
  repeat match goal with
  | |- context [if ?b then _ else _] => destruct b eqn:?
  | |- context [match ?x with _ => _ end] => destruct x eqn:?
  end.

Lemma isDead_reportDeath (props : Props) (w : World) :
  isDead (player (reportDeath props w)) = isDead (player w).
Proof. unfold reportDeath. split_ifs; reflexivity. Qed.

Lemma isDead_crash (props : Props) (w : World) :
  isDead (player (crash props w)) = true.
Proof. unfold crash. rewrite isDead_reportDeath. reflexivity. Qed.

Lemma isDead_orbEffect (ctx : TickCtx) (t : EntityType) (p : Player) :
  isDead (orbEffect ctx t p) = isDead p.
Proof. destruct t; reflexivity. Qed.

Lemma isDead_handleOrb (ctx : TickCtx) (o : LevelObject.t) (w : World) :
  isDead (player (handleOrb ctx o w)) = isDead (player w).
Proof.
  unfold handleOrb. split_ifs; simpl; [rewrite isDead_orbEffect|]; reflexivity.
Qed.

Lemma isDead_handlePortal (ctx : TickCtx) (o : LevelObject.t) (w : World) :
  isDead (player (handlePortal ctx o w)) = isDead (player w).
Proof.
  unfold handlePortal, gravityPortal, speedPortal.
  split_ifs; reflexivity.
Qed.

(** An object that lets the loop go on leaves the player alive if it
    was; one that leaves [update] leaves a dead player. *)
Lemma collideObject_isDead (props : Props) (ctx : TickCtx) (o : LevelObject.t)
    (w : World) :
  match collideObject props ctx o w with
  | Continue w' => isDead (player w') = isDead (player w)
  | Return w' => isDead (player w') = true
  end.
Proof.
  unfold collideObject.
  destruct (isOrb (LevelObject.type o)); [apply isDead_handleOrb|].
  destruct (isPortal (LevelObject.type o)); [apply isDead_handlePortal|].
  unfold handleSolid, handleBlock.
  split_ifs; simpl; try reflexivity; try apply isDead_crash;
    repeat match goal with H : (_, _) = (_, _) |- _ => inversion H; clear H; subst end;
    simpl; try reflexivity; try discriminate.
Qed.

Lemma collide_isDead (props : Props) (ctx : TickCtx) (objs : list LevelObject.t)
    (w : World) :
  match collide props ctx objs w with
  | Continue w' => isDead (player w') = isDead (player w)
  | Return w' => isDead (player w') = true
  end.
Proof.
  revert w. induction objs as [|o objs IH]; intro w; simpl; [reflexivity|].
  pose proof (collideObject_isDead props ctx o w) as Ho.
  destruct (collideObject props ctx o w) as [w1|w1]; [|exact Ho].
  specialize (IH w1). destruct (collide props ctx objs w1); congruence.
Qed.

(** ** What follows the loop *)

Lemma player_winCheck (props : Props) (lvl : LevelData.t) (w : World) :
  player (winCheck props lvl w) = player w.
Proof. unfold winCheck. split_ifs; reflexivity. Qed.

Lemma input_winCheck (props : Props) (lvl : LevelData.t) (w : World) :
  input (winCheck props lvl w) = input w.
Proof. unfold winCheck. split_ifs; reflexivity. Qed.

Lemma player_updateCamera (lvl : LevelData.t) (w : World) :
  player (updateCamera lvl w) = player w.
Proof. unfold updateCamera. split_ifs; reflexivity. Qed.

Lemma input_updateCamera (lvl : LevelData.t) (w : World) :
  input (updateCamera lvl w) = input w.
Proof. unfold updateCamera. split_ifs; reflexivity. Qed.

Lemma player_afterCollisions (props : Props) (lvl : LevelData.t) (g : Q)
    (w : World) :
  player (afterCollisions props lvl g w) = player (floorCeiling props lvl g w).
Proof.
  unfold afterCollisions.
  now rewrite player_winCheck, player_updateCamera.
Qed.

Lemma pressed_afterCollisions (props : Props) (lvl : LevelData.t) (g : Q)
    (w : World) :
  jumpPressedThisFrame (input (afterCollisions props lvl g w)) = false.
Proof.
  unfold afterCollisions.
  now rewrite input_winCheck, input_updateCamera.
Qed.

(** ** C6 *)

(** C6, counterexample.  From the start of a run the jump control is
    pressed; the player jumps into a half spike on that very frame and
    [update] returns from inside the loop: the player was alive at the
    start of the tick and the one-shot flag is still set at its end. *)
Lemma pressed_flag_survives_crash :
  isDead (player (handleDown initialWorld)) = false /\
  isDead (player (update playProps halfSpikeLevel (handleDown initialWorld))) = true /\
  jumpPressedThisFrame
    (input (update playProps halfSpikeLevel (handleDown initialWorld))) = true.
Proof. vm_compute. repeat split. Qed.

(** C6, as amended.  A call of [update] on a living player that does not
    leave from inside the object loop (no death on a spike or against a
    block) ends with the one-shot flag [jumpPressedThisFrame] cleared:
    this covers the ticks without a terminal event, the winning ticks
    and the out-of-bounds deaths of FREE mode. *)
Theorem pressed_flag_cleared (props : Props) (lvl : LevelData.t) (w : World) :
  isDead (player w) = false ->
  crashes props lvl w = false ->
  jumpPressedThisFrame (input (update props lvl w)) = false.
Proof.
  intros Halive Hloop.
  rewrite update_alive by exact Halive.
  unfold crashes in Hloop. unfold simulate.
  destruct (runLoop props lvl (tickStart w)); [|discriminate].
  apply pressed_afterCollisions.
Qed.

Lemma pressed_flag_cleared_witness :
  jumpPressedThisFrame
    (input (update playProps noObject (handleDown initialWorld))) = false.
Proof.
  apply (pressed_flag_cleared playProps noObject (handleDown initialWorld));
    vm_compute; reflexivity.
Defined.

(** ** The stages before the loop *)

Lemma player_recordTrail (props : Props) (w : World) :
  player (recordTrail props w) = player w.
Proof. unfold recordTrail. split_ifs; reflexivity. Qed.

Lemma input_recordTrail (props : Props) (w : World) :
  input (recordTrail props w) = input w.
Proof. unfold recordTrail. split_ifs; reflexivity. Qed.

Lemma isDead_stabilityCheck (lvl : LevelData.t) (g : Q) (w : World) :
  isDead (player (stabilityCheck lvl g w)) = isDead (player w).
Proof. unfold stabilityCheck. split_ifs; reflexivity. Qed.

Lemma isDead_physics (g : Q) (w : World) :
  isDead (player (physics g w)) = isDead (player w).
Proof.
  unfold physics, rotate, advanceX, clampVelocity, groundJump, applySpeed,
    applyGravity.
  split_ifs; reflexivity.
Qed.

Lemma isDead_loopEntry (props : Props) (lvl : LevelData.t) (w : World) :
  isDead (player (loopEntry props lvl w)) = isDead (player w).
Proof.
  unfold loopEntry, beforeLoop, advanceY. simpl.
  now rewrite isDead_physics, isDead_stabilityCheck, player_recordTrail.
Qed.

(** The loop, when it lets [update] go on, hands over a living player. *)
Lemma runLoop_alive (props : Props) (lvl : LevelData.t) (w w' : World) :
  isDead (player w) = false ->
  runLoop props lvl w = Continue w' ->
  isDead (player w') = false.
Proof.
  intros Ha Hl. unfold runLoop in Hl.
  pose proof (collide_isDead props (loopCtx props lvl w) (LevelData.objects lvl)
                (loopEntry props lvl w)) as H.
  rewrite Hl in H. rewrite H, isDead_loopEntry. exact Ha.
Qed.

Lemma runLoop_dead (props : Props) (lvl : LevelData.t) (w w' : World) :
  runLoop props lvl w = Return w' ->
  isDead (player w') = true.
Proof.
  intro Hl. unfold runLoop in Hl.
  pose proof (collide_isDead props (loopCtx props lvl w) (LevelData.objects lvl)
                (loopEntry props lvl w)) as H.
  now rewrite Hl in H.
Qed.

(** ** C2 *)

(** C2, counterexample.  In FREE mode three players outside the band
    are alive after the next call of [update]: under normal gravity at
    [y = 1001] (the floor clamp applies, the band is not consulted);
    under inverted gravity at [y = 1001], at rest (the tick moves the
    player to [y = 999] before the band is tested); under inverted
    gravity at [y = -3001] with vertical velocity 30 (moved to
    [y = -2973]). *)
Lemma out_of_band_players_survive :
  (posY below1001 == 1001 /\
   isDead (player (update playProps freeLevel below1001)) = false) /\
  (posY inverted1001 == 1001 /\
   isDead (player (update playProps freeLevel inverted1001)) = false) /\
  (posY inverted3001 == -3001 /\
   isDead (player (update playProps freeLevel inverted3001)) = false).
Proof. vm_compute. repeat split; intro; discriminate. Qed.

(** C2, as amended.  In FREE mode, for a living player whose gravity is
    inverted at the start of the tick: if the vertical position that
    the tick produces (after the motion of the tick and the landing on
    blocks) lies outside the band, [y < -3000] or [y > 1000], then the
    tick marks the player dead, whatever the velocity and the grounded
    flag were. *)
Theorem free_mode_out_of_bounds (props : Props) (lvl : LevelData.t) (w : World) :
  LevelData.gameMode lvl = FREE ->
  isDead (player w) = false ->
  ~ gravityScale (player w) == 1 ->
  posY (update props lvl w) < -3000 \/ posY (update props lvl w) > 1000 ->
  isDead (player (update props lvl w)) = true.
Proof.
  intros Hfree Halive Hg.
  rewrite update_alive by exact Halive.
  unfold simulate.
  destruct (runLoop props lvl (tickStart w)) as [w1|w1] eqn:Hl.
  - intro Hout. unfold posY in Hout.
    rewrite player_afterCollisions in *.
    apply runLoop_alive in Hl; [|now rewrite player_tickStart].
    rewrite player_tickStart in *.
    unfold floorCeiling in *. rewrite Hl, Hfree in *. simpl negb in *. cbv iota in *.
    destruct (Qeqb_spec (gravityScale (player w)) 1) as [E|_]; [contradiction|].
    destruct ((posY w1 <? -3000) || (posY w1 >? 1000)) eqn:Hband.
    + now rewrite isDead_reportDeath.
    + exfalso. qprop. unfold posY in *. lra.
  - intros _. now apply runLoop_dead in Hl.
Qed.

Lemma free_mode_out_of_bounds_witness :
  isDead (player (update playProps freeLevel lost3001)) = true.
Proof.
  apply (free_mode_out_of_bounds playProps freeLevel lost3001).
  - reflexivity.
  - reflexivity.
  - vm_compute. intro; discriminate.
  - left. vm_compute. reflexivity.
Defined.

(** ** C10 *)

(** C10.  The lethal box of a HALF_SPIKE at tile [(x, y)] is the
    rectangle with top-left corner [(48 x + 14, -48 y + 28)], width 20
    and height 20.  Whenever the loop of a tick reaches such an object
    (the player was alive at the start of the tick and no earlier
    object ended the tick), the object kills the player exactly when
    the inset hit box of the player (the tile of the player at its
    position on entry to the loop, inset by 10px on every side)
    overlaps that rectangle; on a kill [update] ends there with a dead player,
    otherwise the object changes nothing. *)
Theorem half_spike_lethal_box (props : Props) (lvl : LevelData.t) (w : World)
    (pre post : list LevelObject.t) (o : LevelObject.t) (wi : World) :
  isDead (player w) = false ->
  LevelData.objects lvl = pre ++ o :: post ->
  LevelObject.type o = HALF_SPIKE ->
  collide props (loopCtx props lvl (tickStart w)) pre
          (loopEntry props lvl (tickStart w)) = Continue wi ->
  let ctx := loopCtx props lvl (tickStart w) in
  let box := Rect.mk (48 * LevelObject.x o + 14) (-48 * LevelObject.y o + 28)
                     20 20 in
  let entry := loopEntry props lvl (tickStart w) in
  pRect ctx = Rect.mk (posX entry + 10) (posY entry - TILE_SIZE + 10)
                      (TILE_SIZE - 20) (TILE_SIZE - 20) /\
  collideObject props ctx o wi =
    (if checkCollision (pRect ctx) box
     then Return (crash props wi) else Continue wi) /\
  (checkCollision (pRect ctx) box = true ->
   update props lvl w = crash props wi /\
   isDead (player (update props lvl w)) = true).
Proof.
  intros Halive Hobjs Htype Hpre ctx box entry.
  split; [reflexivity|].
  assert (Hbox : checkCollision (pRect ctx) (hitBox o) =
                 checkCollision (pRect ctx) box).
  { apply eq_true_iff_eq. rewrite !checkCollision_true.
    unfold hitBox, box. rewrite Htype. unfold TILE_SIZE. simpl. lra. }
  assert (Hobj : collideObject props ctx o wi =
                 if checkCollision (pRect ctx) box
                 then Return (crash props wi) else Continue wi).
  { unfold collideObject, handleSolid. rewrite Htype, Hbox. simpl.
    reflexivity. }
  split; [exact Hobj|].
  intro Hhit.
  assert (Hup : update props lvl w = crash props wi).
  { rewrite update_alive by exact Halive.
    unfold simulate, runLoop. rewrite Hobjs.
    rewrite (collide_reach _ _ _ _ _ _ _ Hpre).
    fold ctx. rewrite Hobj, Hhit. reflexivity. }
  split; [exact Hup|]. rewrite Hup. apply isDead_crash.
Qed.

Lemma half_spike_lethal_box_witness :
  update playProps halfSpikeLevel (handleDown initialWorld) =
  crash playProps (loopEntry playProps halfSpikeLevel
                     (tickStart (handleDown initialWorld))).
Proof.
  refine (proj1 (proj2 (proj2 (half_spike_lethal_box playProps halfSpikeLevel
            (handleDown initialWorld) [] [] halfSpikeAbove _
            eq_refl eq_refl eq_refl eq_refl)) _)).
  vm_compute. reflexivity.
Defined.

(** ** What every run maintains *)

Lemma forward_sane (w : World) : forward w -> sane w.
Proof. unfold forward, sane. intuition lra. Qed.

Lemma sane_same_player (w w' : World) :
  player w' = player w -> sane w -> sane w'.
Proof. unfold sane, posX. intros ->. auto. Qed.

Lemma forward_same_x (w w' : World) :
  position (player w') = position (player w) \/
  Vector2.x (position (player w')) = Vector2.x (position (player w)) ->
  speedMultiplier (player w') = speedMultiplier (player w) ->
  lastPortalX (player w') = lastPortalX (player w) ->
  forward w -> forward w'.
Proof.
  unfold forward, posX. intros Hx -> ->.
  destruct Hx as [-> | ->]; auto.
Qed.

Lemma forward_orbEffect (ctx : TickCtx) (t : EntityType) (w : World) :
  forward w -> forward (upd_player (orbEffect ctx t) w).
Proof. apply forward_same_x; [left|..]; destruct t; reflexivity. Qed.

Lemma forward_handleOrb (ctx : TickCtx) (o : LevelObject.t) (w : World) :
  forward w -> forward (handleOrb ctx o w).
Proof.
  intro H. unfold handleOrb. split_ifs; [|exact H].
  apply forward_orbEffect. revert H. apply forward_same_x; auto.
Qed.

Lemma forward_speedPortal (t : EntityType) (w : World) :
  forward w -> forward (upd_player (speedPortal t) w).
Proof.
  unfold forward, posX. intros (Hx & Hs & Hl).
  destruct t; simpl; repeat split; auto; reflexivity.
Qed.

Lemma forward_gravityPortal (ctx : TickCtx) (w : World) :
  forward w -> forward (gravityPortal ctx w).
Proof.
  intro H. unfold gravityPortal. split_ifs; [|exact H].
  destruct H as (Hx & Hs & Hl). unfold forward, posX in *. simpl.
  repeat split; auto. intros v [= <-]. exact Hx.
Qed.

Lemma forward_handlePortal (ctx : TickCtx) (o : LevelObject.t) (w : World) :
  forward w -> forward (handlePortal ctx o w).
Proof.
  intro H. unfold handlePortal.
  destruct (checkCollision _ _); [|exact H].
  pose proof (forward_speedPortal (LevelObject.type o) w H) as H1.
  destruct (LevelObject.type o); try exact H1.
  now apply forward_gravityPortal.
Qed.

Lemma forward_reportDeath (props : Props) (w : World) :
  forward w -> forward (reportDeath props w).
Proof. unfold reportDeath. split_ifs; apply forward_same_x; auto. Qed.

Lemma forward_crash (props : Props) (w : World) :
  forward w -> forward (crash props w).
Proof.
  intro H. unfold crash. apply forward_reportDeath.
  revert H. apply forward_same_x; auto.
Qed.

Lemma forward_collideObject (props : Props) (ctx : TickCtx) (o : LevelObject.t)
    (w : World) :
  forward w ->
  match collideObject props ctx o w with
  | Continue w' | Return w' => forward w'
  end.
Proof.
  intro H. unfold collideObject.
  destruct (isOrb _); [now apply forward_handleOrb|].
  destruct (isPortal _); [now apply forward_handlePortal|].
  unfold handleSolid.
  destruct (checkCollision _ _); [|exact H].
  destruct (isLethal _); [now apply forward_crash|].
  destruct (isBlock _); [|exact H].
  unfold handleBlock.
  split_ifs;
    repeat match goal with H : (_, _) = (_, _) |- _ => inversion H; clear H; subst end;
    try discriminate;
    try apply forward_crash;
    (revert H; apply forward_same_x; auto).
Qed.

Lemma forward_collide (props : Props) (ctx : TickCtx) (objs : list LevelObject.t)
    (w : World) :
  forward w ->
  match collide props ctx objs w with
  | Continue w' | Return w' => forward w'
  end.
Proof.
  revert w. induction objs as [|o objs IH]; intros w H; simpl; [exact H|].
  pose proof (forward_collideObject props ctx o w H) as Ho.
  destruct (collideObject props ctx o w) as [w1|w1]; [|exact Ho].
  now apply IH.
Qed.

Lemma speed_stabilityCheck (lvl : LevelData.t) (g : Q) (w : World) :
  speedMultiplier (player (stabilityCheck lvl g w)) = speedMultiplier (player w) /\
  lastPortalX (player (stabilityCheck lvl g w)) = lastPortalX (player w) /\
  position (player (stabilityCheck lvl g w)) = position (player w).
Proof. unfold stabilityCheck. split_ifs; repeat split. Qed.

Lemma speed_physics (g : Q) (w : World) :
  speedMultiplier (player (physics g w)) = speedMultiplier (player w) /\
  lastPortalX (player (physics g w)) = lastPortalX (player w) /\
  posX (physics g w) = posX w + MOVE_SPEED * speedMultiplier (player w) /\
  posY (physics g w) = posY w.
Proof.
  unfold physics, rotate, advanceX, clampVelocity, groundJump, applySpeed,
    applyGravity.
  split_ifs; repeat split.
Qed.

Lemma forward_loopEntry (props : Props) (lvl : LevelData.t) (w : World) :
  sane w -> forward (loopEntry props lvl w).
Proof.
  intros (Hx & Hs & Hl). unfold loopEntry, beforeLoop.
  set (g := gravityScale (player w)).
  set (w1 := stabilityCheck lvl g (recordTrail props w)).
  destruct (speed_physics g w1) as (Es & El & Ex & _).
  destruct (speed_stabilityCheck lvl g (recordTrail props w)) as (Es1 & El1 & Ep1).
  fold w1 in Es1, El1, Ep1. rewrite player_recordTrail in Es1, El1, Ep1.
  unfold forward, advanceY, posX in *. simpl.
  rewrite Es, El, Ex, Es1, El1. unfold posX. rewrite Ep1.
  repeat split; auto. unfold MOVE_SPEED. nra.
Qed.

Lemma forward_floorCeiling (props : Props) (lvl : LevelData.t) (g : Q) (w : World) :
  forward w -> forward (floorCeiling props lvl g w).
Proof.
  intro H. unfold floorCeiling.
  split_ifs; try exact H; try apply forward_reportDeath;
    (revert H; apply forward_same_x; auto).
Qed.

Lemma sane_tickStart (w : World) : sane w -> sane (tickStart w).
Proof. apply sane_same_player, player_tickStart. Qed.

Lemma sane_update (props : Props) (lvl : LevelData.t) (w : World) :
  sane w -> sane (update props lvl w).
Proof.
  intro H. unfold update. cbv zeta.
  destruct (isDead (player (tickStart w))).
  - revert H. apply sane_same_player. simpl. apply player_tickStart.
  - apply sane_tickStart in H.
    unfold simulate, runLoop.
    pose proof (forward_collide props (loopCtx props lvl (tickStart w))
                  (LevelData.objects lvl) _ (forward_loopEntry props lvl _ H)) as Hc.
    destruct (collide _ _ _ _) as [w1|w1]; [|now apply forward_sane].
    apply (sane_same_player (floorCeiling props lvl (gravityScale (player (tickStart w))) w1)).
    + apply player_afterCollisions.
    + now apply forward_sane, forward_floorCeiling.
Qed.

Lemma sane_handleInput (evs : list InputEvent) (w : World) :
  sane w -> sane (fold_left handleInput evs w).
Proof.
  revert w. induction evs as [|e evs IH]; intros w H; simpl; [exact H|].
  apply IH. destruct e; revert H; unfold sane, posX; simpl; auto.
Qed.

Lemma sane_run (props : Props) (lvl : LevelData.t)
    (frames : list (list InputEvent)) (w : World) :
  sane w -> sane (run props lvl frames w).
Proof.
  unfold run. revert w.
  induction frames as [|evs frames IH]; intros w H; simpl; [exact H|].
  apply IH. unfold frame. now apply sane_update, sane_handleInput.
Qed.

Lemma sane_initialWorld : sane initialWorld.
Proof.
  unfold sane, posX. simpl. repeat split; try lra. discriminate.
Qed.

(** ** C5 *)



(** ** The log of effects *)

Lemma callbacks_app (l1 l2 : list Event) :
  callbacks (l1 ++ l2) = callbacks l1 ++ callbacks l2.
Proof. apply filter_app. Qed.

Lemma countIf_app (f : Event -> bool) (l1 l2 : list Event) :
  countIf f (l1 ++ l2) = (countIf f l1 + countIf f l2)%nat.
Proof. unfold countIf. now rewrite filter_app, length_app. Qed.

Lemma since_app (w w' : World) (evs : list Event) :
  emitted w' = emitted w ++ evs -> since w w' = evs.
Proof.
  intro H. unfold since. rewrite H.
  now rewrite skipn_app, skipn_all, Nat.sub_diag.
Qed.

Lemma emits_same (w w' : World) :
  emitted w' = emitted w -> (lock w' <= lock w)%nat -> emits w w' [].
Proof.
  intros He Hl. exists []. rewrite app_nil_r. auto.
Qed.

Lemma emits_quiet (w w' : World) :
  emitted w' = emitted w ->
  canOrbJump (player w') = canOrbJump (player w) ->
  emits w w' [].
Proof.
  intros He Hc. apply emits_same; [exact He|].
  unfold lock. rewrite Hc. auto.
Qed.

Lemma emits_trans (w1 w2 w3 : World) (c1 c2 : list Event) :
  emits w1 w2 c1 -> emits w2 w3 c2 -> emits w1 w3 (c1 ++ c2).
Proof.
  intros (e1 & H1 & C1 & L1) (e2 & H2 & C2 & L2).
  exists (e1 ++ e2). repeat split.
  - now rewrite H2, H1, app_assoc.
  - now rewrite callbacks_app, C1, C2.
  - unfold orbBursts in *. rewrite countIf_app. lia.
Qed.

Lemma emits_emit (e : Event) (w : World) :
  isOrbBurst e = false -> emits w (emit e w) (callbacks [e]).
Proof.
  intro H. exists [e]. repeat split.
  unfold orbBursts, countIf, lock. simpl. rewrite H. simpl. lia.
Qed.

Lemma emits_since (w w' : World) (cbs : list Event) :
  emits w w' cbs ->
  emitted w' = emitted w ++ since w w' /\
  callbacks (since w w') = cbs /\
  (orbBursts (since w w') + lock w' <= lock w)%nat.
Proof.
  intros (evs & H & C & L). rewrite (since_app _ _ _ H). auto.
Qed.

Lemma emits_tickStart (w : World) : emits w (tickStart w) [].
Proof.
  apply emits_same; [apply emitted_tickStart|].
  unfold lock. now rewrite player_tickStart.
Qed.

Lemma emits_recordTrail (props : Props) (w : World) :
  emits w (recordTrail props w) [].
Proof.
  apply emits_quiet; unfold recordTrail; split_ifs; reflexivity.
Qed.

Lemma emits_stabilityCheck (lvl : LevelData.t) (g : Q) (w : World) :
  emits w (stabilityCheck lvl g w) [].
Proof.
  apply emits_quiet; unfold stabilityCheck; split_ifs; reflexivity.
Qed.

Lemma emits_physics (g : Q) (w : World) : emits w (physics g w) [].
Proof.
  unfold physics.
  set (w1 := applySpeed (applyGravity g w)).
  assert (H1 : emits w w1 []).
  { apply emits_quiet; unfold w1, applySpeed, applyGravity;
      split_ifs; reflexivity. }
  assert (H2 : emits w1 (groundJump g w1) []).
  { unfold groundJump. destruct (jump (input w1) && isGrounded (player w1)).
    - eexists. split; [reflexivity|]. split; [reflexivity|].
      unfold lock. simpl. destruct (canOrbJump (player w1)); simpl; lia.
    - apply emits_same; auto. }
  set (w2 := groundJump g w1) in *.
  assert (H3 : emits w2 (rotate g (advanceX (clampVelocity g w2))) []).
  { apply emits_quiet; unfold rotate, advanceX, clampVelocity;
      split_ifs; reflexivity. }
  exact (emits_trans _ _ _ _ _ (emits_trans _ _ _ _ _ H1 H2) H3).
Qed.

Lemma emits_loopEntry (props : Props) (lvl : LevelData.t) (w : World) :
  emits w (loopEntry props lvl w) [].
Proof.
  unfold loopEntry, beforeLoop.
  refine (emits_trans _ _ _ [] [] _ _).
  - refine (emits_trans _ _ _ [] [] (emits_recordTrail props w) _).
    refine (emits_trans _ _ _ [] [] (emits_stabilityCheck _ _ _) _).
    apply emits_physics.
  - apply emits_same; reflexivity.
Qed.

Lemma canOrbJump_orbEffect (ctx : TickCtx) (t : EntityType) (p : Player) :
  canOrbJump (orbEffect ctx t p) = canOrbJump p.
Proof. destruct t; reflexivity. Qed.

Lemma emits_handleOrb (ctx : TickCtx) (o : LevelObject.t) (w : World) :
  emits w (handleOrb ctx o w) [].
Proof.
  unfold handleOrb. destruct (orbFires ctx o w) eqn:Hf.
  - eexists. split; [reflexivity|]. split; [reflexivity|].
    unfold orbFires in Hf. apply andb_true_iff in Hf. destruct Hf as [_ Hc].
    unfold lock. simpl. rewrite canOrbJump_orbEffect, Hc. simpl. lia.
  - apply emits_same; auto.
Qed.

Lemma emits_handlePortal (ctx : TickCtx) (o : LevelObject.t) (w : World) :
  emits w (handlePortal ctx o w) [].
Proof.
  unfold handlePortal. destruct (checkCollision _ _); [|apply emits_same; auto].
  assert (H1 : emits w (upd_player (speedPortal (LevelObject.type o)) w) []).
  { apply emits_quiet; destruct (LevelObject.type o); reflexivity. }
  destruct (LevelObject.type o); try exact H1.
  refine (emits_trans _ _ _ [] [] H1 _).
  unfold gravityPortal. split_ifs; [|apply emits_same; auto].
  eexists. split; [reflexivity|]. split; [reflexivity|].
  unfold lock. simpl. lia.
Qed.

Lemma deathCallback_ext (props : Props) (w w' : World) :
  player w' = player w -> recordedTrail w' = recordedTrail w ->
  deathCallback props w' = deathCallback props w.
Proof. unfold deathCallback. now intros -> ->. Qed.

Lemma winCallback_ext (props : Props) (w w' : World) :
  recordedTrail w' = recordedTrail w ->
  winCallback props w' = winCallback props w.
Proof. unfold winCallback. now intros ->. Qed.

Lemma isCallback_deathCallback (props : Props) (w : World) :
  isCallback (deathCallback props w) = true /\
  isOrbBurst (deathCallback props w) = false.
Proof. unfold deathCallback. split_ifs; auto. Qed.

Lemma isCallback_winCallback (props : Props) (w : World) :
  isCallback (winCallback props w) = true /\
  isOrbBurst (winCallback props w) = false.
Proof. unfold winCallback. split_ifs; auto. Qed.

Lemma emits_reportDeath (props : Props) (w : World) :
  emits w (reportDeath props w) [deathCallback props (reportDeath props w)].
Proof.
  unfold reportDeath at 1.
  destruct (isCallback_deathCallback props w) as [Hc Ho].
  pose proof (emits_emit _ w Ho) as H.
  simpl in H. rewrite Hc in H.
  rewrite (deathCallback_ext props w (reportDeath props w)); auto.
Qed.

Lemma emits_crash (props : Props) (w : World) :
  emits w (crash props w) [deathCallback props (crash props w)].
Proof.
  unfold crash.
  refine (emits_trans _ _ _ [] [_] _ (emits_reportDeath props _)).
  apply emits_same; reflexivity.
Qed.

Lemma emits_collideObject (props : Props) (ctx : TickCtx) (o : LevelObject.t)
    (w : World) :
  match collideObject props ctx o w with
  | Continue w' => emits w w' []
  | Return w' => emits w w' [deathCallback props w']
  end.
Proof.
  unfold collideObject.
  destruct (isOrb _); [apply emits_handleOrb|].
  destruct (isPortal _); [apply emits_handlePortal|].
  unfold handleSolid.
  destruct (checkCollision _ _); [|apply emits_same; auto].
  destruct (isLethal _); [apply emits_crash|].
  destruct (isBlock _); [|apply emits_same; auto].
  unfold handleBlock.
  split_ifs;
    repeat match goal with H : (_, _) = (_, _) |- _ => inversion H; clear H; subst end;
    try discriminate;
    try (apply emits_same; reflexivity);
    try apply emits_crash.
Qed.

Lemma emits_collide (props : Props) (ctx : TickCtx) (objs : list LevelObject.t)
    (w : World) :
  match collide props ctx objs w with
  | Continue w' => emits w w' []
  | Return w' => emits w w' [deathCallback props w']
  end.
Proof.
  revert w. induction objs as [|o objs IH]; intro w; simpl.
  - apply emits_same; auto.
  - pose proof (emits_collideObject props ctx o w) as Ho.
    destruct (collideObject props ctx o w) as [w1|w1]; [|exact Ho].
    specialize (IH w1).
    destruct (collide props ctx objs w1) as [w2|w2].
    + exact (emits_trans _ _ _ [] [] Ho IH).
    + exact (emits_trans _ _ _ [] [_] Ho IH).
Qed.

Lemma emits_floorCeiling (props : Props) (lvl : LevelData.t) (g : Q) (w : World) :
  isDead (player w) = false ->
  emits w (floorCeiling props lvl g w)
    (if isDead (player (floorCeiling props lvl g w))
     then [deathCallback props (floorCeiling props lvl g w)] else []).
Proof.
  intro Hd. unfold floorCeiling. rewrite Hd. simpl negb. cbv iota.
  destruct (g =? 1).
  - destruct (posY w >=? 0); simpl; rewrite Hd; apply emits_quiet; reflexivity.
  - destruct (LevelData.gameMode lvl).
    + destruct (posY w - TILE_SIZE <=? _); simpl; rewrite Hd;
        apply emits_quiet; reflexivity.
    + destruct ((posY w <? -3000) || (posY w >? 1000)).
      * rewrite isDead_reportDeath. simpl.
        refine (emits_trans _ _ _ [] [_] _ (emits_reportDeath props _)).
        apply emits_quiet; reflexivity.
      * rewrite Hd. apply emits_quiet; reflexivity.
Qed.

Lemma recordedTrail_afterCollisions (props : Props) (lvl : LevelData.t) (g : Q)
    (w : World) :
  recordedTrail (afterCollisions props lvl g w) =
  recordedTrail (floorCeiling props lvl g w).
Proof.
  unfold afterCollisions, winCheck, updateCamera, clearPressed.
  split_ifs; reflexivity.
Qed.

Lemma emits_afterCollisions (props : Props) (lvl : LevelData.t) (g : Q)
    (w : World) :
  isDead (player w) = false ->
  emits w (afterCollisions props lvl g w)
    ((if isDead (player (afterCollisions props lvl g w))
      then [deathCallback props (afterCollisions props lvl g w)] else []) ++
     (if pastEnd props lvl (afterCollisions props lvl g w)
      then [winCallback props (afterCollisions props lvl g w)] else [])).
Proof.
  intro Hd.
  pose proof (emits_floorCeiling props lvl g w Hd) as Hfc.
  set (w3 := updateCamera lvl (clearPressed (floorCeiling props lvl g w))).
  assert (Ep : pastEnd props lvl (afterCollisions props lvl g w) =
               pastEnd props lvl w3).
  { unfold pastEnd, posX, afterCollisions. now rewrite player_winCheck. }
  assert (Ew : winCallback props (afterCollisions props lvl g w) =
               winCallback props w3).
  { apply winCallback_ext. unfold afterCollisions, winCheck.
    split_ifs; reflexivity. }
  assert (Ed : deathCallback props (afterCollisions props lvl g w) =
               deathCallback props (floorCeiling props lvl g w)).
  { apply deathCallback_ext;
      [apply player_afterCollisions | apply recordedTrail_afterCollisions]. }
  rewrite Ep, Ew, Ed, player_afterCollisions.
  refine (emits_trans _ _ _ _ _ Hfc _).
  assert (H3 : emits (floorCeiling props lvl g w) w3 []).
  { apply emits_quiet; unfold w3, updateCamera, clearPressed;
      split_ifs; reflexivity. }
  refine (emits_trans _ _ _ [] _ H3 _).
  change (afterCollisions props lvl g w) with (winCheck props lvl w3).
  unfold winCheck. fold (pastEnd props lvl w3).
  destruct (pastEnd props lvl w3).
  - destruct (isCallback_winCallback props w3) as [Hc Ho].
    pose proof (emits_emit _ w3 Ho) as H. simpl in H. now rewrite Hc in H.
  - apply emits_quiet; reflexivity.
Qed.

(** The effects of one call of [update]. *)
Lemma update_emits_alive (props : Props) (lvl : LevelData.t) (w : World) :
  isDead (player w) = false ->
  emits w (update props lvl w) (tickCallbacks props lvl w).
Proof.
  intro Hd. unfold tickCallbacks, crashes. cbv zeta.
  rewrite update_alive by exact Hd. unfold simulate.
  refine (emits_trans _ _ _ [] _ (emits_tickStart w) _).
  pose proof (emits_collide props (loopCtx props lvl (tickStart w))
                (LevelData.objects lvl) (loopEntry props lvl (tickStart w))) as Hc.
  fold (runLoop props lvl (tickStart w)) in Hc.
  destruct (runLoop props lvl (tickStart w)) as [w1|w1] eqn:Hl.
  - refine (emits_trans _ _ _ [] _ (emits_loopEntry props lvl _) _).
    refine (emits_trans _ _ _ [] _ Hc _).
    apply emits_afterCollisions.
    apply (runLoop_alive _ _ _ _ (eq_trans (f_equal isDead (player_tickStart w)) Hd) Hl).
  - rewrite (runLoop_dead _ _ _ _ Hl). simpl.
    refine (emits_trans _ _ _ [] _ (emits_loopEntry props lvl _) Hc).
Qed.

Lemma update_emits_dead (props : Props) (lvl : LevelData.t) (w : World) :
  isDead (player w) = true ->
  emits w (update props lvl w) [].
Proof.
  intro Hd. rewrite update_dead by exact Hd.
  refine (emits_trans _ _ _ [] [] (emits_tickStart w) _).
  apply (emits_emit (SpawnParticles _ _ 5 _ _)). reflexivity.
Qed.

Lemma since_update_alive (props : Props) (lvl : LevelData.t) (w : World) :
  isDead (player w) = false ->
  emitted (update props lvl w) = emitted w ++ since w (update props lvl w) /\
  callbacks (since w (update props lvl w)) = tickCallbacks props lvl w.
Proof.
  intro Hd.
  destruct (emits_since _ _ _ (update_emits_alive props lvl w Hd)) as (H & C & _).
  auto.
Qed.

Lemma since_update_dead (props : Props) (lvl : LevelData.t) (w : World) :
  isDead (player w) = true ->
  emitted (update props lvl w) = emitted w ++ since w (update props lvl w) /\
  callbacks (since w (update props lvl w)) = [].
Proof.
  intro Hd.
  destruct (emits_since _ _ _ (update_emits_dead props lvl w Hd)) as (H & C & _).
  auto.
Qed.

Lemma emitted_handleInput (evs : list InputEvent) (w : World) :
  emitted (fold_left handleInput evs w) = emitted w /\
  isDead (player (fold_left handleInput evs w)) = isDead (player w).
Proof.
  revert w. induction evs as [|e evs IH]; intro w; simpl; [auto|].
  destruct (IH (handleInput w e)) as [H1 H2]. rewrite H1, H2.
  destruct e; auto.
Qed.

Lemma countIf_callbacks (f : Event -> bool) (l : list Event) :
  (forall e, f e = true -> isCallback e = true) ->
  countIf f (callbacks l) = countIf f l.
Proof.
  intro Hf. unfold countIf, callbacks.
  induction l as [|e l IH]; [reflexivity|]. simpl.
  destruct (isCallback e) eqn:Ec; simpl.
  - destruct (f e); simpl; now rewrite IH.
  - destruct (f e) eqn:Ef; [|exact IH].
    apply Hf in Ef. congruence.
Qed.

(** The callbacks logged by a whole frame. *)
Lemma frame_callbacks (props : Props) (lvl : LevelData.t) (w : World)
    (evs : list InputEvent) :
  callbacks (emitted (frame props lvl w evs)) =
  callbacks (emitted w) ++
  (if isDead (player w) then []
   else tickCallbacks props lvl (fold_left handleInput evs w)).
Proof.
  unfold frame. destruct (emitted_handleInput evs w) as [He Hd].
  set (w1 := fold_left handleInput evs w) in *.
  destruct (isDead (player w)) eqn:E.
  - destruct (since_update_dead props lvl w1 Hd) as [H C].
    now rewrite H, callbacks_app, C, He.
  - destruct (since_update_alive props lvl w1 Hd) as [H C].
    now rewrite H, callbacks_app, C, He.
Qed.

(** ** C7 *)



Lemma recordedTrail_physics (g : Q) (w : World) :
  recordedTrail (physics g w) = recordedTrail w.
Proof.
  unfold physics.
  assert (H1 : forall u, recordedTrail (applySpeed (applyGravity g u)) =
                         recordedTrail u).
  { intro u. unfold applySpeed, applyGravity. split_ifs; reflexivity. }
  assert (H2 : forall u, recordedTrail (groundJump g u) = recordedTrail u).
  { intro u. unfold groundJump. split_ifs; reflexivity. }
  assert (H3 : forall u, recordedTrail (rotate g (advanceX (clampVelocity g u))) =
                         recordedTrail u).
  { intro u. unfold rotate, advanceX, clampVelocity. split_ifs; reflexivity. }
  now rewrite H3, H2, H1.
Qed.

Lemma recordedTrail_loopEntry (props : Props) (lvl : LevelData.t) (w : World) :
  recordedTrail (loopEntry props lvl w) = recordedTrail (recordTrail props w).
Proof.
  unfold loopEntry, beforeLoop, advanceY. simpl.
  rewrite recordedTrail_physics.
  unfold stabilityCheck. split_ifs; reflexivity.
Qed.

Lemma recordedTrail_collideObject (props : Props) (ctx : TickCtx)
    (o : LevelObject.t) (w : World) :
  match collideObject props ctx o w with
  | Continue w' | Return w' => recordedTrail w' = recordedTrail w
  end.
Proof.
  unfold collideObject, handleOrb, handlePortal, gravityPortal, handleSolid,
    handleBlock, crash, reportDeath.
  split_ifs;
    repeat match goal with H : (_, _) = (_, _) |- _ => inversion H; clear H; subst end;
    try discriminate; reflexivity.
Qed.

Lemma recordedTrail_collide (props : Props) (ctx : TickCtx)
    (objs : list LevelObject.t) (w : World) :
  match collide props ctx objs w with
  | Continue w' | Return w' => recordedTrail w' = recordedTrail w
  end.
Proof.
  revert w. induction objs as [|o objs IH]; intro w; simpl; [reflexivity|].
  pose proof (recordedTrail_collideObject props ctx o w) as Ho.
  destruct (collideObject props ctx o w) as [w1|w1]; [|exact Ho].
  specialize (IH w1). destruct (collide props ctx objs w1); congruence.
Qed.

Lemma recordedTrail_floorCeiling (props : Props) (lvl : LevelData.t) (g : Q)
    (w : World) :
  recordedTrail (floorCeiling props lvl g w) = recordedTrail w.
Proof. unfold floorCeiling, reportDeath. split_ifs; reflexivity. Qed.

Lemma recordedTrail_update (props : Props) (lvl : LevelData.t) (w : World) :
  isDead (player w) = false ->
  recordedTrail (update props lvl w) =
  recordedTrail (recordTrail props (tickStart w)).
Proof.
  intro Hd. rewrite update_alive by exact Hd. unfold simulate, runLoop.
  pose proof (recordedTrail_collide props (loopCtx props lvl (tickStart w))
                (LevelData.objects lvl) (loopEntry props lvl (tickStart w))) as H.
  rewrite recordedTrail_loopEntry in H.
  destruct (collide _ _ _ _) as [w1|w1]; [|exact H].
  now rewrite recordedTrail_afterCollisions, recordedTrail_floorCeiling.
Qed.


(** A tick that leaves from inside the loop leaves the player dead. *)
Lemma crashes_dead (props : Props) (lvl : LevelData.t) (w : World) :
  isDead (player w) = false ->
  crashes props lvl w = true ->
  isDead (player (update props lvl w)) = true.
Proof.
  intros Hd Hc. rewrite update_alive by exact Hd.
  unfold crashes in Hc. unfold simulate.
  destruct (runLoop props lvl (tickStart w)) eqn:Hl; [discriminate|].
  now apply runLoop_dead in Hl.
Qed.



(** ** C1 *)

(** C1, counterexample.  A run with neither procedural nor test mode
    over a level of length 50 without objects, no input at all: the
    267th frame takes the player past [2400] and invokes [onWin]; the
    268th frame invokes it again. *)
Lemma onWin_fires_on_every_tick_past_end :
  let w266 := run playProps noObject (idle 266) initialWorld in
  let w267 := frame playProps noObject w266 [] in
  let w268 := frame playProps noObject w267 [] in
  countIf isOnWin (emitted w266) = 0%nat /\
  posX w266 <= 2400 /\ posX w267 > 2400 /\
  countIf isOnWin (emitted w267) = 1%nat /\
  countIf isOnWin (emitted w268) = 2%nat.
Proof. vm_compute. repeat split; discriminate. Qed.

Lemma tickCallbacks_play (props : Props) (lvl : LevelData.t) (w : World) :
  isTestMode props = false ->
  tickCallbacks props lvl w =
  (if isDead (player (update props lvl w)) then [OnDie] else []) ++
  (if negb (crashes props lvl w) && pastEnd props lvl (update props lvl w)
   then [OnWin] else []).
Proof.
  intro Ht. unfold tickCallbacks, deathCallback, winCallback.
  now rewrite Ht.
Qed.

Lemma isDead_update_dead (props : Props) (lvl : LevelData.t) (w : World) :
  isDead (player w) = true -> isDead (player (update props lvl w)) = true.
Proof.
  intro Hd. rewrite update_dead by exact Hd. simpl.
  now rewrite player_tickStart.
Qed.

(** What a run in play mode maintains: [onDie] was invoked at most
    once, and not at all while the player lives; [onTestComplete] was
    not invoked. *)
Lemma run_play_callbacks (props : Props) (lvl : LevelData.t)
    (frames : list (list InputEvent)) (w : World) :
  isTestMode props = false ->
  (isDead (player w) = false -> countIf isOnDie (emitted w) = 0%nat) /\
  (countIf isOnDie (emitted w) <= 1)%nat /\
  countIf isOnTestComplete (emitted w) = 0%nat ->
  (countIf isOnDie (emitted (run props lvl frames w)) <= 1)%nat /\
  countIf isOnTestComplete (emitted (run props lvl frames w)) = 0%nat.
Proof.
  intro Ht. unfold run. revert w.
  induction frames as [|evs frames IH]; intros w (Ha & H1 & H0); simpl; [auto|].
  apply IH. clear IH.
  rewrite <- (countIf_callbacks isOnDie),
          <- (countIf_callbacks isOnTestComplete)
    by (intros []; simpl; congruence).
  rewrite <- (countIf_callbacks isOnDie) in Ha, H1
    by (intros []; simpl; congruence).
  rewrite <- (countIf_callbacks isOnTestComplete) in H0
    by (intros []; simpl; congruence).
  rewrite frame_callbacks, !countIf_app.
  unfold frame.
  destruct (emitted_handleInput evs w) as [_ Hd].
  destruct (isDead (player w)) eqn:E.
  - rewrite (isDead_update_dead _ _ _ Hd).
    unfold countIf in *. simpl. rewrite !Nat.add_0_r.
    split; [intro; discriminate | split; assumption].
  - rewrite (tickCallbacks_play _ _ _ Ht).
    specialize (Ha eq_refl). rewrite Ha, H0.
    destruct (isDead (player (update props lvl (fold_left handleInput evs w))));
      destruct (negb _ && _); unfold countIf; simpl;
      (split; [intro; (discriminate || reflexivity) | split; (lia || reflexivity)]).
Qed.

(** C1, as amended.  In a run that is neither procedural nor a test:
    (1) [onDie] is invoked at most once in the run and
    [onTestComplete] never; (2) a tick that starts with a dead player
    invokes no callback; (3) a tick that takes a living player to its
    death invokes [onDie] exactly once; (4) a tick that starts and ends
    with a living player invokes [onWin], once, exactly when the player
    is past [length * TILE_SIZE] at its end, and no other callback;
    (5) with [length = 50], a tick that leaves a living player past
    [2400] invokes [onWin] exactly once.  By (4), [onWin] is invoked on
    each such tick, not once per run. *)
Theorem play_mode_callbacks (props : Props) (lvl : LevelData.t) :
  isProcedural props = false ->
  isTestMode props = false ->
  (forall frames,
     (countIf isOnDie (emitted (run props lvl frames initialWorld)) <= 1)%nat /\
     countIf isOnTestComplete
       (emitted (run props lvl frames initialWorld)) = 0%nat) /\
  (forall w, isDead (player w) = true ->
     callbacks (since w (update props lvl w)) = []) /\
  (forall w, isDead (player w) = false ->
     isDead (player (update props lvl w)) = true ->
     countIf isOnDie (since w (update props lvl w)) = 1%nat) /\
  (forall w, isDead (player w) = false ->
     isDead (player (update props lvl w)) = false ->
     callbacks (since w (update props lvl w)) =
     if posX (update props lvl w) >? LevelData.length lvl * TILE_SIZE
     then [OnWin] else []) /\
  (forall w, isDead (player w) = false ->
     isDead (player (update props lvl w)) = false ->
     LevelData.length lvl == 50 ->
     posX (update props lvl w) > 2400 ->
     countIf isOnWin (since w (update props lvl w)) = 1%nat).
Proof.
  intros Hp Ht.
  assert (H3 : forall w, isDead (player w) = false ->
     callbacks (since w (update props lvl w)) =
     (if isDead (player (update props lvl w)) then [OnDie] else []) ++
     (if negb (crashes props lvl w) &&
         (posX (update props lvl w) >? LevelData.length lvl * TILE_SIZE)
      then [OnWin] else [])).
  { intros w Hd.
    destruct (since_update_alive props lvl w Hd) as [_ C].
    rewrite C, (tickCallbacks_play _ _ _ Ht). unfold pastEnd.
    now rewrite Hp. }
  assert (H4 : forall w, isDead (player w) = false ->
     isDead (player (update props lvl w)) = false ->
     callbacks (since w (update props lvl w)) =
     if posX (update props lvl w) >? LevelData.length lvl * TILE_SIZE
     then [OnWin] else []).
  { intros w Hd Hd'. rewrite (H3 w Hd), Hd'.
    pose proof (crashes_dead props lvl w Hd) as Hcd.
    destruct (crashes props lvl w); [|reflexivity].
    rewrite (Hcd eq_refl) in Hd'. discriminate. }
  split; [|split; [|split; [|split]]].
  - intro frames. apply run_play_callbacks; auto.
  - intros w Hd. now destruct (since_update_dead props lvl w Hd).
  - intros w Hd Hd'.
    rewrite <- (countIf_callbacks isOnDie)
      by (intros []; simpl; congruence).
    rewrite (H3 w Hd), Hd', countIf_app.
    destruct (negb _ && _); reflexivity.
  - exact H4.
  - intros w Hd Hd' Hlen Hx.
    rewrite <- (countIf_callbacks isOnWin)
      by (intros []; simpl; congruence).
    rewrite (H4 w Hd Hd').
    destruct (Qltb_spec (LevelData.length lvl * TILE_SIZE)
                (posX (update props lvl w))) as [_|Hn]; [reflexivity|].
    exfalso. apply Hn. rewrite Hlen. unfold TILE_SIZE. lra.
Qed.

Lemma play_mode_callbacks_witness :
  (countIf isOnDie (emitted (run playProps spikeLevel (idle 9) initialWorld)) <= 1)%nat /\
  countIf isOnTestComplete
    (emitted (run playProps spikeLevel (idle 9) initialWorld)) = 0%nat.
Proof.
  exact (proj1 (play_mode_callbacks playProps spikeLevel eq_refl eq_refl)
               (idle 9)).
Defined.

(** ** C4 *)

(** C4, counterexample.  The run starts with the centre of the player
    on the centre of an orb; the jump control is pressed before the
    first frame and held for thirty frames.  The flag
    [jumpPressedThisFrame] is set and the orb is in range when the
    first tick tests it, but the player stands on the floor: the ground
    jump of that tick takes the lock, and no orb impulse is ever
    applied.  (The impulses that are applied are two ground jumps, on
    the first frame and again after landing.) *)
Lemma grounded_player_gets_no_orb_impulse :
  (posX initialWorld + TILE_SIZE / 2 == centerX orbAtStart /\
   posY initialWorld - TILE_SIZE / 2 == centerY orbAtStart) /\
  jumpPressedThisFrame (input (handleDown initialWorld)) = true /\
  orbInRange (loopCtx playProps orbLevel (tickStart (handleDown initialWorld)))
             orbAtStart = true /\
  orbBursts (emitted (run playProps orbLevel ([Press] :: idle 29) initialWorld))
    = 0%nat /\
  countIf isJumpBurst
    (emitted (run playProps orbLevel ([Press] :: idle 29) initialWorld)) = 2%nat.
Proof. vm_compute. repeat split. Qed.

Lemma orbFires_gate (ctx : TickCtx) (o : LevelObject.t) (w : World) :
  orbFires ctx o w = orbInRange ctx o && gate w.
Proof. unfold orbFires, gate. now rewrite andb_assoc. Qed.

Lemma spends_same (w w' : World) :
  emitted w' = emitted w ->
  canOrbJump (player w') = canOrbJump (player w) ->
  spends w w'.
Proof.
  intros He Hc. exists []. rewrite app_nil_r. split; [exact He|].
  unfold lock. now rewrite Hc.
Qed.

Lemma spends_trans (w1 w2 w3 : World) :
  spends w1 w2 -> spends w2 w3 -> spends w1 w3.
Proof.
  intros (e1 & H1 & L1) (e2 & H2 & L2).
  exists (e1 ++ e2). split.
  - now rewrite H2, H1, app_assoc.
  - unfold orbBursts in *. rewrite countIf_app. lia.
Qed.

Lemma spends_handleOrb (ctx : TickCtx) (o : LevelObject.t) (w : World) :
  spends w (handleOrb ctx o w).
Proof.
  unfold handleOrb. destruct (orbFires ctx o w) eqn:Hf.
  - eexists. split; [reflexivity|].
    unfold orbFires in Hf. apply andb_true_iff in Hf. destruct Hf as [_ Hc].
    unfold lock. simpl. now rewrite canOrbJump_orbEffect, Hc.
  - apply spends_same; reflexivity.
Qed.

Lemma spends_handlePortal (ctx : TickCtx) (o : LevelObject.t) (w : World) :
  spends w (handlePortal ctx o w).
Proof.
  unfold handlePortal. destruct (checkCollision _ _); [|apply spends_same; auto].
  assert (H1 : spends w (upd_player (speedPortal (LevelObject.type o)) w)).
  { apply spends_same; destruct (LevelObject.type o); reflexivity. }
  destruct (LevelObject.type o); try exact H1.
  refine (spends_trans _ _ _ H1 _).
  unfold gravityPortal. split_ifs; [|apply spends_same; auto].
  eexists. split; [reflexivity|]. reflexivity.
Qed.

Lemma spends_crash (props : Props) (w : World) : spends w (crash props w).
Proof.
  unfold crash, reportDeath.
  destruct (isCallback_deathCallback props
              (set_shake 20 (upd_player (set_isDead true) w))) as [_ Ho].
  eexists. split; [reflexivity|].
  unfold orbBursts, countIf, lock. simpl. rewrite Ho. reflexivity.
Qed.

Lemma spends_collideObject (props : Props) (ctx : TickCtx) (o : LevelObject.t)
    (w : World) :
  match collideObject props ctx o w with
  | Continue w' | Return w' => spends w w'
  end.
Proof.
  unfold collideObject.
  destruct (isOrb _); [apply spends_handleOrb|].
  destruct (isPortal _); [apply spends_handlePortal|].
  unfold handleSolid.
  destruct (checkCollision _ _); [|apply spends_same; auto].
  destruct (isLethal _); [apply spends_crash|].
  destruct (isBlock _); [|apply spends_same; auto].
  unfold handleBlock.
  split_ifs;
    repeat match goal with H : (_, _) = (_, _) |- _ => inversion H; clear H; subst end;
    try discriminate;
    try (apply spends_same; reflexivity);
    try apply spends_crash.
Qed.

Lemma spends_collide (props : Props) (ctx : TickCtx) (objs : list LevelObject.t)
    (w : World) :
  match collide props ctx objs w with
  | Continue w' | Return w' => spends w w'
  end.
Proof.
  revert w. induction objs as [|o objs IH]; intro w; simpl.
  - apply spends_same; auto.
  - pose proof (spends_collideObject props ctx o w) as Ho.
    destruct (collideObject props ctx o w) as [w1|w1]; [|exact Ho].
    specialize (IH w1).
    destruct (collide props ctx objs w1) as [w2|w2];
      exact (spends_trans _ _ _ Ho IH).
Qed.

(** An object after which the lock is still available did not take it:
    it left the input alone and, if an orb, did not fire. *)
Lemma collideObject_unfired (props : Props) (ctx : TickCtx) (o : LevelObject.t)
    (w w' : World) :
  collideObject props ctx o w = Continue w' ->
  canOrbJump (player w') = true ->
  input w' = input w /\ canOrbJump (player w) = true /\
  (isOrb (LevelObject.type o) = true -> orbFires ctx o w = false).
Proof.
  unfold collideObject.
  destruct (isOrb (LevelObject.type o)) eqn:Eo.
  - unfold handleOrb. destruct (orbFires ctx o w) eqn:Hf.
    + intros [= <-] Hc. simpl in Hc.
      rewrite canOrbJump_orbEffect in Hc. discriminate.
    + intros [= <-] Hc. auto.
  - destruct (isPortal (LevelObject.type o)).
    + unfold handlePortal, gravityPortal, speedPortal.
      intros [= <-]. split_ifs; simpl; intro Hc;
        (repeat split; [exact Hc | discriminate]).
    + unfold handleSolid, handleBlock.
      split_ifs;
        repeat match goal with H : (_, _) = (_, _) |- _ => inversion H; clear H; subst end;
        try discriminate;
        intros [= <-]; simpl; intro Hc;
        (repeat split; [exact Hc | discriminate]).
Qed.

Lemma gate_ext (w w' : World) :
  input w' = input w -> canOrbJump (player w') = canOrbJump (player w) ->
  gate w' = gate w.
Proof. unfold gate. now intros -> ->. Qed.

Lemma collide_unfired (props : Props) (ctx : TickCtx) (pre : list LevelObject.t)
    (w wi : World) :
  collide props ctx pre w = Continue wi ->
  canOrbJump (player wi) = true ->
  input wi = input w /\ canOrbJump (player w) = true /\
  (forall o', In o' pre -> isOrb (LevelObject.type o') = true ->
              orbInRange ctx o' && gate w = false).
Proof.
  revert w. induction pre as [|o pre IH]; intros w; simpl.
  - intros [= <-] Hc. repeat split; auto. intros o' [].
  - destruct (collideObject props ctx o w) as [w1|w1] eqn:Ho; [|discriminate].
    intros Hrest Hc.
    destruct (IH w1 Hrest Hc) as (Hi & Hc1 & Hpre).
    destruct (collideObject_unfired props ctx o w w1 Ho Hc1) as (Hi1 & Hc0 & Hun).
    repeat split.
    + congruence.
    + exact Hc0.
    + intros o' [<- | Hin] Horb.
      * rewrite <- orbFires_gate. now apply Hun.
      * rewrite <- (gate_ext w w1) by congruence. now apply Hpre.
Qed.

(** An object that is not an orb in range leaves input and lock alone. *)
Lemma collideObject_quiet (props : Props) (ctx : TickCtx) (o : LevelObject.t)
    (w w' : World) :
  collideObject props ctx o w = Continue w' ->
  (isOrb (LevelObject.type o) = true -> orbInRange ctx o = false) ->
  input w' = input w /\ canOrbJump (player w') = canOrbJump (player w).
Proof.
  unfold collideObject.
  destruct (isOrb (LevelObject.type o)) eqn:Eo.
  - intros [= <-] Hr. unfold handleOrb. rewrite orbFires_gate, Hr by reflexivity.
    simpl. auto.
  - intros H _. revert H. destruct (isPortal (LevelObject.type o)).
    + unfold handlePortal, gravityPortal, speedPortal.
      intros [= <-]. split_ifs; simpl; auto.
    + unfold handleSolid, handleBlock.
      split_ifs;
        repeat match goal with H : (_, _) = (_, _) |- _ => inversion H; clear H; subst end;
        try discriminate;
        intros [= <-]; simpl; auto.
Qed.

Lemma collide_quiet (props : Props) (ctx : TickCtx) (pre : list LevelObject.t)
    (w wi : World) :
  collide props ctx pre w = Continue wi ->
  (forall o', In o' pre -> isOrb (LevelObject.type o') = true ->
              orbInRange ctx o' = false) ->
  input wi = input w /\ canOrbJump (player wi) = canOrbJump (player w).
Proof.
  revert w. induction pre as [|o pre IH]; intros w; simpl.
  - intros [= <-] _. auto.
  - destruct (collideObject props ctx o w) as [w1|w1] eqn:Ho; [|discriminate].
    intros Hrest Hpre.
    destruct (IH w1 Hrest (fun o' Hin => Hpre o' (or_intror Hin))) as [Hi Hc].
    destruct (collideObject_quiet props ctx o w w1 Ho (Hpre o (or_introl eq_refl)))
      as [Hi1 Hc1].
    split; congruence.
Qed.

Lemma applySpeed_applyGravity_keeps (g : Q) (w : World) :
  input (applySpeed (applyGravity g w)) = input w /\
  canOrbJump (player (applySpeed (applyGravity g w))) = canOrbJump (player w) /\
  isGrounded (player (applySpeed (applyGravity g w))) = isGrounded (player w).
Proof. unfold applySpeed, applyGravity. split_ifs; auto. Qed.

Lemma rotate_advanceX_clamp_keeps (g : Q) (w : World) :
  input (rotate g (advanceX (clampVelocity g w))) = input w /\
  canOrbJump (player (rotate g (advanceX (clampVelocity g w)))) =
  canOrbJump (player w).
Proof. unfold rotate, advanceX, clampVelocity. split_ifs; auto. Qed.

(** An airborne player reaches the loop with input and lock untouched. *)
Lemma loopEntry_airborne (props : Props) (lvl : LevelData.t) (w : World) :
  isGrounded (player w) = false ->
  input (loopEntry props lvl w) = input w /\
  canOrbJump (player (loopEntry props lvl w)) = canOrbJump (player w).
Proof.
  intro Hg. unfold loopEntry, beforeLoop.
  set (g := gravityScale (player w)).
  pose proof (player_recordTrail props w) as Hp.
  pose proof (input_recordTrail props w) as Hi0.
  set (w1 := recordTrail props w) in *.
  assert (Hg1 : isGrounded (player w1) = false) by now rewrite Hp.
  assert (Hs : stabilityCheck lvl g w1 = w1).
  { unfold stabilityCheck. now rewrite Hg1. }
  rewrite Hs. unfold physics.
  destruct (applySpeed_applyGravity_keeps g w1) as (Hi & Hc & Hgr).
  assert (Hj : groundJump g (applySpeed (applyGravity g w1)) =
               applySpeed (applyGravity g w1)).
  { unfold groundJump. rewrite Hgr, Hg1. now rewrite andb_false_r. }
  rewrite Hj.
  destruct (rotate_advanceX_clamp_keeps g (applySpeed (applyGravity g w1)))
    as (Hi2 & Hc2).
  unfold advanceY. simpl. split; congruence.
Qed.

Lemma lock_le_1 (w : World) : (lock w <= 1)%nat.
Proof. unfold lock. destruct (canOrbJump (player w)); lia. Qed.

Lemma update_emits (props : Props) (lvl : LevelData.t) (w : World) :
  exists cbs, emits w (update props lvl w) cbs.
Proof.
  destruct (isDead (player w)) eqn:Hd.
  - eexists. now apply update_emits_dead.
  - eexists. now apply update_emits_alive.
Qed.

Lemma emits_inputs_held (evs : list InputEvent) (w : World) :
  Forall (fun e => e = Press) evs ->
  emits w (fold_left handleInput evs w) [].
Proof.
  intro H. revert w. induction H as [|e evs -> _ IH]; intro w; simpl.
  - apply emits_quiet; reflexivity.
  - refine (emits_trans _ _ _ [] [] _ (IH _)).
    apply emits_quiet; reflexivity.
Qed.

Lemma emits_run_held (props : Props) (lvl : LevelData.t)
    (frames : list (list InputEvent)) (w : World) :
  held frames ->
  exists cbs, emits w (run props lvl frames w) cbs.
Proof.
  intro H. unfold run. revert w.
  induction H as [|evs frames Hevs _ IH]; intro w; simpl.
  - exists []. apply emits_quiet; reflexivity.
  - destruct (update_emits props lvl (fold_left handleInput evs w)) as [c1 H1].
    destruct (IH (frame props lvl w evs)) as [c2 H2].
    eexists.
    exact (emits_trans _ _ _ _ _
             (emits_trans _ _ _ _ _ (emits_inputs_held evs w Hevs) H1) H2).
Qed.

(** The tick of an airborne player with the lock available and the jump
    control just pressed, whose loop reaches an orb in range: exactly
    one orb burst, and the lock is gone. *)
Lemma tick_fires (props : Props) (lvl : LevelData.t) (w : World)
    (pre post : list LevelObject.t) (o : LevelObject.t) (wi : World) :
  isDead (player w) = false ->
  isGrounded (player w) = false ->
  canOrbJump (player w) = true ->
  jumpPressedThisFrame (input w) = true ->
  LevelData.objects lvl = pre ++ o :: post ->
  isOrb (LevelObject.type o) = true ->
  collide props (loopCtx props lvl (tickStart w)) pre
          (loopEntry props lvl (tickStart w)) = Continue wi ->
  orbInRange (loopCtx props lvl (tickStart w)) o = true ->
  exists evs,
    emitted (update props lvl w) = emitted w ++ evs /\
    orbBursts evs = 1%nat /\ lock (update props lvl w) = 0%nat.
Proof.
  intros Hd Hg Hc Hp Hobjs Horb Hpre Hin.
  set (ctx := loopCtx props lvl (tickStart w)) in *.
  set (e := loopEntry props lvl (tickStart w)) in *.
  (* up to the loop *)
  destruct (loopEntry_airborne props lvl (tickStart w)) as [Hie Hce].
  { now rewrite player_tickStart. }
  fold e in Hie, Hce. rewrite input_tickStart in Hie.
  rewrite player_tickStart in Hce.
  assert (Hle : lock e = 1%nat) by (unfold lock; now rewrite Hce, Hc).
  destruct (emits_trans _ _ _ _ _ (emits_tickStart w)
              (emits_loopEntry props lvl (tickStart w)))
    as (ev0 & He0 & _ & Hl0).
  fold e in He0, Hl0.
  assert (Hb0 : orbBursts ev0 = 0%nat).
  { pose proof (lock_le_1 w). lia. }
  (* the orb [o] leaves no lock behind *)
  set (w2 := handleOrb ctx o wi).
  assert (Ho : collideObject props ctx o wi = Continue w2).
  { unfold collideObject. now rewrite Horb. }
  assert (Hl2 : lock w2 = 0%nat).
  { destruct (canOrbJump (player wi)) eqn:Hci.
    - destruct (collide_unfired props ctx pre e wi Hpre Hci) as (Hii & _ & _).
      unfold w2, handleOrb. rewrite orbFires_gate, Hin.
      unfold gate. rewrite Hii, Hie, Hp, Hci. simpl.
      unfold lock. simpl. now rewrite canOrbJump_orbEffect.
    - destruct (spends_handleOrb ctx o wi) as (ev & _ & Hl).
      fold w2 in Hl. unfold lock in Hl at 2. rewrite Hci in Hl. lia. }
  (* the loop as a whole *)
  pose proof (spends_collide props ctx (LevelData.objects lvl) e) as Hloop.
  pose proof (emits_collide props ctx post w2) as Hpost.
  assert (Hrun : runLoop props lvl (tickStart w) =
                 collide props ctx post w2).
  { unfold runLoop. fold ctx e. rewrite Hobjs.
    now rewrite (collide_reach _ _ _ _ _ _ _ Hpre), Ho. }
  assert (Hrun' := Hrun).
  unfold runLoop in Hrun. fold ctx e in Hrun. rewrite Hrun in Hloop.
  rewrite update_alive by exact Hd. unfold simulate. rewrite Hrun'.
  destruct (collide props ctx post w2) as [w3|w3].
  - destruct Hpost as (ev3 & _ & _ & Hl3).
    destruct Hloop as (ev1 & He1 & Hl1).
    destruct (emits_afterCollisions props lvl
                (gravityScale (player (tickStart w))) w3) as (ev2 & He2 & _ & Hl4).
    { apply (runLoop_alive _ _ _ _
               (eq_trans (f_equal isDead (player_tickStart w)) Hd) Hrun'). }
    exists (ev0 ++ ev1 ++ ev2). repeat split.
    + rewrite He2, He1, He0. now rewrite !app_assoc.
    + unfold orbBursts in *. rewrite !countIf_app. lia.
    + lia.
  - destruct Hpost as (ev3 & _ & _ & Hl3).
    destruct Hloop as (ev1 & He1 & Hl1).
    exists (ev0 ++ ev1). repeat split.
    + rewrite He1, He0. now rewrite !app_assoc.
    + unfold orbBursts in *. rewrite !countIf_app. lia.
    + lia.
Qed.

Lemma emitted_handleOrb_fires (ctx : TickCtx) (o : LevelObject.t) (w : World) :
  orbFires ctx o w = true ->
  emitted (handleOrb ctx o w) =
  emitted w ++ [SpawnParticles (centerX o) (centerY o) 15
                  (orbColor (LevelObject.type o)) 1].
Proof. intro H. unfold handleOrb. rewrite H. reflexivity. Qed.

(** C4, as amended.  (1) A call of [update] activates at most one orb.
    (2) Over any sequence of frames in which the jump control is not
    released, at most one orb activates in total.  (3) When the loop of
    a tick reaches an orb [o]: if [o] activates, no orb earlier in the
    order of the level objects was in range, and the activation
    requests the burst at the centre of [o]; and if no earlier orb was
    in range, [o] activates exactly when it is in range and the input
    guard (pressed this frame, or held with the lock available; and the
    lock available) held on entry to the loop.  (4) For a living
    player that is airborne, has the lock available and
    [jumpPressedThisFrame] set, and whose tick reaches an orb in
    range: exactly one orb activates over that tick and all the frames
    that follow while the control is not released. *)
Theorem orb_single_activation (props : Props) (lvl : LevelData.t) :
  (forall w, (orbBursts (since w (update props lvl w)) <= 1)%nat) /\
  (forall w frames, held frames ->
     (orbBursts (since w (run props lvl frames w)) <= 1)%nat) /\
  (forall w pre o post wi,
     isDead (player w) = false ->
     LevelData.objects lvl = pre ++ o :: post ->
     isOrb (LevelObject.type o) = true ->
     collide props (loopCtx props lvl (tickStart w)) pre
             (loopEntry props lvl (tickStart w)) = Continue wi ->
     let ctx := loopCtx props lvl (tickStart w) in
     let noneBefore :=
       forall o', In o' pre -> isOrb (LevelObject.type o') = true ->
                  orbInRange ctx o' = false in
     (orbFires ctx o wi = true ->
        noneBefore /\
        emitted (handleOrb ctx o wi) =
        emitted wi ++ [SpawnParticles (centerX o) (centerY o) 15
                         (orbColor (LevelObject.type o)) 1]) /\
     (noneBefore ->
        orbFires ctx o wi =
        orbInRange ctx o && gate (loopEntry props lvl (tickStart w)))) /\
  (forall w pre o post wi rest,
     isDead (player w) = false ->
     isGrounded (player w) = false ->
     canOrbJump (player w) = true ->
     jumpPressedThisFrame (input w) = true ->
     LevelData.objects lvl = pre ++ o :: post ->
     isOrb (LevelObject.type o) = true ->
     collide props (loopCtx props lvl (tickStart w)) pre
             (loopEntry props lvl (tickStart w)) = Continue wi ->
     orbInRange (loopCtx props lvl (tickStart w)) o = true ->
     held rest ->
     orbBursts (since w (run props lvl rest (update props lvl w))) = 1%nat).
Proof.
  split; [|split; [|split]].
  - intro w. destruct (update_emits props lvl w) as [cbs H].
    destruct (emits_since _ _ _ H) as (_ & _ & Hl).
    pose proof (lock_le_1 w). lia.
  - intros w frames Hh.
    destruct (emits_run_held props lvl frames w Hh) as [cbs H].
    destruct (emits_since _ _ _ H) as (_ & _ & Hl).
    pose proof (lock_le_1 w). lia.
  - intros w pre o post wi Hd Hobjs Horb Hpre ctx noneBefore. split.
    + intro Hf. split; [|now apply emitted_handleOrb_fires].
      rewrite orbFires_gate in Hf. apply andb_true_iff in Hf.
      destruct Hf as [_ Hgate].
      assert (Hc : canOrbJump (player wi) = true).
      { unfold gate in Hgate. now apply andb_true_iff in Hgate. }
      destruct (collide_unfired props ctx pre _ wi Hpre Hc) as (Hi & Hce & Hun).
      intros o' Hin Ho'. specialize (Hun o' Hin Ho').
      rewrite <- (gate_ext (loopEntry props lvl (tickStart w)) wi) in Hun
        by congruence.
      rewrite Hgate, andb_true_r in Hun. exact Hun.
    + intro Hnone.
      destruct (collide_quiet props ctx pre _ wi Hpre Hnone) as [Hi Hc].
      rewrite orbFires_gate. f_equal. now apply gate_ext.
  - intros w pre o post wi rest Hd Hg Hc Hp Hobjs Horb Hpre Hin Hh.
    destruct (tick_fires props lvl w pre post o wi Hd Hg Hc Hp Hobjs Horb Hpre Hin)
      as (ev1 & He1 & Hb1 & Hl1).
    destruct (emits_run_held props lvl rest (update props lvl w) Hh)
      as (cbs & ev2 & He2 & _ & Hl2).
    rewrite (since_app w _ (ev1 ++ ev2)).
    + unfold orbBursts in *. rewrite countIf_app. lia.
    + now rewrite He2, He1, app_assoc.
Qed.

Lemma orb_single_activation_witness :
  orbBursts (since airborneAtOrb
               (run playProps orbAboveLevel (idle 5)
                    (update playProps orbAboveLevel airborneAtOrb))) = 1%nat.
Proof.
  refine (proj2 (proj2 (proj2 (orb_single_activation playProps orbAboveLevel)))
            airborneAtOrb [] orbAbove [] _ (idle 5) _ _ _ _ _ _ _ _ _).
  - reflexivity.
  - reflexivity.
  - reflexivity.
  - reflexivity.
  - reflexivity.
  - reflexivity.
  - reflexivity.
  - vm_compute. reflexivity.
  - repeat constructor.
Defined.

(** ** C3 *)

(** C3, the code at the failing input.  A single jump from the start of
    the run, over a level with one block whose top plane is at
    [y = -96].  Before the 23rd tick the player is alive, airborne and
    falling, with its vertical position at [-66]: 30px past the landing
    plane.  The 23rd tick moves it into the side of the block; [prevY],
    which the source computes before the vertical advance as the old
    position minus the new velocity, is [-86], within 15px of the
    plane, so the landing is accepted: the player is alive, grounded
    and snapped to [y = -96]. *)
Lemma landing_accepted_past_tolerance :
  let before := run playProps blockLevel (jumpFrames 20) initialWorld in
  let ctx := loopCtx playProps blockLevel (tickStart before) in
  let after := update playProps blockLevel before in
  (isDead (player before) = false /\ isGrounded (player before) = false /\
   posY before == -66 /\ velY before == 18) /\
  (- LevelObject.y blockAt5 * TILE_SIZE == -96 /\
   checkCollision (pRect ctx) (hitBox blockAt5) = true /\
   prevY ctx == -86) /\
  (isDead (player after) = false /\ isGrounded (player after) = true /\
   posY after == -96 /\ velY after == 0).
Proof. vm_compute. repeat split. Qed.

(** ** C8 *)

Ltac mirror_unfold :=
  unfold mirrored, mirroredPlayer, mirrorY, ceilingY, upright, settled,
    posX, posY, velX, velY, upd_player,
    set_position_x, set_position_y, set_velocity_x, set_velocity_y,
    CEILING_HEIGHT, TILE_SIZE, GRAVITY, JUMP_FORCE, MOVE_SPEED,
    TERMINAL_VELOCITY in *;
  cbn [player input position velocity isGrounded isDead rotation gravityScale
       canOrbJump speedMultiplier lastPortalX Vector2.x Vector2.y
       set_player set_input set_position set_velocity set_isGrounded
       set_isDead set_rotation set_gravityScale set_canOrbJump
       set_speedMultiplier set_lastPortalX emit set_shake set_camera
       set_time set_recordedTrail jump jumpPressedThisFrame] in *;
  change (48 / 2) with (48 # 2) in *.

Ltac mirror_close :=
  solve [ repeat split; first [assumption | reflexivity | lra | congruence]
        | exfalso; lra
        | exfalso; congruence ].

Ltac mirror_cases :=
  repeat (first
    [ qcase
    | boolcase
    | match goal with
      | |- context [if ?b then _ else _] => destruct b
      end ];
    cbn [andb orb negb] in *; mirror_unfold).

Ltac mirror_intro H :=
  open_worlds; mirror_unfold;
  destruct H as ((?Hx & ?Hy & ?Hvx & ?Hvy & ?Hgr & ?Hd & ?Hgs & ?Hc & ?Hs & ?Hl) & ?Hi);
  try match goal with Hi : {| jump := _; jumpPressedThisFrame := _ |} = _ |- _ =>
    injection Hi as ? ? end;
  subst.

Lemma mirrored_applyGravity (g g' : Q) (w w' : World) :
  g' == - g -> mirrored w w' ->
  mirrored (applyGravity g w) (applyGravity g' w').
Proof.
  intros Hg H. unfold applyGravity. mirror_intro H.
  mirror_cases; mirror_close.
Qed.

Lemma mirrored_applySpeed (w w' : World) :
  mirrored w w' -> mirrored (applySpeed w) (applySpeed w').
Proof.
  intros H. unfold applySpeed. mirror_intro H.
  mirror_cases; mirror_close.
Qed.

Lemma mirrored_groundJump (g g' : Q) (w w' : World) :
  g' == - g -> mirrored w w' ->
  mirrored (groundJump g w) (groundJump g' w').
Proof.
  intros Hg H. unfold groundJump. mirror_intro H.
  mirror_cases; mirror_close.
Qed.

Lemma mirrored_clampVelocity (g g' : Q) (w w' : World) :
  g == 1 \/ g == -1 -> g' == - g -> mirrored w w' ->
  mirrored (clampVelocity g w) (clampVelocity g' w').
Proof.
  intros Hu Hg H. unfold clampVelocity. mirror_intro H.
  mirror_cases; mirror_close.
Qed.

Lemma mirrored_advanceX (w w' : World) :
  mirrored w w' -> mirrored (advanceX w) (advanceX w').
Proof.
  intros H. unfold advanceX. mirror_intro H.
  mirror_cases; mirror_close.
Qed.

Lemma mirrored_rotate (g g' : Q) (w w' : World) :
  mirrored w w' -> mirrored (rotate g w) (rotate g' w').
Proof.
  intros H. unfold rotate. mirror_intro H.
  mirror_cases; mirror_close.
Qed.

Lemma mirrored_physics (g g' : Q) (w w' : World) :
  g == 1 \/ g == -1 -> g' == - g -> mirrored w w' ->
  mirrored (physics g w) (physics g' w').
Proof.
  intros Hu Hg H. unfold physics.
  apply mirrored_rotate, mirrored_advanceX, mirrored_clampVelocity; auto.
  apply mirrored_groundJump; auto.
  apply mirrored_applySpeed, mirrored_applyGravity; auto.
Qed.

Lemma mirrored_advanceY (w w' : World) :
  mirrored w w' -> mirrored (advanceY w) (advanceY w').
Proof.
  intros H. unfold advanceY. mirror_intro H.
  mirror_cases; mirror_close.
Qed.

Lemma type_mirrorObject (o : LevelObject.t) :
  LevelObject.type (mirrorObject o) = LevelObject.type o.
Proof. reflexivity. Qed.

Lemma blockSupports_mirror (g g' pX pX' y y' : Q) (o : LevelObject.t) :
  g == 1 \/ g == -1 -> g' == - g -> pX' == pX -> y' == mirrorY y ->
  blockSupports g' pX' y' (mirrorObject o) = blockSupports g pX y o.
Proof.
  intros Hu Hg Hx Hy. unfold blockSupports.
  rewrite type_mirrorObject.
  destruct (LevelObject.type o) eqn:Et; try reflexivity.
  unfold mirrorObject, mirrorRow, Math_abs. rewrite Et.
  cbn [LevelObject.x LevelObject.y isBlock].
  unfold mirrorY, ceilingY, CEILING_HEIGHT, TILE_SIZE in *.
  repeat (qcase; cbn [andb]); try reflexivity;
    repeat match goal with
    | H : Qabs _ < _ |- _ => apply Qabs_Qlt_condition in H
    | H : ~ Qabs _ < _ |- _ => rewrite Qabs_Qlt_condition in H
    end;
    exfalso; lra.
Qed.

Lemma existsb_map_ext {A : Type} (f f' : A -> bool) (m : A -> A) (l : list A) :
  (forall a, f' (m a) = f a) ->
  existsb f' (map m l) = existsb f l.
Proof.
  intro H. induction l as [|a l IH]; simpl; [reflexivity|].
  now rewrite H, IH.
Qed.

Lemma mirrored_stabilityCheck (lvl : LevelData.t) (g g' : Q) (w w' : World) :
  LevelData.gameMode lvl = CLASSIC ->
  g == 1 \/ g == -1 -> g' == - g ->
  settled w -> mirrored w w' ->
  mirrored (stabilityCheck lvl g w) (stabilityCheck (mirrorLevel lvl) g' w').
Proof.
  intros Hm Hu Hg Hs H. unfold stabilityCheck.
  cbn [mirrorLevel LevelData.gameMode LevelData.objects]. rewrite Hm.
  assert (E : existsb (blockSupports g' (posX w' + TILE_SIZE / 2) (posY w'))
                      (map mirrorObject (LevelData.objects lvl)) =
              existsb (blockSupports g (posX w + TILE_SIZE / 2) (posY w))
                      (LevelData.objects lvl)).
  { apply existsb_map_ext. intro o.
    destruct H as ((Hx & Hy & _) & _).
    apply blockSupports_mirror; auto.
    unfold posX. rewrite Hx. reflexivity. }
  rewrite E.
  generalize (existsb (blockSupports g (posX w + TILE_SIZE / 2) (posY w))
                      (LevelData.objects lvl)).
  intro B. clear E.
  mirror_intro H.
  mirror_cases; try mirror_close.
Qed.

Lemma mirroredCtx_tickCtx (g g' : Q) (w w' : World) :
  g' == - g -> mirrored w w' ->
  mirroredCtx (tickCtx g w) (tickCtx g' w').
Proof.
  intros Hg H. unfold mirroredCtx, mirroredRect, tickCtx, advanceY.
  cbn [gravityMult prevY pRect pCenterX pCenterY Rect.x Rect.y Rect.w Rect.h].
  mirror_intro H. repeat split; lra.
Qed.

Lemma checkCollision_mirror (r1 r1' r2 r2' : Rect.t) :
  mirroredRect r1 r1' -> mirroredRect r2 r2' ->
  checkCollision r1' r2' = checkCollision r1 r2.
Proof.
  intros (Hx1 & Hw1 & Hh1 & Hy1) (Hx2 & Hw2 & Hh2 & Hy2).
  apply eq_true_iff_eq. rewrite !checkCollision_true. lra.
Qed.

Lemma hitBox_mirror (o : LevelObject.t) :
  isPortal (LevelObject.type o) = false ->
  mirroredRect (hitBox o) (hitBox (mirrorObject o)).
Proof.
  unfold mirroredRect, hitBox, mirrorObject, mirrorRow, ceilingY,
    CEILING_HEIGHT, TILE_SIZE.
  cbn [LevelObject.type LevelObject.x LevelObject.y].
  destruct (LevelObject.type o); intro Hp; try discriminate;
    cbn [Rect.x Rect.y Rect.w Rect.h]; repeat split; try lra; field; lra.
Qed.

Lemma portalRect_mirror (o : LevelObject.t) :
  isPortal (LevelObject.type o) = true ->
  mirroredRect (portalRect o) (portalRect (mirrorObject o)).
Proof.
  unfold mirroredRect, portalRect, mirrorObject, mirrorRow, ceilingY,
    CEILING_HEIGHT, TILE_SIZE, PORTAL_HEIGHT_BLOCKS.
  cbn [LevelObject.type LevelObject.x LevelObject.y].
  destruct (LevelObject.type o); intro Hp; try discriminate;
    cbn [Rect.x Rect.y Rect.w Rect.h]; repeat split; lra.
Qed.

Lemma Qltb_compat (a a' b b' : Q) :
  a == a' -> b == b' -> (a <? b) = (a' <? b').
Proof.
  intros Ha Hb. destruct (Qltb_spec a b), (Qltb_spec a' b');
    try reflexivity; exfalso; lra.
Qed.

Lemma orbInRange_mirror (c c' : TickCtx) (o : LevelObject.t) :
  isOrb (LevelObject.type o) = true ->
  mirroredCtx c c' ->
  orbInRange c' (mirrorObject o) = orbInRange c o.
Proof.
  intros Ho (_ & _ & _ & Hcx & Hcy). unfold orbInRange.
  apply Qltb_compat; [|reflexivity].
  unfold mirrorObject, mirrorRow.
  cbn [LevelObject.type LevelObject.x LevelObject.y].
  assert (Hrow : mirrorRow (LevelObject.type o) (LevelObject.y o) ==
                 CEILING_HEIGHT + 1 - LevelObject.y o).
  { unfold mirrorRow. destruct (LevelObject.type o); try discriminate;
      reflexivity. }
  unfold mirrorRow in Hrow.
  set (r := match LevelObject.type o with
            | HALF_SPIKE => _ | PORTAL_GRAVITY => _ | _ => _ end) in *.
  set (dx' := pCenterX c' - _). set (dy' := pCenterY c' - _).
  set (dx := pCenterX c - _). set (dy := pCenterY c - _).
  assert (Edx : dx' == dx).
  { unfold dx, dx', TILE_SIZE in *. change (48 / 2) with (48 # 2) in *. lra. }
  assert (Edy : dy' == - dy).
  { unfold dy, dy', ceilingY, CEILING_HEIGHT, TILE_SIZE in *.
    change (48 / 2) with (48 # 2) in *. lra. }
  rewrite Edx, Edy. ring.
Qed.

Lemma gate_mirror (w w' : World) : mirrored w w' -> gate w' = gate w.
Proof.
  intros ((_ & _ & _ & _ & _ & _ & _ & Hc & _) & Hi).
  now apply gate_ext.
Qed.

Lemma mirrored_handleOrb (c c' : TickCtx) (o : LevelObject.t) (w w' : World) :
  isOrb (LevelObject.type o) = true ->
  mirroredCtx c c' -> mirrored w w' ->
  mirrored (handleOrb c o w) (handleOrb c' (mirrorObject o) w').
Proof.
  intros Ho Hc H. unfold handleOrb.
  rewrite !orbFires_gate, (orbInRange_mirror c c' o Ho Hc), (gate_mirror w w' H).
  destruct (orbInRange c o && gate w); [|exact H].
  rewrite type_mirrorObject.
  destruct Hc as (Hg & _).
  destruct c as [g py r cx cy], c' as [g' py' r' cx' cy'].
  cbn [gravityMult] in Hg.
  destruct (LevelObject.type o); try discriminate;
    unfold orbEffect; cbn [gravityMult];
    mirror_intro H;
    unfold ORB_JUMP_FORCE, ORB_JUMP_PURPLE_FORCE, ORB_JUMP_RED_FORCE in *;
    mirror_close.
Qed.

Lemma lastPortalXOr_mirror (a b : option Q) (d : Q) :
  sameOpt a b -> lastPortalXOr b d == lastPortalXOr a d.
Proof.
  destruct a as [u|], b as [v|]; simpl; try tauto; try reflexivity.
  intro E. destruct (Qeqb_spec u 0), (Qeqb_spec v 0); lra.
Qed.

Lemma mirrored_gravityPortal (c c' : TickCtx) (w w' : World) :
  mirrored w w' ->
  mirrored (gravityPortal c w) (gravityPortal c' w').
Proof.
  intro H. unfold gravityPortal.
  assert (E : (Math_abs (posX w' - lastPortalXOr (lastPortalX (player w')) (-1000))
                 >? TILE_SIZE * 2) =
              (Math_abs (posX w - lastPortalXOr (lastPortalX (player w)) (-1000))
                 >? TILE_SIZE * 2)).
  { apply Qltb_compat; [reflexivity|]. unfold Math_abs. apply Qabs_wd.
    destruct H as ((Hx & _ & _ & _ & _ & _ & _ & _ & _ & Hl) & _).
    rewrite (lastPortalXOr_mirror _ _ _ Hl). unfold posX. now rewrite Hx. }
  rewrite E. clear E.
  match goal with |- context [if ?b then _ else _] => destruct b end;
    [|exact H].
  mirror_intro H. mirror_close.
Qed.

Lemma mirrored_handlePortal (c c' : TickCtx) (o : LevelObject.t) (w w' : World) :
  isPortal (LevelObject.type o) = true ->
  mirroredCtx c c' -> mirrored w w' ->
  mirrored (handlePortal c o w) (handlePortal c' (mirrorObject o) w').
Proof.
  intros Hp Hc H. unfold handlePortal.
  assert (Hr : mirroredRect (pRect c) (pRect c')) by apply Hc.
  rewrite (checkCollision_mirror _ _ _ _ Hr (portalRect_mirror o Hp)).
  destruct (checkCollision _ _); [|exact H].
  rewrite type_mirrorObject.
  assert (H1 : mirrored (upd_player (speedPortal (LevelObject.type o)) w)
                        (upd_player (speedPortal (LevelObject.type o)) w')).
  { destruct (LevelObject.type o); unfold speedPortal;
      mirror_intro H; mirror_close. }
  destruct (LevelObject.type o); try exact H1.
  now apply mirrored_gravityPortal.
Qed.

Lemma mirrored_crash (props : Props) (w w' : World) :
  mirrored w w' -> mirrored (crash props w) (crash props w').
Proof.
  intro H. unfold crash, reportDeath. mirror_intro H. mirror_close.
Qed.

Lemma mirrored_handleBlock (props : Props) (c c' : TickCtx) (o : LevelObject.t)
    (w w' : World) :
  LevelObject.type o = BLOCK ->
  gravityMult c == 1 \/ gravityMult c == -1 ->
  mirroredCtx c c' -> mirrored w w' ->
  mirroredFlow (handleBlock props c o w)
               (handleBlock props c' (mirrorObject o) w').
Proof.
  intros Ht Hu (Hg & Hp & _) H. unfold handleBlock.
  unfold mirrorObject, mirrorRow. rewrite Ht.
  cbn [LevelObject.type LevelObject.x LevelObject.y].
  destruct c as [g py r cx cy], c' as [g' py' r' cx' cy'].
  cbn [gravityMult prevY] in *.
  set (row := LevelObject.y o) in *. clearbody row.
  unfold crash, reportDeath.
  mirror_intro H.
  mirror_cases; unfold mirroredFlow; mirror_unfold; mirror_close.
Qed.

Lemma mirrored_collideObject (props : Props) (c c' : TickCtx) (o : LevelObject.t)
    (w w' : World) :
  gravityMult c == 1 \/ gravityMult c == -1 ->
  mirroredCtx c c' -> mirrored w w' ->
  mirroredFlow (collideObject props c o w)
               (collideObject props c' (mirrorObject o) w').
Proof.
  intros Hu Hc H. unfold collideObject. rewrite type_mirrorObject.
  destruct (isOrb (LevelObject.type o)) eqn:Eo.
  { now apply mirrored_handleOrb. }
  destruct (isPortal (LevelObject.type o)) eqn:Ep.
  { now apply mirrored_handlePortal. }
  unfold handleSolid. rewrite type_mirrorObject.
  assert (Hr : mirroredRect (pRect c) (pRect c')) by apply Hc.
  rewrite (checkCollision_mirror _ _ _ _ Hr (hitBox_mirror o Ep)).
  destruct (checkCollision _ _); [|exact H].
  destruct (isLethal (LevelObject.type o)).
  { now apply mirrored_crash. }
  destruct (isBlock (LevelObject.type o)) eqn:Eb; [|exact H].
  apply mirrored_handleBlock; auto.
  destruct (LevelObject.type o); try discriminate; reflexivity.
Qed.

Lemma mirrored_collide (props : Props) (c c' : TickCtx)
    (objs : list LevelObject.t) (w w' : World) :
  gravityMult c == 1 \/ gravityMult c == -1 ->
  mirroredCtx c c' -> mirrored w w' ->
  mirroredFlow (collide props c objs w)
               (collide props c' (map mirrorObject objs) w').
Proof.
  intros Hu Hc. revert w w'.
  induction objs as [|o objs IH]; intros w w' H; simpl; [exact H|].
  pose proof (mirrored_collideObject props c c' o w w' Hu Hc H) as Ho.
  destruct (collideObject props c o w) as [w1|w1],
           (collideObject props c' (mirrorObject o) w') as [w1'|w1'];
    simpl in Ho; try contradiction.
  - now apply IH.
  - exact Ho.
Qed.

Lemma mirrored_floorCeiling (props : Props) (lvl : LevelData.t) (g g' : Q)
    (w w' : World) :
  LevelData.gameMode lvl = CLASSIC ->
  g == 1 \/ g == -1 -> g' == - g -> mirrored w w' ->
  mirrored (floorCeiling props lvl g w)
           (floorCeiling props (mirrorLevel lvl) g' w').
Proof.
  intros Hm Hu Hg H. unfold floorCeiling.
  cbn [mirrorLevel LevelData.gameMode]. rewrite Hm.
  mirror_intro H.
  mirror_cases; mirror_close.
Qed.

Lemma mirrored_same (w w' u u' : World) :
  player u = player w -> input u = input w ->
  player u' = player w' -> input u' = input w' ->
  mirrored w w' -> mirrored u u'.
Proof. unfold mirrored. now intros -> -> -> ->. Qed.

Lemma input_afterCollisions (props : Props) (lvl : LevelData.t) (g : Q)
    (w : World) :
  input (afterCollisions props lvl g w) =
  mkInput (jump (input (floorCeiling props lvl g w))) false.
Proof.
  unfold afterCollisions. now rewrite input_winCheck, input_updateCamera.
Qed.

Lemma mirrored_afterCollisions (props : Props) (lvl : LevelData.t) (g g' : Q)
    (w w' : World) :
  LevelData.gameMode lvl = CLASSIC ->
  g == 1 \/ g == -1 -> g' == - g -> mirrored w w' ->
  mirrored (afterCollisions props lvl g w)
           (afterCollisions props (mirrorLevel lvl) g' w').
Proof.
  intros Hm Hu Hg H.
  pose proof (mirrored_floorCeiling props lvl g g' w w' Hm Hu Hg H) as [Hp Hi].
  split.
  - now rewrite !player_afterCollisions.
  - now rewrite !input_afterCollisions, Hi.
Qed.

Lemma settled_same (w u : World) :
  player u = player w -> settled w -> settled u.
Proof. unfold settled, posY. now intros ->. Qed.

(** One call of [update] on mirror images gives mirror images. *)
Lemma mirrored_update (props : Props) (lvl : LevelData.t) (w w' : World) :
  LevelData.gameMode lvl = CLASSIC ->
  upright w -> settled w -> mirrored w w' ->
  mirrored (update props lvl w) (update props (mirrorLevel lvl) w').
Proof.
  intros Hm Hu Hs H.
  assert (Hd : isDead (player w') = isDead (player w)) by apply H.
  assert (Hg : gravityScale (player w') == - gravityScale (player w)) by apply H.
  destruct (isDead (player w)) eqn:Ed.
  - rewrite !update_dead by congruence.
    revert H. apply mirrored_same; simpl;
      auto using player_tickStart, input_tickStart.
  - rewrite !update_alive by congruence.
    unfold simulate, runLoop, loopCtx, loopEntry, beforeLoop.
    rewrite !player_tickStart.
    set (g := gravityScale (player w)) in *.
    set (g' := gravityScale (player w')) in *.
    assert (H0 : mirrored (recordTrail props (tickStart w))
                          (recordTrail props (tickStart w'))).
    { revert H. apply mirrored_same;
        rewrite ?player_recordTrail, ?input_recordTrail;
        auto using player_tickStart, input_tickStart. }
    assert (Hs0 : settled (recordTrail props (tickStart w))).
    { revert Hs. apply settled_same.
      now rewrite player_recordTrail, player_tickStart. }
    pose proof (mirrored_stabilityCheck lvl g g' _ _ Hm Hu Hg Hs0 H0) as H1.
    pose proof (mirrored_physics g g' _ _ Hu Hg H1) as H2.
    pose proof (mirroredCtx_tickCtx g g' _ _ Hg H2) as Hc.
    pose proof (mirrored_advanceY _ _ H2) as H3.
    assert (H4 := mirrored_collide props
                    (tickCtx g (physics g (stabilityCheck lvl g
                       (recordTrail props (tickStart w)))))
                    (tickCtx g' (physics g' (stabilityCheck (mirrorLevel lvl) g'
                       (recordTrail props (tickStart w')))))
                    (LevelData.objects lvl) _ _ Hu Hc H3).
    cbn [mirrorLevel LevelData.objects] in *.
    destruct (collide props _ (LevelData.objects lvl) _) as [w1|w1],
             (collide props _ (map mirrorObject (LevelData.objects lvl)) _)
               as [w1'|w1'];
      simpl in H4; try contradiction.
    + now apply mirrored_afterCollisions.
    + exact H4.
Qed.

(** *** What the mirror theorem asks of a run is kept by the run *)

Ltac one_unfold :=
  unfold upright, settled, mirrorY, ceilingY in *; sim_unfold.

Ltac one_cases :=
  repeat (first
    [ qcase
    | boolcase
    | match goal with
      | |- context [if ?b then _ else _] => destruct b
      end ];
    cbn [andb orb negb] in *; one_unfold).

Ltac one_close :=
  solve [ assumption | lra | intros; lra | intro; discriminate
        | intros; repeat split; lra
        | tauto ].

Lemma upright_same (w u : World) :
  gravityScale (player u) = gravityScale (player w) -> upright w -> upright u.
Proof. unfold upright. now intros ->. Qed.

Lemma gravityScale_loopEntry (props : Props) (lvl : LevelData.t) (w : World) :
  gravityScale (player (loopEntry props lvl w)) = gravityScale (player w).
Proof.
  unfold loopEntry, beforeLoop, advanceY, physics.
  set (g := gravityScale (player w)).
  assert (H1 : forall u, gravityScale (player (applySpeed (applyGravity g u))) =
                         gravityScale (player u)).
  { intro u. unfold applySpeed, applyGravity. split_ifs; reflexivity. }
  assert (H2 : forall u, gravityScale (player (groundJump g u)) =
                         gravityScale (player u)).
  { intro u. unfold groundJump. split_ifs; reflexivity. }
  assert (H3 : forall u, gravityScale (player (rotate g (advanceX (clampVelocity g u)))) =
                         gravityScale (player u)).
  { intro u. unfold rotate, advanceX, clampVelocity. split_ifs; reflexivity. }
  assert (H0 : forall u, gravityScale (player (stabilityCheck lvl g u)) =
                         gravityScale (player u)).
  { intro u. unfold stabilityCheck. split_ifs; reflexivity. }
  simpl. rewrite H3, H2, H1, H0. unfold g. now rewrite player_recordTrail.
Qed.

Lemma upright_collideObject (props : Props) (c : TickCtx) (o : LevelObject.t)
    (w : World) :
  upright w ->
  match collideObject props c o w with
  | Continue w' | Return w' => upright w'
  end.
Proof.
  intro H. unfold collideObject, handleOrb, handlePortal, gravityPortal,
    handleSolid, handleBlock, crash, reportDeath.
  destruct w as [[[? ?] [? ?] ? ? ? ? ? ? ?] [? ?] ? ? ? ? ?].
  destruct (LevelObject.type o); cbn [isOrb isPortal isLethal isBlock speedPortal orbEffect];
    one_unfold;
    repeat match goal with
    | |- context [if ?b then _ else _] => destruct b
    end; one_unfold; lra.
Qed.

Lemma upright_collide (props : Props) (c : TickCtx) (objs : list LevelObject.t)
    (w : World) :
  upright w ->
  match collide props c objs w with
  | Continue w' | Return w' => upright w'
  end.
Proof.
  revert w. induction objs as [|o objs IH]; intros w H; simpl; [exact H|].
  pose proof (upright_collideObject props c o w H) as Ho.
  destruct (collideObject props c o w) as [w1|w1]; [|exact Ho].
  now apply IH.
Qed.

Lemma gravityScale_afterCollisions (props : Props) (lvl : LevelData.t) (g : Q)
    (w : World) :
  gravityScale (player (afterCollisions props lvl g w)) = gravityScale (player w).
Proof.
  rewrite player_afterCollisions. unfold floorCeiling, reportDeath.
  split_ifs; reflexivity.
Qed.

Lemma upright_update (props : Props) (lvl : LevelData.t) (w : World) :
  upright w -> upright (update props lvl w).
Proof.
  intro H. destruct (isDead (player w)) eqn:Ed.
  - rewrite update_dead by exact Ed. revert H. apply upright_same.
    simpl. now rewrite player_tickStart.
  - rewrite update_alive by exact Ed. unfold simulate, runLoop.
    assert (H0 : upright (loopEntry props lvl (tickStart w))).
    { revert H. apply upright_same.
      now rewrite gravityScale_loopEntry, player_tickStart. }
    pose proof (upright_collide props (loopCtx props lvl (tickStart w))
                  (LevelData.objects lvl) _ H0) as H1.
    destruct (collide _ _ _ _) as [w1|w1]; [|exact H1].
    revert H1. apply upright_same. apply gravityScale_afterCollisions.
Qed.

Ltac ground_close :=
  unfold rests in *; one_unfold;
  try (intro; try discriminate);
  repeat match goal with
  | H : true = true -> _ |- _ => specialize (H eq_refl)
  | H : false = true -> _ |- _ => clear H
  | H : ?a = true -> _, Ht : ?a = true |- _ => specialize (H Ht)
  end;
  solve [ tauto | lra | repeat split; lra
        | repeat split; (tauto || (intros; lra)) ].

Lemma settled_stabilityCheck (lvl : LevelData.t) (g : Q) (w : World) :
  settled w -> settled (stabilityCheck lvl g w).
Proof.
  intro H. unfold stabilityCheck.
  generalize (existsb (blockSupports g (posX w + TILE_SIZE / 2) (posY w))
                      (LevelData.objects lvl)).
  intro B. open_world w. one_unfold.
  one_cases; ground_close.
Qed.

Lemma settled_applyGravity (g : Q) (w : World) :
  settled w -> settled (applyGravity g w) /\ rests (applyGravity g w).
Proof.
  intro H. unfold applyGravity. open_world w. one_unfold.
  one_cases; split; ground_close.
Qed.

Lemma settled_applySpeed (w : World) :
  settled w /\ rests w -> settled (applySpeed w) /\ rests (applySpeed w).
Proof.
  intros [H R]. unfold applySpeed. open_world w. one_unfold.
  one_cases; split; ground_close.
Qed.

Lemma settled_groundJump (g : Q) (w : World) :
  settled w /\ rests w -> settled (groundJump g w) /\ rests (groundJump g w).
Proof.
  intros [H R]. unfold groundJump. open_world w. one_unfold.
  one_cases; split; ground_close.
Qed.

Lemma settled_clampVelocity (g : Q) (w : World) :
  settled w /\ rests w ->
  settled (clampVelocity g w) /\ rests (clampVelocity g w).
Proof.
  intros [H R]. unfold clampVelocity. open_world w. one_unfold.
  one_cases; split; ground_close.
Qed.

Lemma settled_advanceX (w : World) :
  settled w /\ rests w -> settled (advanceX w) /\ rests (advanceX w).
Proof.
  intros [H R]. unfold advanceX. open_world w. one_unfold.
  one_cases; split; ground_close.
Qed.

Lemma settled_rotate (g : Q) (w : World) :
  settled w /\ rests w -> settled (rotate g w) /\ rests (rotate g w).
Proof.
  intros [H R]. unfold rotate. open_world w. one_unfold.
  one_cases; split; ground_close.
Qed.

Lemma settled_advanceY (w : World) :
  settled w /\ rests w -> settled (advanceY w).
Proof.
  intros [H R]. unfold advanceY. open_world w. one_unfold.
  one_cases; ground_close.
Qed.

Lemma settled_loopEntry (props : Props) (lvl : LevelData.t) (w : World) :
  settled w -> settled (loopEntry props lvl w).
Proof.
  intro H. unfold loopEntry, beforeLoop, physics.
  apply settled_advanceY, settled_rotate, settled_advanceX,
    settled_clampVelocity, settled_groundJump, settled_applySpeed,
    settled_applyGravity, settled_stabilityCheck.
  revert H. apply settled_same. apply player_recordTrail.
Qed.

(** A block top or bottom on an integer row is a multiple of the tile
    size: never inside the slack of the ceiling test. *)
Lemma integer_row_clear (row : Q) (z : Z) (y : Q) :
  row == inject_Z z ->
  y == - row * 48 \/ y == - row * 48 + 48 + 48 ->
  ~ (-2 <= y /\ y < 0) /\ ~ (- (12 * 48) + 48 - 0 < y /\ y <= - (12 * 48) + 48 - 0 + 2).
Proof.
  intros Hr Hy.
  assert (Hk : exists k : Z, y == inject_Z k * 48).
  { destruct Hy as [Hy|Hy].
    - exists (- z)%Z. rewrite inject_Z_opp. lra.
    - exists (2 - z)%Z. unfold Zminus. rewrite inject_Z_plus, inject_Z_opp.
      change (inject_Z 2) with 2. lra. }
  destruct Hk as [k Hk]. split; intros [H1 H2].
  - assert (A : -1 < inject_Z k) by lra.
    assert (B : inject_Z k < 0) by lra.
    change (-1) with (inject_Z (-1)) in A. change 0 with (inject_Z 0) in B.
    rewrite <- Zlt_Qlt in A, B. lia.
  - assert (A : -11 < inject_Z k) by lra.
    assert (B : inject_Z k < -10) by lra.
    change (-11) with (inject_Z (-11)) in A.
    change (-10) with (inject_Z (-10)) in B.
    rewrite <- Zlt_Qlt in A, B. lia.
Qed.

Lemma settled_collideObject (props : Props) (c : TickCtx) (o : LevelObject.t)
    (w : World) :
  (LevelObject.type o = BLOCK -> exists z : Z, LevelObject.y o == inject_Z z) ->
  settled w ->
  match collideObject props c o w with
  | Continue w' | Return w' => settled w'
  end.
Proof.
  intros Hrow H.
  unfold collideObject, handleOrb, handlePortal, gravityPortal,
    handleSolid, handleBlock, crash, reportDeath.
  open_world w.
  destruct (LevelObject.type o) eqn:Et;
    cbn [isOrb isPortal isLethal isBlock];
    try (destruct (Hrow eq_refl) as [z Hz];
         pose proof (integer_row_clear _ z (- LevelObject.y o * 48) Hz
                       (or_introl (Qeq_refl _))) as Htop;
         pose proof (integer_row_clear _ z (- LevelObject.y o * 48 + 48 + 48) Hz
                       (or_intror (Qeq_refl _))) as Hbot);
    clear Hrow;
    one_unfold;
    repeat match goal with
    | |- context [if ?b then _ else _] => destruct b
    end; one_unfold; ground_close.
Qed.

Lemma settled_collide (props : Props) (c : TickCtx) (objs : list LevelObject.t)
    (w : World) :
  (forall o, In o objs -> LevelObject.type o = BLOCK ->
             exists z : Z, LevelObject.y o == inject_Z z) ->
  settled w ->
  match collide props c objs w with
  | Continue w' | Return w' => settled w'
  end.
Proof.
  revert w. induction objs as [|o objs IH]; intros w Hrows H; simpl; [exact H|].
  pose proof (settled_collideObject props c o w (Hrows o (or_introl eq_refl)) H)
    as Ho.
  destruct (collideObject props c o w) as [w1|w1]; [|exact Ho].
  apply IH; [|exact Ho]. intros o' Hin. apply Hrows. now right.
Qed.

Lemma settled_floorCeiling (props : Props) (lvl : LevelData.t) (g : Q)
    (w : World) :
  settled w -> settled (floorCeiling props lvl g w).
Proof.
  intro H. unfold floorCeiling, reportDeath. open_world w. one_unfold.
  destruct (LevelData.gameMode lvl); one_cases; ground_close.
Qed.

Lemma settled_update (props : Props) (lvl : LevelData.t) (w : World) :
  integerRows lvl -> settled w -> settled (update props lvl w).
Proof.
  intros Hrows H. destruct (isDead (player w)) eqn:Ed.
  - rewrite update_dead by exact Ed. revert H. apply settled_same.
    simpl. now rewrite player_tickStart.
  - rewrite update_alive by exact Ed. unfold simulate, runLoop.
    assert (H0 : settled (loopEntry props lvl (tickStart w))).
    { apply settled_loopEntry. revert H. apply settled_same.
      apply player_tickStart. }
    pose proof (settled_collide props (loopCtx props lvl (tickStart w))
                  (LevelData.objects lvl) _ Hrows H0) as H1.
    destruct (collide _ _ _ _) as [w1|w1]; [|exact H1].
    apply (settled_same (floorCeiling props lvl
                           (gravityScale (player (tickStart w))) w1)).
    + apply player_afterCollisions.
    + now apply settled_floorCeiling.
Qed.

Lemma handleInput_keeps (w : World) (e : InputEvent) :
  (upright w -> upright (handleInput w e)) /\
  (settled w -> settled (handleInput w e)).
Proof.
  destruct e; split; intro H; exact H.
Qed.

Lemma mirrored_handleInput (w w' : World) (e : InputEvent) :
  mirrored w w' -> mirrored (handleInput w e) (handleInput w' e).
Proof.
  intro H. destruct e; unfold handleInput, handleDown, handleUp;
    mirror_intro H; mirror_close.
Qed.

Lemma mirrored_inputs (evs : list InputEvent) (w w' : World) :
  upright w -> settled w -> mirrored w w' ->
  upright (fold_left handleInput evs w) /\
  settled (fold_left handleInput evs w) /\
  mirrored (fold_left handleInput evs w) (fold_left handleInput evs w').
Proof.
  revert w w'. induction evs as [|e evs IH]; intros w w' Hu Hs H; simpl; [auto|].
  apply IH.
  - now apply handleInput_keeps.
  - now apply handleInput_keeps.
  - now apply mirrored_handleInput.
Qed.

(** C8, counterexample.  FREE mode, no objects.  The player of a fresh
    run stands on the floor under normal gravity; its mirror image
    (reflected position, gravity negated) has no ceiling to stand on.
    After one call of [update] on each, the first is still at rest on
    the floor while the second is falling: the vertical velocities, 0
    and -2, are not opposite, whatever plane the positions are
    reflected in. *)
Lemma free_mode_has_no_mirror :
  mirrored initialWorld (mirrorWorld initialWorld) /\
  velY (update playProps freeLevel initialWorld) == 0 /\
  velY (update playProps (mirrorLevel freeLevel) (mirrorWorld initialWorld)) == -2 /\
  ~ mirrored (update playProps freeLevel initialWorld)
             (update playProps (mirrorLevel freeLevel) (mirrorWorld initialWorld)).
Proof.
  split; [|split; [|split]].
  - unfold mirrored, mirroredPlayer. simpl. repeat split; reflexivity.
  - vm_compute. reflexivity.
  - vm_compute. reflexivity.
  - intros ((_ & _ & _ & Hv & _) & _). revert Hv. vm_compute. discriminate.
Qed.

(** C8, as amended.  In CLASSIC mode, on a level whose blocks sit on
    integer rows: take a world whose gravity is one of the two signs
    and whose player, when grounded, is not within the 2px by which the
    support test at the ceiling is wider than the one at the floor; and
    take its mirror image, in which the vertical position is reflected
    in the plane halfway between floor and ceiling, vertical velocity
    and gravity are negated, and everything else the simulation reads
    is equal.  Then running the same frames of input on the level and
    on the mirrored level (each hit region reflected in the same plane)
    gives worlds that are mirror images of each other again, after
    every frame. *)
Theorem gravity_mirror (props : Props) (lvl : LevelData.t)
    (frames : list (list InputEvent)) (w w' : World) :
  LevelData.gameMode lvl = CLASSIC ->
  integerRows lvl ->
  upright w -> settled w ->
  mirrored w w' ->
  mirrored (run props lvl frames w) (run props (mirrorLevel lvl) frames w').
Proof.
  intros Hm Hrows. unfold run. revert w w'.
  induction frames as [|evs frames IH]; intros w w' Hu Hs H; simpl; [exact H|].
  destruct (mirrored_inputs evs w w' Hu Hs H) as (Hu1 & Hs1 & H1).
  apply IH; unfold frame.
  - now apply upright_update.
  - now apply settled_update.
  - now apply mirrored_update.
Qed.

Lemma gravity_mirror_witness :
  mirrored (run playProps blockLevel (jumpFrames 5) initialWorld)
           (run playProps (mirrorLevel blockLevel) (jumpFrames 5)
                (mirrorWorld initialWorld)).
Proof.
  apply (gravity_mirror playProps blockLevel (jumpFrames 5)
           initialWorld (mirrorWorld initialWorld)).
  - reflexivity.
  - intros o [<- | []] _. exists 2%Z. reflexivity.
  - left. reflexivity.
  - intros _. unfold posY, mirrorY, ceilingY, CEILING_HEIGHT, TILE_SIZE.
    simpl. lra.
  - unfold mirrored, mirroredPlayer. simpl. repeat split; reflexivity.
Defined.

(** ** Blocks are not tunnelled through *)

Lemma velY_physics (g : Q) (w : World) :
  g == 1 -> velY (physics g w) <= TERMINAL_VELOCITY.
Proof.
  intro Hg. unfold physics.
  assert (H1 : forall u, velY (clampVelocity g u) <= TERMINAL_VELOCITY).
  { intro u. unfold clampVelocity. open_world u. sim_unfold.
    sim_cases; lra. }
  assert (H2 : forall u, velY (rotate g (advanceX u)) = velY u).
  { intro u. unfold rotate, advanceX. split_ifs; reflexivity. }
  rewrite H2. apply H1.
Qed.

Lemma alive_beforeLoop (props : Props) (lvl : LevelData.t) (w : World) :
  isDead (player (beforeLoop props lvl w)) = isDead (player w) /\
  posY (beforeLoop props lvl w) = posY w.
Proof.
  unfold beforeLoop. split.
  - now rewrite isDead_physics, isDead_stabilityCheck, player_recordTrail.
  - destruct (speed_physics (gravityScale (player w))
                (stabilityCheck lvl (gravityScale (player w))
                                (recordTrail props w))) as (_ & _ & _ & Ey).
    rewrite Ey. unfold posY.
    destruct (speed_stabilityCheck lvl (gravityScale (player w))
                (recordTrail props w)) as (_ & _ & Ep).
    now rewrite Ep, player_recordTrail.
Qed.

(** Normal gravity, a level whose only object is a block on row 1 or
    higher, a living player whose hit box does not reach below the top
    of the block before the tick and is within the horizontal span of
    the block after the horizontal advance.  Whatever the velocity and
    the input: the tick leaves the player alive and not below the top
    of the block, and if its hit box came to overlap the block, the
    player stands on the block. *)
Theorem falling_player_lands (props : Props) (lvl : LevelData.t) (w : World)
    (o : LevelObject.t) :
  LevelData.objects lvl = [o] ->
  LevelObject.type o = BLOCK ->
  1 <= LevelObject.y o ->
  isDead (player w) = false ->
  gravityScale (player w) == 1 ->
  posY w - 10 <= - LevelObject.y o * TILE_SIZE ->
  let ctx := loopCtx props lvl (tickStart w) in
  let top := - LevelObject.y o * TILE_SIZE in
  Rect.x (pRect ctx) < LevelObject.x o * TILE_SIZE + TILE_SIZE /\
  LevelObject.x o * TILE_SIZE < Rect.x (pRect ctx) + Rect.w (pRect ctx) ->
  isDead (player (update props lvl w)) = false /\
  posY (update props lvl w) - 10 <= top /\
  (checkCollision (pRect ctx) (hitBox o) = true ->
   posY (update props lvl w) == top /\
   velY (update props lvl w) == 0 /\
   isGrounded (player (update props lvl w)) = true).
Proof.
  intros Hobjs Ht Hrow Hd Hg Hy ctx top Hx.
  rewrite update_alive by exact Hd.
  unfold simulate, runLoop. fold ctx. rewrite Hobjs.
  unfold ctx, loopCtx, loopEntry in *.
  destruct (alive_beforeLoop props lvl (tickStart w)) as (Edb & Eyb).
  unfold posY in Eyb at 2. rewrite player_tickStart in Eyb, Edb.
  fold (posY w) in Eyb. rewrite Hd in Edb.
  unfold beforeLoop in *. rewrite player_tickStart in *.
  pose proof (velY_physics (gravityScale (player w))
                (stabilityCheck lvl (gravityScale (player w))
                   (recordTrail props (tickStart w))) Hg) as Hv.
  set (g := gravityScale (player w)) in *. clearbody g.
  set (b := physics g (stabilityCheck lvl g (recordTrail props (tickStart w))))
    in *.
  clearbody b.
  rewrite <- Eyb in Hy. clear Eyb.
  unfold top in *. clear top ctx.
  set (row := LevelObject.y o) in *. set (col := LevelObject.x o) in *.
  cbn [collide]. unfold collideObject, handleSolid, handleBlock, hitBox.
  rewrite Ht. cbn [isOrb isPortal isLethal isBlock].
  fold row col.
  unfold tickCtx, advanceY, afterCollisions, winCheck, updateCamera,
    clearPressed, floorCeiling, crash, reportDeath, checkCollision in *.
  cbn [gravityMult prevY pRect Rect.x Rect.y Rect.w Rect.h] in *.
  clearbody row col. clear Hobjs Ht o w Hd.
  open_world b. sim_unfold. subst.
  destruct (Qeqb_spec g 1) as [_|Hn]; [|contradiction].
  repeat (qcase; cbn [andb orb negb]; sim_unfold);
    repeat match goal with
    | |- context [if ?c then _ else _] => destruct c
    | |- context [match ?c with CLASSIC => _ | FREE => _ end] => destruct c
    end; sim_unfold;
    (repeat split; try reflexivity; try lra; try (intro; discriminate);
     try (intros; repeat split; (reflexivity || lra || discriminate))).
Qed.

Lemma falling_player_lands_witness :
  posY (update playProps blockLevel fallingAtBlock) == -96 /\
  velY (update playProps blockLevel fallingAtBlock) == 0 /\
  isGrounded (player (update playProps blockLevel fallingAtBlock)) = true.
Proof.
  refine (proj2 (proj2 (falling_player_lands playProps blockLevel fallingAtBlock
                          blockAt5 eq_refl eq_refl _ eq_refl _ _ _)) _).
  - vm_compute. discriminate.
  - reflexivity.
  - vm_compute. discriminate.
  - vm_compute. split; reflexivity.
  - vm_compute. reflexivity.
Defined.

(** ** The landing test as the source has it *)



(** ** The motion does not read the clock, the logs or the mode *)

Ltac body_open :=
  match goal with
  | |- sameBody ?w1 ?w2 -> _ =>
      let Hp := fresh in let Hi := fresh in let Hs := fresh in let Hc := fresh in
      intros (Hp & Hi & Hs & Hc);
      destruct w1 as [? ? ? ? ? ? ?], w2 as [? ? ? ? ? ? ?];
      cbn [player input shake camera] in Hp, Hi, Hs, Hc; subst
  end.

Ltac body_simpl :=
  cbn [player input shake camera time recordedTrail emitted
       set_player set_input set_time set_recordedTrail set_shake set_camera emit].

Ltac body_case :=
  match goal with
  | |- context [if ?c then _ else _] =>
      lazymatch c with
      | context [if _ then _ else _] => fail
      | context [match _ with CLASSIC => _ | FREE => _ end] => fail
      | _ => destruct c
      end
  | |- context [match ?c with CLASSIC => _ | FREE => _ end] => destruct c
  | |- context [match LevelObject.type ?o with _ => _ end] =>
      destruct (LevelObject.type o)
  end.

Ltac body_close :=
  unfold sameBodyFlow, sameBody, upd_player, posX, posY, velX, velY;
  body_simpl; repeat (body_case; body_simpl);
  repeat split; reflexivity.

Lemma sameBody_refl (w : World) : sameBody w w.
Proof. repeat split. Qed.

Lemma sameBody_tickStart (w1 w2 : World) :
  sameBody w1 w2 -> sameBody (tickStart w1) (tickStart w2).
Proof. body_open. unfold tickStart, decayShake. body_close. Qed.

Lemma sameBody_recordTrail (p1 p2 : Props) (w1 w2 : World) :
  sameBody w1 w2 -> sameBody (recordTrail p1 w1) (recordTrail p2 w2).
Proof. body_open. unfold recordTrail. body_close. Qed.

Lemma sameBody_stabilityCheck (lvl : LevelData.t) (g : Q) (w1 w2 : World) :
  sameBody w1 w2 -> sameBody (stabilityCheck lvl g w1) (stabilityCheck lvl g w2).
Proof. body_open. unfold stabilityCheck. body_close. Qed.

Lemma sameBody_physics (g : Q) (w1 w2 : World) :
  sameBody w1 w2 -> sameBody (physics g w1) (physics g w2).
Proof.
  assert (A : forall u1 u2, sameBody u1 u2 ->
                sameBody (applyGravity g u1) (applyGravity g u2)).
  { intros u1 u2. body_open. unfold applyGravity. body_close. }
  assert (B : forall u1 u2, sameBody u1 u2 ->
                sameBody (applySpeed u1) (applySpeed u2)).
  { intros u1 u2. body_open. unfold applySpeed. body_close. }
  assert (C : forall u1 u2, sameBody u1 u2 ->
                sameBody (groundJump g u1) (groundJump g u2)).
  { intros u1 u2. body_open. unfold groundJump. body_close. }
  assert (D : forall u1 u2, sameBody u1 u2 ->
                sameBody (clampVelocity g u1) (clampVelocity g u2)).
  { intros u1 u2. body_open. unfold clampVelocity. body_close. }
  assert (E : forall u1 u2, sameBody u1 u2 ->
                sameBody (advanceX u1) (advanceX u2)).
  { intros u1 u2. body_open. unfold advanceX. body_close. }
  assert (F : forall u1 u2, sameBody u1 u2 ->
                sameBody (rotate g u1) (rotate g u2)).
  { intros u1 u2. body_open. unfold rotate. body_close. }
  intro H. unfold physics. auto 10.
Qed.

Lemma sameBody_beforeLoop (p1 p2 : Props) (lvl : LevelData.t) (w1 w2 : World) :
  sameBody w1 w2 -> sameBody (beforeLoop p1 lvl w1) (beforeLoop p2 lvl w2).
Proof.
  intro H. unfold beforeLoop.
  destruct H as (Hp & H). rewrite Hp.
  apply sameBody_physics, sameBody_stabilityCheck, sameBody_recordTrail.
  now split.
Qed.

Lemma tickCtx_ext (g : Q) (w1 w2 : World) :
  sameBody w1 w2 -> tickCtx g w1 = tickCtx g w2.
Proof.
  intros (Hp & _). unfold tickCtx, advanceY, upd_player, posX, posY, velX, velY.
  cbn [player set_player]. now rewrite Hp.
Qed.

Lemma sameBody_advanceY (w1 w2 : World) :
  sameBody w1 w2 -> sameBody (advanceY w1) (advanceY w2).
Proof. body_open. unfold advanceY. body_close. Qed.

Lemma sameBody_collideObject (p1 p2 : Props) (c : TickCtx) (o : LevelObject.t)
    (w1 w2 : World) :
  sameBody w1 w2 ->
  sameBodyFlow (collideObject p1 c o w1) (collideObject p2 c o w2).
Proof.
  body_open.
  unfold collideObject, handleOrb, orbFires, handlePortal, gravityPortal,
    handleSolid, handleBlock, crash, reportDeath.
  body_close.
Qed.

Lemma sameBody_collide (p1 p2 : Props) (c : TickCtx) (objs : list LevelObject.t)
    (w1 w2 : World) :
  sameBody w1 w2 ->
  sameBodyFlow (collide p1 c objs w1) (collide p2 c objs w2).
Proof.
  revert w1 w2. induction objs as [|o objs IH]; intros w1 w2 H; simpl; [exact H|].
  pose proof (sameBody_collideObject p1 p2 c o w1 w2 H) as Ho.
  destruct (collideObject p1 c o w1), (collideObject p2 c o w2);
    simpl in Ho; try contradiction; auto.
Qed.

Lemma sameBody_afterCollisions (p1 p2 : Props) (lvl : LevelData.t) (g : Q)
    (w1 w2 : World) :
  sameBody w1 w2 ->
  sameBody (afterCollisions p1 lvl g w1) (afterCollisions p2 lvl g w2).
Proof.
  body_open.
  unfold afterCollisions, winCheck, pastEnd, updateCamera, clearPressed,
    floorCeiling, reportDeath.
  body_close.
Qed.

Lemma sameBody_update (p1 p2 : Props) (lvl : LevelData.t) (w1 w2 : World) :
  sameBody w1 w2 -> sameBody (update p1 lvl w1) (update p2 lvl w2).
Proof.
  intro H. unfold update.
  pose proof (sameBody_tickStart _ _ H) as H0.
  set (u1 := tickStart w1) in *. set (u2 := tickStart w2) in *.
  assert (Ed : isDead (player u1) = isDead (player u2))
    by (destruct H0 as (-> & _); reflexivity).
  rewrite <- Ed. destruct (isDead (player u1)).
  - revert H0. clear. body_open. body_close.
  - unfold simulate, runLoop, loopCtx, loopEntry.
    assert (Eg : gravityScale (player u1) = gravityScale (player u2))
      by (destruct H0 as (-> & _); reflexivity).
    pose proof (sameBody_beforeLoop p1 p2 lvl _ _ H0) as H1.
    rewrite <- Eg, (tickCtx_ext _ _ _ H1).
    pose proof (sameBody_collide p1 p2
                  (tickCtx (gravityScale (player u1)) (beforeLoop p2 lvl u2))
                  (LevelData.objects lvl) _ _ (sameBody_advanceY _ _ H1)) as H2.
    destruct (collide p1 _ _ _), (collide p2 _ _ _); simpl in H2;
      try contradiction; auto.
    now apply sameBody_afterCollisions.
Qed.

Lemma sameBody_handleInput (e : InputEvent) (w1 w2 : World) :
  sameBody w1 w2 -> sameBody (handleInput w1 e) (handleInput w2 e).
Proof.
  body_open. destruct e; unfold handleInput, handleDown, handleUp; body_close.
Qed.

Lemma sameBody_frame (p1 p2 : Props) (lvl : LevelData.t) (evs : list InputEvent)
    (w1 w2 : World) :
  sameBody w1 w2 -> sameBody (frame p1 lvl w1 evs) (frame p2 lvl w2 evs).
Proof.
  intro H. unfold frame. apply sameBody_update.
  revert w1 w2 H. induction evs as [|e evs IH]; intros w1 w2 H; simpl; [exact H|].
  apply IH. now apply sameBody_handleInput.
Qed.

Lemma motion_body (p1 p2 : Props) (lvl : LevelData.t)
    (frames : list (list InputEvent)) (w1 w2 : World) :
  sameBody w1 w2 ->
  sameBody (run p1 lvl frames w1) (run p2 lvl frames w2).
Proof.
  unfold run. revert w1 w2.
  induction frames as [|evs frames IH]; intros w1 w2 H; simpl; [exact H|].
  apply IH. now apply sameBody_frame.
Qed.

(** The motion of a run (player, input flags, shake, camera) depends on
    the level and on the input events only: not on [isProcedural],
    [isTestMode] or [onTestComplete], not on the clock, and not on what
    was recorded or reported so far. *)
Theorem motion_ignores_mode_and_clock (p1 p2 : Props) (lvl : LevelData.t)
    (frames : list (list InputEvent)) (w1 w2 : World) :
  sameBody w1 w2 ->
  sameBody (run p1 lvl frames w1) (run p2 lvl frames w2).
Proof. apply motion_body. Qed.

Lemma motion_ignores_mode_and_clock_witness :
  sameBody (run playProps blockLevel (jumpFrames 5) initialWorld)
           (run testProps blockLevel (jumpFrames 5)
                (set_time 7 initialWorld)).
Proof.
  apply (motion_ignores_mode_and_clock playProps testProps blockLevel
           (jumpFrames 5) initialWorld (set_time 7 initialWorld)).
  repeat split.
Defined.

(** The reset effect restarts the run: with the jump control released,
    what follows is the motion of a fresh run, whatever the world was
    before and whatever the clock shows. *)
Theorem reset_restarts_the_run (p1 p2 : Props) (lvl : LevelData.t)
    (frames : list (list InputEvent)) (w : World) :
  input w = mkInput false false ->
  sameBody (run p1 lvl frames (resetRun w)) (run p2 lvl frames initialWorld) /\
  recordedTrail (resetRun w) = [] /\
  time (resetRun w) = time w.
Proof.
  intro Hi. split; [|split; reflexivity].
  apply motion_body. unfold resetRun, sameBody. simpl. now rewrite Hi.
Qed.

Lemma reset_restarts_the_run_witness :
  sameBody (run playProps blockLevel (jumpFrames 5)
                (resetRun (run playProps spikeLevel (idle 9) initialWorld)))
           (run playProps blockLevel (jumpFrames 5) initialWorld).
Proof.
  apply (reset_restarts_the_run playProps playProps blockLevel (jumpFrames 5)
           (run playProps spikeLevel (idle 9) initialWorld)).
  vm_compute. reflexivity.
Defined.

(** ** What every run keeps *)

Ltac pace_unfold := unfold paced, rests, upright in *; sim_unfold.

Ltac pace_close :=
  repeat match goal with
  | H : _ /\ _ |- _ => destruct H
  | H : true = true -> _ |- _ => specialize (H eq_refl)
  | H : false = true -> _ |- _ => clear H
  end;
  repeat split;
  solve [ assumption | lra | intro; lra | intro; discriminate
        | unfold runSpeed; lra ].

Lemma paced_stabilityCheck (lvl : LevelData.t) (g : Q) (w : World) :
  paced w -> paced (stabilityCheck lvl g w).
Proof.
  intro H. unfold stabilityCheck.
  generalize (existsb (blockSupports g (posX w + TILE_SIZE / 2) (posY w))
                      (LevelData.objects lvl)).
  intro B. open_world w. pace_unfold.
  sim_cases; pace_close.
Qed.

Lemma paced_recordTrail (props : Props) (w : World) :
  paced w -> paced (recordTrail props w).
Proof.
  intro H. unfold recordTrail.
  destruct (_ && _); [|exact H]. exact H.
Qed.

Lemma paced_motion (g : Q) (w : World) :
  g == 1 \/ g == -1 ->
  paced w ->
  paced (clampVelocity g (groundJump g (applySpeed (applyGravity g w)))).
Proof.
  intros Hg H. unfold clampVelocity, groundJump, applySpeed, applyGravity.
  open_world w. pace_unfold.
  sim_cases; destruct Hg; pace_close.
Qed.

Lemma paced_turn (g : Q) (w : World) :
  paced w -> paced (advanceY (rotate g (advanceX w))).
Proof.
  intro H. unfold advanceY, rotate, advanceX.
  open_world w. pace_unfold.
  sim_cases; pace_close.
Qed.

Lemma paced_loopEntry (props : Props) (lvl : LevelData.t) (w : World) :
  upright w -> paced w -> paced (loopEntry props lvl w).
Proof.
  intros Hu H. unfold loopEntry, beforeLoop, physics.
  apply paced_turn, paced_motion; [exact Hu|].
  now apply paced_stabilityCheck, paced_recordTrail.
Qed.

Lemma paced_collideObject (props : Props) (c : TickCtx) (o : LevelObject.t)
    (w : World) :
  gravityMult c == 1 \/ gravityMult c == -1 ->
  upright w -> paced w ->
  match collideObject props c o w with
  | Continue w' | Return w' => paced w'
  end.
Proof.
  intros Hg Hu H.
  unfold collideObject, handleOrb, handlePortal, gravityPortal,
    handleSolid, handleBlock, crash, reportDeath.
  open_world w. destruct c as [g py pr cx cy].
  destruct (LevelObject.type o);
    cbn [isOrb isPortal isLethal isBlock speedPortal orbEffect];
    pace_unfold;
    unfold ORB_JUMP_FORCE, ORB_JUMP_PURPLE_FORCE, ORB_JUMP_RED_FORCE in *;
    repeat match goal with
    | |- context [if ?b then _ else _] => destruct b
    end; pace_unfold;
    destruct Hg, Hu; pace_close.
Qed.

Lemma paced_collide (props : Props) (c : TickCtx) (objs : list LevelObject.t)
    (w : World) :
  gravityMult c == 1 \/ gravityMult c == -1 ->
  upright w -> paced w ->
  match collide props c objs w with
  | Continue w' | Return w' => paced w'
  end.
Proof.
  intro Hg. revert w.
  induction objs as [|o objs IH]; intros w Hu H; simpl; [exact H|].
  pose proof (paced_collideObject props c o w Hg Hu H) as Ho.
  pose proof (upright_collideObject props c o w Hu) as Hu'.
  destruct (collideObject props c o w) as [w1|w1]; [|exact Ho].
  now apply IH.
Qed.

Lemma paced_afterCollisions (props : Props) (lvl : LevelData.t) (g : Q)
    (w : World) :
  paced w -> paced (afterCollisions props lvl g w).
Proof.
  intro H.
  assert (E : forall u v : World, player u = player v -> paced u -> paced v).
  { intros u v E. unfold paced, rests, velY. now rewrite E. }
  apply (E (floorCeiling props lvl g w)).
  { now rewrite player_afterCollisions. }
  unfold floorCeiling, reportDeath.
  open_world w. pace_unfold.
  destruct (LevelData.gameMode lvl); sim_cases; pace_close.
Qed.

Lemma paced_update (props : Props) (lvl : LevelData.t) (w : World) :
  upright w -> paced w -> paced (update props lvl w).
Proof.
  intros Hu H.
  assert (E : forall u v : World, player u = player v -> paced u -> paced v).
  { intros u v E. unfold paced, rests, velY. now rewrite E. }
  destruct (isDead (player w)) eqn:Ed.
  - rewrite update_dead by exact Ed. revert H. apply E.
    simpl. now rewrite player_tickStart.
  - rewrite update_alive by exact Ed. unfold simulate, runLoop.
    assert (Hu0 : upright (tickStart w)).
    { revert Hu. apply upright_same. now rewrite player_tickStart. }
    assert (H0 : paced (tickStart w)).
    { revert H. apply E. now rewrite player_tickStart. }
    assert (Hu1 : upright (loopEntry props lvl (tickStart w))).
    { revert Hu0. apply upright_same. apply gravityScale_loopEntry. }
    pose proof (paced_loopEntry props lvl _ Hu0 H0) as H1.
    assert (Hg : gravityMult (loopCtx props lvl (tickStart w)) == 1 \/
                 gravityMult (loopCtx props lvl (tickStart w)) == -1).
    { exact Hu0. }
    pose proof (paced_collide props _ (LevelData.objects lvl) _ Hg Hu1 H1) as H2.
    destruct (collide _ _ _ _) as [w1|w1]; [|exact H2].
    now apply paced_afterCollisions.
Qed.

(** *** The shake *)

Lemma shake_loopEntry (props : Props) (lvl : LevelData.t) (w : World) :
  shake (loopEntry props lvl w) = shake w.
Proof.
  unfold loopEntry, beforeLoop, advanceY, physics.
  set (g := gravityScale (player w)).
  assert (H1 : forall u, shake (applySpeed (applyGravity g u)) = shake u).
  { intro u. unfold applySpeed, applyGravity. split_ifs; reflexivity. }
  assert (H2 : forall u, shake (groundJump g u) = shake u).
  { intro u. unfold groundJump. split_ifs; reflexivity. }
  assert (H3 : forall u, shake (rotate g (advanceX (clampVelocity g u))) = shake u).
  { intro u. unfold rotate, advanceX, clampVelocity. split_ifs; reflexivity. }
  assert (H0 : forall u, shake (stabilityCheck lvl g u) = shake u).
  { intro u. unfold stabilityCheck. split_ifs; reflexivity. }
  simpl. rewrite H3, H2, H1, H0. unfold recordTrail. split_ifs; reflexivity.
Qed.

Lemma shake_collideObject (props : Props) (c : TickCtx) (o : LevelObject.t)
    (w : World) :
  match collideObject props c o w with
  | Continue w' => shake w' = shake w
  | Return w' => shake w' = 20
  end.
Proof.
  unfold collideObject, handleOrb, handlePortal, gravityPortal, handleSolid,
    handleBlock, crash, reportDeath.
  split_ifs;
    repeat match goal with H : (_, _) = (_, _) |- _ => inversion H; clear H; subst end;
    try discriminate; reflexivity.
Qed.

Lemma shake_collide (props : Props) (c : TickCtx) (objs : list LevelObject.t)
    (w : World) :
  match collide props c objs w with
  | Continue w' => shake w' = shake w
  | Return w' => shake w' = 20
  end.
Proof.
  revert w. induction objs as [|o objs IH]; intro w; simpl; [reflexivity|].
  pose proof (shake_collideObject props c o w) as Ho.
  destruct (collideObject props c o w) as [w1|w1]; [|exact Ho].
  specialize (IH w1). destruct (collide props c objs w1); congruence.
Qed.

Lemma shake_afterCollisions (props : Props) (lvl : LevelData.t) (g : Q)
    (w : World) :
  shake (afterCollisions props lvl g w) = shake w.
Proof.
  unfold afterCollisions, winCheck, updateCamera, clearPressed, floorCeiling,
    reportDeath.
  split_ifs; reflexivity.
Qed.

Lemma quake_tickStart (w : World) : quake w -> quake (tickStart w).
Proof.
  unfold quake. intros ((H0 & H1) & H2).
  rewrite player_tickStart.
  unfold tickStart, decayShake. destruct w as [p i t r s c e].
  cbn [shake set_shake set_time player] in *.
  repeat (qcase; cbn [shake set_shake set_time player] in * );
    repeat split; try lra;
    intro Hd; specialize (H2 Hd); lra.
Qed.

Lemma quake_update (props : Props) (lvl : LevelData.t) (w : World) :
  quake w -> quake (update props lvl w).
Proof.
  intro H. apply quake_tickStart in H. unfold update. cbv zeta.
  destruct (isDead (player (tickStart w))) eqn:Ed.
  - unfold quake in *. simpl. rewrite Ed. split; [tauto|discriminate].
  - unfold simulate, runLoop.
    pose proof (shake_collide props (loopCtx props lvl (tickStart w))
                  (LevelData.objects lvl) (loopEntry props lvl (tickStart w))) as Hs.
    pose proof (collide_isDead props (loopCtx props lvl (tickStart w))
                  (LevelData.objects lvl) (loopEntry props lvl (tickStart w))) as Hk.
    rewrite shake_loopEntry in Hs. rewrite isDead_loopEntry in Hk.
    destruct (collide _ _ _ _) as [w1|w1]; unfold quake in *.
    + rewrite shake_afterCollisions, Hs. split; [tauto|].
      intros _. now apply H.
    + rewrite Hs, Hk. split; [lra|discriminate].
Qed.

Lemma steady_inputs (evs : list InputEvent) (w : World) :
  upright w /\ paced w /\ quake w ->
  upright (fold_left handleInput evs w) /\
  paced (fold_left handleInput evs w) /\
  quake (fold_left handleInput evs w).
Proof.
  revert w. induction evs as [|e evs IH]; intros w H; simpl; [exact H|].
  apply IH. destruct e; exact H.
Qed.

Lemma steady_parts (w : World) :
  steady w <-> upright w /\ paced w /\ quake w /\ 0 <= posX w.
Proof. unfold steady, paced, quake. tauto. Qed.

Lemma run_steady (props : Props) (lvl : LevelData.t)
    (frames : list (list InputEvent)) (w : World) :
  upright w /\ paced w /\ quake w ->
  upright (run props lvl frames w) /\
  paced (run props lvl frames w) /\
  quake (run props lvl frames w).
Proof.
  unfold run. revert w.
  induction frames as [|evs frames IH]; intros w H; simpl; [exact H|].
  apply IH. unfold frame.
  destruct (steady_inputs evs w H) as (Hu & Hp & Hq).
  split; [|split].
  - now apply upright_update.
  - now apply paced_update.
  - now apply quake_update.
Qed.

(** In every run, whatever the level, the mode and the input: gravity
    is one of the two signs; the speed multiplier is one of 0.8, 1, 1.2
    and 1.4; the vertical velocity stays within 34 px per tick; a
    grounded player has no vertical velocity; the player is not to the
    left of the start; the shake lies between 0 and 20 and is 0 while
    the player lives. *)
Theorem every_run_is_steady (props : Props) (lvl : LevelData.t)
    (frames : list (list InputEvent)) :
  steady (run props lvl frames initialWorld).
Proof.
  apply steady_parts.
  assert (H : upright initialWorld /\ paced initialWorld /\ quake initialWorld).
  { unfold upright, paced, quake, rests, runSpeed, velY. simpl.
    repeat split; try lra; try (intro; reflexivity);
      first [left; reflexivity | right; left; reflexivity]. }
  destruct (run_steady props lvl frames initialWorld H) as (Hu & Hp & Hq).
  pose proof (sane_run props lvl frames initialWorld sane_initialWorld) as Hs.
  unfold sane in Hs. tauto.
Qed.

(** ** How far a tick takes the player *)

Lemma loopEntry_advance (props : Props) (lvl : LevelData.t) (w : World) :
  posX (loopEntry props lvl w) = posX w + MOVE_SPEED * speedMultiplier (player w) /\
  speedMultiplier (player (loopEntry props lvl w)) = speedMultiplier (player w).
Proof.
  unfold loopEntry, beforeLoop.
  set (g := gravityScale (player w)).
  set (w1 := stabilityCheck lvl g (recordTrail props w)).
  destruct (speed_physics g w1) as (Es & _ & Ex & _).
  destruct (speed_stabilityCheck lvl g (recordTrail props w)) as (Es1 & _ & Ep1).
  fold w1 in Es1, Ep1. rewrite player_recordTrail in Es1, Ep1.
  unfold advanceY, posX in *. simpl.
  rewrite Es, Ex, Es1. unfold posX. now rewrite Ep1.
Qed.

Lemma collideObject_advance (props : Props) (c : TickCtx) (o : LevelObject.t)
    (w : World) :
  match collideObject props c o w with
  | Continue w' | Return w' =>
      posX w' = posX w /\
      (speedMultiplier (player w') = speedMultiplier (player w) \/
       runSpeed (speedMultiplier (player w')))
  end.
Proof.
  unfold collideObject, handleOrb, handlePortal, gravityPortal, handleSolid,
    handleBlock, crash, reportDeath.
  destruct (LevelObject.type o);
    cbn [isOrb isPortal isLethal isBlock speedPortal orbEffect];
    split_ifs;
    repeat match goal with H : (_, _) = (_, _) |- _ => inversion H; clear H; subst end;
    try discriminate;
    (split; [reflexivity|]);
    first [ left; reflexivity
          | right; unfold runSpeed; simpl; lra ].
Qed.

Lemma collide_advance (props : Props) (c : TickCtx) (objs : list LevelObject.t)
    (w : World) :
  match collide props c objs w with
  | Continue w' | Return w' =>
      posX w' = posX w /\
      (speedMultiplier (player w') = speedMultiplier (player w) \/
       runSpeed (speedMultiplier (player w')))
  end.
Proof.
  revert w. induction objs as [|o objs IH]; intro w; simpl; [auto|].
  pose proof (collideObject_advance props c o w) as Ho.
  destruct (collideObject props c o w) as [w1|w1]; [|exact Ho].
  specialize (IH w1).
  destruct (collide props c objs w1) as [w2|w2];
    destruct IH as (-> & [->|H]), Ho as (-> & Ho); auto.
Qed.

Lemma afterCollisions_advance (props : Props) (lvl : LevelData.t) (g : Q)
    (w : World) :
  posX (afterCollisions props lvl g w) = posX w /\
  speedMultiplier (player (afterCollisions props lvl g w)) =
  speedMultiplier (player w).
Proof.
  unfold posX. rewrite player_afterCollisions.
  unfold floorCeiling, reportDeath. split_ifs; split; reflexivity.
Qed.

Lemma update_advance (props : Props) (lvl : LevelData.t) (w : World) :
  isDead (player w) = false ->
  posX (update props lvl w) = posX w + MOVE_SPEED * speedMultiplier (player w) /\
  (speedMultiplier (player (update props lvl w)) = speedMultiplier (player w) \/
   runSpeed (speedMultiplier (player (update props lvl w)))).
Proof.
  intro Hd. rewrite update_alive by exact Hd. unfold simulate, runLoop.
  destruct (loopEntry_advance props lvl (tickStart w)) as (Ex & Es).
  unfold posX in Ex. rewrite player_tickStart in Ex, Es. fold (posX w) in Ex.
  pose proof (collide_advance props (loopCtx props lvl (tickStart w))
                (LevelData.objects lvl) (loopEntry props lvl (tickStart w))) as Hc.
  destruct (collide _ _ _ _) as [w1|w1].
  - destruct (afterCollisions_advance props lvl
                (gravityScale (player (tickStart w))) w1) as (-> & ->).
    destruct Hc as (-> & Hs). unfold posX at 1. rewrite Ex, <- Es. auto.
  - destruct Hc as (-> & Hs). unfold posX at 1. rewrite Ex, <- Es. auto.
Qed.

Lemma update_stays (props : Props) (lvl : LevelData.t) (w : World) :
  isDead (player w) = true ->
  posX (update props lvl w) = posX w /\
  speedMultiplier (player (update props lvl w)) = speedMultiplier (player w).
Proof.
  intro Hd. rewrite update_dead by exact Hd. unfold posX. simpl.
  now rewrite player_tickStart.
Qed.

Lemma runSpeed_brisk (m : Q) : runSpeed m -> 0.8 <= m /\ m <= 1.4.
Proof. unfold runSpeed. lra. Qed.

Lemma brisk_update (props : Props) (lvl : LevelData.t) (w : World) :
  brisk w -> brisk (update props lvl w).
Proof.
  unfold brisk. intro H. destruct (isDead (player w)) eqn:Ed.
  - destruct (update_stays props lvl w Ed) as (_ & ->). exact H.
  - destruct (update_advance props lvl w Ed) as (_ & [->|Hs]); [exact H|].
    now apply runSpeed_brisk.
Qed.

Lemma inputs_keep (evs : list InputEvent) (w : World) :
  posX (fold_left handleInput evs w) = posX w /\
  speedMultiplier (player (fold_left handleInput evs w)) =
  speedMultiplier (player w) /\
  isDead (player (fold_left handleInput evs w)) = isDead (player w) /\
  emitted (fold_left handleInput evs w) = emitted w.
Proof.
  revert w. induction evs as [|e evs IH]; intro w; simpl; [auto|].
  destruct (IH (handleInput w e)) as (-> & -> & -> & ->).
  destruct e; auto.
Qed.

(** *** A run ends within its time *)

Lemma emitted_frame (props : Props) (lvl : LevelData.t) (w : World)
    (evs : list InputEvent) :
  callbacks (emitted w) <> [] ->
  callbacks (emitted (frame props lvl w evs)) <> [].
Proof.
  intro H. rewrite frame_callbacks.
  destruct (callbacks (emitted w)); [congruence|discriminate].
Qed.

Lemma underway_frame (props : Props) (lvl : LevelData.t) (n : nat) (w : World)
    (evs : list InputEvent) :
  isProcedural props = false ->
  underway lvl n w -> underway lvl (S n) (frame props lvl w evs).
Proof.
  intros Hp [H|(Hd & Hb & Hx & He)].
  - left. now apply emitted_frame.
  - destruct (inputs_keep evs w) as (Ex & Es & Ed & _).
    pose proof (frame_callbacks props lvl w evs) as Hf.
    rewrite Hd in Hf. unfold tickCallbacks in Hf. unfold frame in *.
    set (w1 := fold_left handleInput evs w) in *.
    rewrite <- Ed in Hd.
    assert (Hb1 : brisk w1) by (unfold brisk in *; now rewrite Es).
    destruct (update_advance props lvl w1 Hd) as (Ea & _).
    pose proof (brisk_update props lvl w1 Hb1) as Hb2.
    pose proof (crashes_dead props lvl w1 Hd) as Hcd.
    set (w2 := update props lvl w1) in *.
    assert (Hx2 : 7.2 * inject_Z (Z.of_nat (S n)) <= posX w2).
    { rewrite Ea, Ex. rewrite Nat2Z.inj_succ. unfold Z.succ. rewrite inject_Z_plus.
      unfold brisk in Hb1. unfold MOVE_SPEED. change (inject_Z 1) with 1. nra. }
    unfold underway. rewrite Hf.
    destruct (isDead (player w2)) eqn:Ed2.
    + left. destruct (callbacks (emitted w)); discriminate.
    + assert (Hc : crashes props lvl w1 = false).
      { destruct (crashes props lvl w1); [|reflexivity].
        specialize (Hcd eq_refl). discriminate. }
      rewrite Hc. cbn [negb andb app]. unfold pastEnd. rewrite Hp. cbn [negb andb].
      destruct (Qltb_spec (LevelData.length lvl * TILE_SIZE) (posX w2)) as [Hlt|Hge].
      * left. unfold winCallback.
        destruct (callbacks (emitted w)); destruct (_ && _); discriminate.
      * right. repeat split; auto; try apply Hb2. lra.
Qed.

Lemma underway_run (props : Props) (lvl : LevelData.t)
    (frames : list (list InputEvent)) (n : nat) (w : World) :
  isProcedural props = false ->
  underway lvl n w ->
  underway lvl (n + List.length frames) (run props lvl frames w).
Proof.
  intro Hp. unfold run. revert n w.
  induction frames as [|evs frames IH]; intros n w H; simpl.
  - now rewrite Nat.add_0_r.
  - rewrite <- Nat.add_succ_comm. apply IH. now apply underway_frame.
Qed.

(** A run over a level that is not procedural does not go on for ever:
    once the number of frames exceeds [48 * length / 7.2], the slowest
    the player can take to cross the level, a callback has been
    invoked (the player died, or reached the end). *)
Theorem run_ends_in_time (props : Props) (lvl : LevelData.t)
    (frames : list (list InputEvent)) :
  isProcedural props = false ->
  0 <= LevelData.length lvl ->
  LevelData.length lvl * TILE_SIZE <
    MOVE_SPEED * 0.8 * inject_Z (Z.of_nat (List.length frames)) ->
  callbacks (emitted (run props lvl frames initialWorld)) <> [].
Proof.
  intros Hp Hl Hn.
  assert (H0 : underway lvl 0 initialWorld).
  { right. unfold brisk, posX, TILE_SIZE. simpl.
    change (inject_Z 0) with 0. repeat split; lra. }
  pose proof (underway_run props lvl frames 0 initialWorld Hp H0) as H.
  simpl in H. destruct H as [H|(_ & _ & Hx & He)]; [exact H|].
  exfalso. unfold MOVE_SPEED in Hn. lra.
Qed.

Lemma run_ends_in_time_witness :
  callbacks (emitted (run playProps noObject (idle 334) initialWorld)) <> [].
Proof.
  apply (run_ends_in_time playProps noObject (idle 334)).
  - reflexivity.
  - vm_compute. discriminate.
  - vm_compute. reflexivity.
Defined.

(** *** No level is completed faster than the fastest portal speed allows *)

Lemma isCompletion_deathCallback (props : Props) (w : World) :
  isCompletion (deathCallback props w) = false.
Proof. unfold deathCallback. destruct (_ && _); reflexivity. Qed.

Lemma early_frame (props : Props) (lvl : LevelData.t) (n : nat) (w : World)
    (evs : list InputEvent) :
  12.6 * inject_Z (Z.of_nat (S n)) <= LevelData.length lvl * TILE_SIZE ->
  early n w -> early (S n) (frame props lvl w evs).
Proof.
  intros Hn (Hx & Hb & Hc).
  assert (Hs : 12.6 * inject_Z (Z.of_nat (S n)) ==
               12.6 * inject_Z (Z.of_nat n) + 12.6).
  { rewrite Nat2Z.inj_succ. unfold Z.succ. rewrite inject_Z_plus.
    change (inject_Z 1) with 1. ring. }
  destruct (inputs_keep evs w) as (Ex & Es & Ed & _).
  pose proof (frame_callbacks props lvl w evs) as Hf.
  unfold tickCallbacks in Hf. unfold frame in *.
  set (w1 := fold_left handleInput evs w) in *.
  assert (Hb1 : brisk w1) by (unfold brisk in *; now rewrite Es).
  pose proof (brisk_update props lvl w1 Hb1) as Hb2.
  set (w2 := update props lvl w1) in *.
  rewrite <- (countIf_callbacks isCompletion) in Hc
    by (intros [| | |? []]; simpl; congruence).
  unfold early.
  rewrite <- (countIf_callbacks isCompletion)
    by (intros [| | |? []]; simpl; congruence).
  rewrite Hf, countIf_app, Hc. simpl Nat.add. clear Hf.
  rewrite <- Ed. clear Ed.
  destruct (isDead (player w1)) eqn:Hd.
  - destruct (update_stays props lvl w1 Hd) as (Ea & _). fold w2 in Ea.
    rewrite Ea, Ex. repeat split; auto; try apply Hb2. lra.
  - destruct (update_advance props lvl w1 Hd) as (Ea & _). fold w2 in Ea.
    assert (Hx2 : posX w2 <= 12.6 * inject_Z (Z.of_nat (S n))).
    { rewrite Ea, Ex. unfold brisk in Hb1. unfold MOVE_SPEED. nra. }
    repeat split; auto; try apply Hb2.
    rewrite countIf_app.
    assert (Hp : pastEnd props lvl w2 = false).
    { unfold pastEnd. destruct (isProcedural props); [reflexivity|].
      cbn [negb andb]. apply Qltb_false. lra. }
    rewrite Hp, andb_false_r. unfold countIf.
    destruct (isDead (player w2)); simpl;
      [rewrite isCompletion_deathCallback|]; reflexivity.
Qed.

Lemma early_run (props : Props) (lvl : LevelData.t)
    (frames : list (list InputEvent)) (n : nat) (w : World) :
  12.6 * inject_Z (Z.of_nat (n + List.length frames)) <=
    LevelData.length lvl * TILE_SIZE ->
  early n w ->
  early (n + List.length frames) (run props lvl frames w).
Proof.
  unfold run. revert n w.
  induction frames as [|evs frames IH]; intros n w Hn H; simpl.
  - now rewrite Nat.add_0_r.
  - simpl in Hn. rewrite <- Nat.add_succ_comm in *. apply IH; [exact Hn|].
    apply early_frame; [|exact H].
    eapply Qle_trans; [|exact Hn].
    apply Qmult_le_l; [reflexivity|].
    rewrite <- Zle_Qle. lia.
Qed.

(** No run reports the end of the level reached before the player
    could be there at the fastest portal speed: not within
    [48 * length / 12.6] frames, whatever the level holds and whatever
    the input. *)
Theorem no_early_completion (props : Props) (lvl : LevelData.t)
    (frames : list (list InputEvent)) :
  MOVE_SPEED * 1.4 * inject_Z (Z.of_nat (List.length frames)) <=
    LevelData.length lvl * TILE_SIZE ->
  countIf isCompletion (emitted (run props lvl frames initialWorld)) = 0%nat.
Proof.
  intro Hn.
  assert (H0 : early 0 initialWorld).
  { unfold early, brisk, posX. simpl. change (inject_Z 0) with 0.
    repeat split; lra. }
  apply (early_run props lvl frames 0 initialWorld); [|exact H0].
  simpl. unfold MOVE_SPEED in Hn. lra.
Qed.

Lemma no_early_completion_witness :
  countIf isCompletion
    (emitted (run playProps noObject (idle 190) initialWorld)) = 0%nat.
Proof.
  apply (no_early_completion playProps noObject (idle 190)).
  vm_compute. discriminate.
Defined.

(** ** Past the last obstacle *)

Lemma hitBox_right (o : LevelObject.t) :
  Rect.x (hitBox o) + Rect.w (hitBox o) <= LevelObject.x o * TILE_SIZE + TILE_SIZE.
Proof.
  unfold hitBox, TILE_SIZE. destruct (LevelObject.type o); simpl; lra.
Qed.

Lemma collideObject_behind (props : Props) (c : TickCtx) (o : LevelObject.t)
    (w : World) :
  (isLethal (LevelObject.type o) || isBlock (LevelObject.type o) = true ->
   LevelObject.x o * TILE_SIZE + TILE_SIZE <= Rect.x (pRect c)) ->
  exists w', collideObject props c o w = Continue w'.
Proof.
  intro H. unfold collideObject.
  destruct (isOrb _); [eauto|].
  destruct (isPortal _); [eauto|].
  unfold handleSolid.
  destruct (checkCollision (pRect c) (hitBox o)) eqn:Ec; [|eauto].
  apply checkCollision_true in Ec. destruct Ec as (Ec & _).
  pose proof (hitBox_right o) as Hr.
  destruct (isLethal _); [exfalso; specialize (H eq_refl); lra|].
  destruct (isBlock _); [exfalso; specialize (H eq_refl); lra|].
  eauto.
Qed.

Lemma collide_behind (props : Props) (c : TickCtx) (objs : list LevelObject.t)
    (w : World) :
  (forall o, In o objs ->
     isLethal (LevelObject.type o) || isBlock (LevelObject.type o) = true ->
     LevelObject.x o * TILE_SIZE + TILE_SIZE <= Rect.x (pRect c)) ->
  exists w', collide props c objs w = Continue w'.
Proof.
  revert w. induction objs as [|o objs IH]; intros w H; simpl; [eauto|].
  destruct (collideObject_behind props c o w (H o (or_introl eq_refl))) as (w1 & ->).
  apply IH. intros o' Ho'. apply H. now right.
Qed.

Lemma pRect_loopCtx (props : Props) (lvl : LevelData.t) (w : World) :
  Rect.x (pRect (loopCtx props lvl w)) =
  posX w + MOVE_SPEED * speedMultiplier (player w) + 10.
Proof.
  unfold loopCtx, tickCtx. cbn [pRect Rect.x].
  destruct (loopEntry_advance props lvl w) as (Ex & _).
  unfold loopEntry in Ex. now rewrite Ex.
Qed.

Lemma classic_afterCollisions (props : Props) (lvl : LevelData.t) (g : Q)
    (w : World) :
  LevelData.gameMode lvl = CLASSIC ->
  isDead (player (afterCollisions props lvl g w)) = isDead (player w).
Proof.
  intro Hm. rewrite player_afterCollisions. unfold floorCeiling. rewrite Hm.
  split_ifs; reflexivity.
Qed.

Lemma passed_update (props : Props) (lvl : LevelData.t) (w : World) :
  LevelData.gameMode lvl = CLASSIC ->
  passed lvl w ->
  passed lvl (update props lvl w) /\ posX w <= posX (update props lvl w) /\
  crashes props lvl w = false.
Proof.
  intros Hm (Hd & Hs & Hb).
  destruct (update_advance props lvl w Hd) as (Ex & Es).
  assert (Hc : exists w1, runLoop props lvl (tickStart w) = Continue w1).
  { unfold runLoop. apply collide_behind. intros o Ho Ht.
    rewrite pRect_loopCtx. unfold posX. rewrite player_tickStart.
    specialize (Hb o Ho Ht). unfold posX, MOVE_SPEED in *. nra. }
  destruct Hc as (w1 & Hc).
  assert (Ha : isDead (player (update props lvl w)) = false).
  { rewrite update_alive by exact Hd. unfold simulate. rewrite Hc.
    rewrite classic_afterCollisions by exact Hm.
    apply (runLoop_alive props lvl (tickStart w) w1); [|exact Hc].
    now rewrite player_tickStart. }
  assert (Hx : posX w <= posX (update props lvl w)).
  { rewrite Ex. unfold MOVE_SPEED. nra. }
  split; [|split; [exact Hx|]].
  - split; [exact Ha|split].
    + destruct Es as [->|Hr]; [exact Hs|]. apply runSpeed_brisk in Hr. lra.
    + intros o Ho Ht. specialize (Hb o Ho Ht). lra.
  - unfold crashes. now rewrite Hc.
Qed.

Lemma passed_inputs (lvl : LevelData.t) (evs : list InputEvent) (w : World) :
  passed lvl w -> passed lvl (fold_left handleInput evs w).
Proof.
  destruct (inputs_keep evs w) as (Ex & Es & Ed & _).
  unfold passed, behind. now rewrite Ex, Es, Ed.
Qed.

(** In CLASSIC mode, once every spike and every block lies behind the
    hit box of a living player, the player does not die any more,
    whatever the input: it cannot fall out of the level, and what is
    behind cannot be hit. *)
Theorem safe_past_the_last_obstacle (props : Props) (lvl : LevelData.t)
    (frames : list (list InputEvent)) (w : World) :
  LevelData.gameMode lvl = CLASSIC ->
  isDead (player w) = false ->
  0 < speedMultiplier (player w) ->
  behind lvl w ->
  isDead (player (run props lvl frames w)) = false /\
  posX w <= posX (run props lvl frames w).
Proof.
  intros Hm Hd Hs Hb.
  assert (H : passed lvl w) by (repeat split; assumption).
  clear Hd Hs Hb. unfold run. revert w H.
  induction frames as [|evs frames IH]; intros w H; simpl.
  - split; [apply H|lra].
  - pose proof (passed_inputs lvl evs w H) as H1.
    destruct (passed_update props lvl _ Hm H1) as (H2 & Hx & _).
    destruct (IH _ H2) as (Ha & Hx2). split; [exact Ha|].
    unfold frame in *.
    destruct (inputs_keep evs w) as (Ex & _). rewrite Ex in Hx. lra.
Qed.

Lemma safe_past_the_last_obstacle_witness :
  isDead (player (run playProps spikeLevel (idle 5) pastSpike)) = false /\
  posX pastSpike <= posX (run playProps spikeLevel (idle 5) pastSpike).
Proof.
  apply (safe_past_the_last_obstacle playProps spikeLevel (idle 5) pastSpike).
  - reflexivity.
  - reflexivity.
  - vm_compute. reflexivity.
  - intros o [<-|[]] _. vm_compute. discriminate.
Defined.

Lemma passed_run (props : Props) (lvl : LevelData.t)
    (frames : list (list InputEvent)) (w : World) :
  LevelData.gameMode lvl = CLASSIC ->
  passed lvl w ->
  passed lvl (run props lvl frames w) /\
  (isProcedural props = true ->
   callbacks (emitted (run props lvl frames w)) = callbacks (emitted w)).
Proof.
  intro Hm. unfold run. revert w.
  induction frames as [|evs frames IH]; intros w H; simpl; [auto|].
  pose proof (passed_inputs lvl evs w H) as H1.
  destruct (passed_update props lvl _ Hm H1) as (H2 & _ & Hc).
  pose proof (frame_callbacks props lvl w evs) as Hf.
  change (update props lvl (fold_left handleInput evs w))
    with (frame props lvl w evs) in H2.
  destruct (IH _ H2) as (H3 & Hq). split; [exact H3|].
  intro Hp. rewrite (Hq Hp), Hf.
  destruct H as (Hd & _). rewrite Hd. unfold tickCallbacks.
  destruct H2 as (Hd2 & _). unfold frame in Hd2. rewrite Hd2, Hc.
  unfold pastEnd. rewrite Hp. cbn [negb andb app]. apply app_nil_r.
Qed.

(** ** The procedural generator *)

Section ProceduralFacts.

Variable showNumber : Q -> string.
Variable random : nat -> Q.

Lemma cursor_segmentStep (r : Q) (s : Segment) :
  cursor s + 2 <= cursor (segmentStep showNumber r s).
Proof.
  unfold segmentStep. repeat (qcase; cbn [cursor]); lra.
Qed.

(** *** The loop ends *)

Lemma segmentLoop_total (fuel k : nat) (bound : Q) (s : Segment) :
  bound - cursor s <= 2 * inject_Z (Z.of_nat fuel) ->
  exists objs, segmentLoop showNumber random fuel k bound s = Some objs.
Proof.
  revert k s. induction fuel as [|fuel IH]; intros k s H; simpl.
  - destruct (Qltb_spec (cursor s) bound) as [Hlt|_]; [|eauto].
    exfalso. change (inject_Z (Z.of_nat 0)) with 0 in H. lra.
  - destruct (Qltb_spec (cursor s) bound) as [Hlt|_]; [|eauto].
    apply IH. pose proof (cursor_segmentStep (random k) s) as Hc.
    rewrite Nat2Z.inj_succ in H. unfold Z.succ in H.
    rewrite inject_Z_plus in H. change (inject_Z 1) with 1 in H. lra.
Qed.

Lemma segmentLoop_more (fuel fuel' k : nat) (bound : Q) (s : Segment)
    (objs : list LevelObject.t) :
  (fuel <= fuel')%nat ->
  segmentLoop showNumber random fuel k bound s = Some objs ->
  segmentLoop showNumber random fuel' k bound s = Some objs.
Proof.
  revert fuel' k s. induction fuel as [|fuel IH]; intros fuel' k s Hf H;
    simpl in H.
  - destruct fuel'; simpl; destruct (cursor s <? bound); congruence.
  - destruct fuel' as [|fuel']; [lia|]. simpl.
    destruct (cursor s <? bound); [|exact H].
    apply IH; [lia|exact H].
Qed.

(** *** What is placed *)

Lemma generated_place (startX length : Q) (objs : list LevelObject.t)
    (x g : Q) (t : EntityType) (offsetX offsetY : Q) :
  g == 1 \/ g == -1 ->
  startX + 15 <= x -> x < startX + length ->
  0 <= offsetX /\ offsetX <= 2 ->
  1 <= offsetY /\ offsetY <= 3 ->
  t = SPIKE \/ t = BLOCK \/ t = PORTAL_GRAVITY \/ t = ORB_JUMP ->
  Forall (generated startX length) objs ->
  Forall (generated startX length) (place showNumber objs x g t offsetX offsetY 0).
Proof.
  intros Hg Hx Hb Hox Hoy Ht H. unfold place.
  apply Forall_app. split; [exact H|]. constructor; [|constructor].
  unfold generated, CEILING_HEIGHT. cbn [LevelObject.x LevelObject.y
    LevelObject.type LevelObject.rotation].
  split; [lra|]. split.
  - destruct Hg as [Hg|Hg].
    + apply Qeq_bool_iff in Hg. rewrite Hg. lra.
    + assert (E : (g =? 1) = false) by (apply Qeqb_false; lra).
      rewrite E. lra.
  - split; [exact Ht|]. eexists. split; [reflexivity|].
    destruct Hg as [Hg|Hg].
    + assert (E : (g =? -1) = false) by (apply Qeqb_false; lra).
      rewrite E. left. reflexivity.
    + apply Qeq_bool_iff in Hg. rewrite Hg. cbn [andb].
      destruct Ht as [-> | [-> | [-> | ->]]]; cbn [isLethal].
      * right. split; reflexivity.
      * left. reflexivity.
      * left. reflexivity.
      * left. reflexivity.
Qed.

Lemma placedWell_segmentStep (startX length r : Q) (s : Segment) :
  cursor s < startX + length ->
  placedWell startX length s ->
  placedWell startX length (segmentStep showNumber r s).
Proof.
  intros Hb (Hg & Hx & H). unfold placedWell, segmentStep.
  repeat (qcase; cbn [currentGravity cursor placed]);
    (split; [first [exact Hg | destruct Hg; [right|left]; lra]|]);
    (split; [lra|]);
    repeat (apply generated_place; auto; try lra; try tauto);
    exact H.
Qed.

Lemma placedWell_segmentLoop (startX length : Q) (fuel k : nat) (s : Segment)
    (objs : list LevelObject.t) :
  placedWell startX length s ->
  segmentLoop showNumber random fuel k (startX + length) s = Some objs ->
  Forall (generated startX length) objs.
Proof.
  revert k s. induction fuel as [|fuel IH]; intros k s H E; simpl in E.
  - destruct (cursor s <? startX + length); [discriminate|].
    injection E as <-. apply H.
  - destruct (Qltb_spec (cursor s) (startX + length)) as [Hlt|_].
    + apply (IH _ _ (placedWell_segmentStep _ _ _ _ Hlt H) E).
    + injection E as <-. apply H.
Qed.

(** *** The order of the objects *)

Lemma ascending_snoc (objs : list LevelObject.t) (o : LevelObject.t) :
  ascending objs ->
  (forall a, In a objs -> LevelObject.x a <= LevelObject.x o) ->
  ascending (objs ++ [o]).
Proof.
  induction objs as [|a [|b rest] IH]; intros H Ho; simpl.
  - exact I.
  - split; [|exact I]. apply Ho. now left.
  - destruct H as (Hab & H). split; [exact Hab|].
    apply IH; [exact H|]. intros c Hc. apply Ho. now right.
Qed.

Lemma inOrder_place (objs : list LevelObject.t) (x g : Q) (t : EntityType)
    (offsetX offsetY : Q) (lim : Q) :
  0 <= offsetX -> x + offsetX <= lim ->
  ascending objs /\ (forall a, In a objs -> LevelObject.x a <= x + offsetX) ->
  ascending (place showNumber objs x g t offsetX offsetY 0) /\
  (forall a, In a (place showNumber objs x g t offsetX offsetY 0) ->
             LevelObject.x a <= lim).
Proof.
  intros Ho Hl (H & Hx). unfold place. split.
  - apply ascending_snoc; [exact H|]. intros a Ha. simpl. now apply Hx.
  - intros a Ha. apply in_app_or in Ha. destruct Ha as [Ha|[<-|[]]].
    + specialize (Hx a Ha). lra.
    + simpl. lra.
Qed.

Lemma inOrder_weaken (objs : list LevelObject.t) (x y : Q) :
  x <= y ->
  ascending objs /\ (forall a, In a objs -> LevelObject.x a <= x) ->
  ascending objs /\ (forall a, In a objs -> LevelObject.x a <= y).
Proof.
  intros Hxy (H & Hx). split; [exact H|].
  intros a Ha. specialize (Hx a Ha). lra.
Qed.

Lemma inOrder_segmentStep (r : Q) (s : Segment) :
  inOrder s -> inOrder (segmentStep showNumber r s).
Proof.
  unfold inOrder, segmentStep. intro H.
  repeat (qcase; cbn [cursor placed]).
  - apply inOrder_place; [lra|lra|]. revert H. apply inOrder_weaken. lra.
  - apply inOrder_place; [lra|lra|]. revert H. apply inOrder_weaken. lra.
  - apply inOrder_place; [lra|lra|].
    apply inOrder_place; [lra|lra|]. revert H. apply inOrder_weaken. lra.
  - apply inOrder_place; [lra|lra|].
    apply inOrder_place; [lra|lra|].
    apply inOrder_place; [lra|lra|]. revert H. apply inOrder_weaken. lra.
  - apply inOrder_place; [lra|lra|].
    apply inOrder_place; [lra|lra|].
    apply inOrder_place; [lra|lra|]. revert H. apply inOrder_weaken. lra.
  - revert H. apply inOrder_weaken. lra.
Qed.

Lemma inOrder_segmentLoop (fuel k : nat) (bound : Q) (s : Segment)
    (objs : list LevelObject.t) :
  inOrder s ->
  segmentLoop showNumber random fuel k bound s = Some objs ->
  ascending objs.
Proof.
  revert k s. induction fuel as [|fuel IH]; intros k s H E; simpl in E.
  - destruct (cursor s <? bound); [discriminate|]. injection E as <-. apply H.
  - destruct (cursor s <? bound).
    + apply (IH _ _ (inOrder_segmentStep _ _ H) E).
    + injection E as <-. apply H.
Qed.

(** *** The side of the level *)

Lemma laidOut_ext (g g' : Q) (objs : list LevelObject.t) :
  g == g' -> laidOut g objs -> laidOut g' objs.
Proof.
  revert g g'. induction objs as [|o objs IH]; intros g g' E H; simpl in *;
    [exact I|].
  destruct H as (Ho & H). split.
  - unfold onSide in *. rewrite <- E. exact Ho.
  - revert H. apply IH. destruct (LevelObject.type o); rewrite ?E; reflexivity.
Qed.

Lemma gravityAfter_ext (g g' : Q) (objs : list LevelObject.t) :
  g == g' -> gravityAfter g objs == gravityAfter g' objs.
Proof.
  revert g g'. induction objs as [|o objs IH]; intros g g' E; simpl; [exact E|].
  apply IH. destruct (LevelObject.type o); rewrite ?E; reflexivity.
Qed.

Lemma laidOut_snoc (g : Q) (objs : list LevelObject.t) (o : LevelObject.t) :
  laidOut g objs -> onSide (gravityAfter g objs) o ->
  laidOut g (objs ++ [o]).
Proof.
  revert g. induction objs as [|a objs IH]; intros g H Ho; simpl in *.
  - tauto.
  - destruct H as (Ha & H). split; [exact Ha|]. now apply IH.
Qed.

Lemma gravityAfter_snoc (g : Q) (objs : list LevelObject.t) (o : LevelObject.t) :
  gravityAfter g (objs ++ [o]) =
  match LevelObject.type o with
  | PORTAL_GRAVITY => gravityAfter g objs * -1
  | _ => gravityAfter g objs
  end.
Proof.
  revert g. induction objs as [|a objs IH]; intro g; simpl; [|apply IH].
  destruct (LevelObject.type o); reflexivity.
Qed.

Lemma sided_place (objs : list LevelObject.t) (x g : Q) (t : EntityType)
    (offsetX offsetY : Q) :
  g == 1 \/ g == -1 ->
  1 <= offsetY /\ offsetY <= 3 ->
  laidOut 1 objs /\ gravityAfter 1 objs == g ->
  laidOut 1 (place showNumber objs x g t offsetX offsetY 0) /\
  gravityAfter 1 (place showNumber objs x g t offsetX offsetY 0) ==
  match t with PORTAL_GRAVITY => g * -1 | _ => g end.
Proof.
  intros Hg Hy (H & E). unfold place. split.
  - apply laidOut_snoc; [exact H|]. unfold onSide, CEILING_HEIGHT.
    cbn [LevelObject.y]. rewrite E.
    destruct Hg as [Hg|Hg].
    + left. apply Qeq_bool_iff in Hg as Hb. rewrite Hb. lra.
    + right. assert (Hb : (g =? 1) = false) by (apply Qeqb_false; lra).
      rewrite Hb. lra.
  - rewrite gravityAfter_snoc. cbn [LevelObject.type].
    destruct t; rewrite ?E; reflexivity.
Qed.

Lemma sided_segmentStep (r : Q) (s : Segment) :
  sided s -> sided (segmentStep showNumber r s).
Proof.
  unfold sided, segmentStep. intros (Hg & H).
  repeat (qcase; cbn [cursor placed currentGravity]).
  - split; [exact Hg|]. apply (sided_place _ _ _ SPIKE); auto; lra.
  - split; [exact Hg|]. apply (sided_place _ _ _ BLOCK); auto; lra.
  - split; [destruct Hg; [right|left]; lra|].
    apply (sided_place _ _ _ PORTAL_GRAVITY); auto; try lra.
    apply (sided_place _ _ _ BLOCK); auto; lra.
  - split; [exact Hg|].
    apply (sided_place _ _ _ BLOCK); auto; try lra.
    apply (sided_place _ _ _ BLOCK); auto; try lra.
    apply (sided_place _ _ _ BLOCK); auto; lra.
  - split; [exact Hg|].
    apply (sided_place _ _ _ SPIKE); auto; try lra.
    apply (sided_place _ _ _ SPIKE); auto; try lra.
    apply (sided_place _ _ _ ORB_JUMP); auto; lra.
  - split; [exact Hg|]. exact H.
Qed.

Lemma sided_segmentLoop (fuel k : nat) (bound : Q) (s : Segment)
    (objs : list LevelObject.t) :
  sided s ->
  segmentLoop showNumber random fuel k bound s = Some objs ->
  laidOut 1 objs.
Proof.
  revert k s. induction fuel as [|fuel IH]; intros k s H E; simpl in E.
  - destruct (cursor s <? bound); [discriminate|]. injection E as <-. apply H.
  - destruct (cursor s <? bound).
    + apply (IH _ _ (sided_segmentStep _ _ H) E).
    + injection E as <-. apply H.
Qed.

(** The call returns: the loop advances its cursor by at least 2 in
    every iteration, so [fuel] iterations suffice as soon as
    [length - 15 <= 2 * fuel]; more fuel does not change the result. *)
Theorem generateProceduralSegment_returns (fuel : nat) (startX length : Q) :
  length - 15 <= 2 * inject_Z (Z.of_nat fuel) ->
  exists objs,
    generateProceduralSegment showNumber random fuel startX length = Some objs /\
    forall fuel', (fuel <= fuel')%nat ->
      generateProceduralSegment showNumber random fuel' startX length = Some objs.
Proof.
  intro H. unfold generateProceduralSegment.
  destruct (segmentLoop_total fuel 0 (startX + length)
              (mkSegment [] (startX + 15) 1)) as (objs & E).
  { cbn [cursor]. lra. }
  exists objs. split; [exact E|].
  intros fuel' Hf. now apply (segmentLoop_more fuel fuel').
Qed.

Lemma segment_placed (fuel : nat) (startX length : Q)
    (objs : list LevelObject.t) :
  generateProceduralSegment showNumber random fuel startX length = Some objs ->
  Forall (generated startX length) objs.
Proof.
  intro E. unfold generateProceduralSegment in E.
  eapply placedWell_segmentLoop; [|exact E].
  unfold placedWell. cbn [currentGravity cursor placed].
  split; [left; reflexivity|]. split; [lra|constructor].
Qed.

(** Whatever values are drawn, every object of the segment is a spike,
    a block, a gravity portal or a yellow orb; its column is at least
    [startX + 15] and less than [startX + length + 2]; its row is
    between 1 and [CEILING_HEIGHT]; its rotation is 0, or 180 for a
    spike placed under inverted gravity; and the objects come in
    ascending order of their columns. *)
Theorem generated_segment (fuel : nat) (startX length : Q)
    (objs : list LevelObject.t) :
  generateProceduralSegment showNumber random fuel startX length = Some objs ->
  Forall (generated startX length) objs /\ ascending objs.
Proof.
  intro E. split; [now apply (segment_placed fuel)|].
  unfold generateProceduralSegment in E.
  eapply inOrder_segmentLoop; [|exact E].
  unfold inOrder. cbn [placed]. split; [exact I|intros a []].
Qed.

(** The generator follows the gravity it expects the player to have:
    scanning the segment from the left and flipping gravity behind
    every gravity portal, the objects met under normal gravity are in
    rows 1 to 3 and those met under inverted gravity in rows 10 to
    12. *)
Theorem generated_segment_follows_gravity (fuel : nat) (startX length : Q)
    (objs : list LevelObject.t) :
  generateProceduralSegment showNumber random fuel startX length = Some objs ->
  laidOut 1 objs.
Proof.
  intro E. unfold generateProceduralSegment in E.
  eapply sided_segmentLoop; [|exact E].
  unfold sided. cbn [currentGravity placed gravityAfter laidOut].
  split; [left; reflexivity|]. split; [exact I|reflexivity].
Qed.

End ProceduralFacts.

Lemma generateProceduralSegment_returns_witness :
  exists objs,
    generateProceduralSegment showInteger sampleRandom 20 0 50 = Some objs /\
    forall fuel', (20 <= fuel')%nat ->
      generateProceduralSegment showInteger sampleRandom fuel' 0 50 = Some objs.
Proof.
  apply (generateProceduralSegment_returns showInteger sampleRandom 20 0 50).
  vm_compute. discriminate.
Defined.

Lemma generated_segment_witness :
  Forall (generated 0 50) sampleSegment /\ ascending sampleSegment.
Proof.
  apply (generated_segment showInteger sampleRandom 20 0 50 sampleSegment).
  vm_compute. reflexivity.
Defined.

Lemma generated_segment_follows_gravity_witness :
  laidOut 1 sampleSegment.
Proof.
  apply (generated_segment_follows_gravity showInteger sampleRandom 20 0 50
           sampleSegment).
  vm_compute. reflexivity.
Defined.

(** ** The endless run *)

(** A procedural run has obstacles only where the one call of the
    generator put them.  A living player that has passed the segment
    (column [startX + length + 2]) does not die any more and, the level
    having no end in this mode, no callback is invoked any more. *)
Theorem nothing_beyond_the_segment (showNumber : Q -> string)
    (random : nat -> Q) (fuel : nat) (startX length : Q)
    (objs : list LevelObject.t) (props : Props)
    (frames : list (list InputEvent)) (w : World) :
  generateProceduralSegment showNumber random fuel startX length = Some objs ->
  isProcedural props = true ->
  isDead (player w) = false ->
  0 < speedMultiplier (player w) ->
  (startX + length + 2) * TILE_SIZE + TILE_SIZE <= posX w + 10 ->
  isDead (player (run props (proceduralLevel objs) frames w)) = false /\
  callbacks (emitted (run props (proceduralLevel objs) frames w)) =
  callbacks (emitted w).
Proof.
  intros E Hp Hd Hs Hx.
  pose proof (segment_placed showNumber random fuel startX length objs E)
    as Hg.
  assert (H : passed (proceduralLevel objs) w).
  { split; [exact Hd|]. split; [exact Hs|].
    intros o Ho _. cbn [proceduralLevel LevelData.objects] in Ho.
    rewrite Forall_forall in Hg. destruct (Hg o Ho) as ((_ & Hlt) & _).
    unfold TILE_SIZE in *. lra. }
  destruct (passed_run props (proceduralLevel objs) frames w eq_refl H)
    as ((Ha & _) & Hq).
  split; [exact Ha|]. now apply Hq.
Qed.

Lemma nothing_beyond_the_segment_witness :
  isDead (player (run proceduralProps (proceduralLevel sampleSegment)
                      (idle 3) pastSegment)) = false /\
  callbacks (emitted (run proceduralProps (proceduralLevel sampleSegment)
                          (idle 3) pastSegment)) =
  callbacks (emitted pastSegment).
Proof.
  apply (nothing_beyond_the_segment showInteger sampleRandom 20 0 50
           sampleSegment proceduralProps (idle 3) pastSegment).
  - vm_compute. reflexivity.
  - reflexivity.
  - reflexivity.
  - vm_compute. reflexivity.
  - vm_compute. discriminate.
Defined.

(** ** Rounding *)

Lemma Qfloor_unique (q : Q) (z : Z) :
  inject_Z z <= q -> q < inject_Z z + 1 -> Qfloor q = z.
Proof.
  intros H1 H2.
  pose proof (Qfloor_le q) as F1. pose proof (Qlt_floor q) as F2.
  assert (A : (z < Qfloor q + 1)%Z).
  { rewrite Zlt_Qlt. lra. }
  assert (B : (Qfloor q < z + 1)%Z).
  { rewrite Zlt_Qlt, inject_Z_plus. change (inject_Z 1) with 1. lra. }
  lia.
Qed.



(** ** The cells of the editor *)

Lemma inCell_offCell (x y : Q) (o : LevelObject.t) :
  offCell x y o = negb (inCell x y o).
Proof.
  unfold offCell, inCell. now rewrite negb_andb.
Qed.

Lemma inCell_other (x y x' y' : Q) (o : LevelObject.t) :
  ~ (x' == x /\ y' == y) ->
  inCell x' y' o = true -> offCell x y o = true.
Proof.
  intros Hn H. unfold inCell, offCell in *. qprop.
  destruct (Qeqb_spec (LevelObject.x o) x), (Qeqb_spec (LevelObject.y o) y);
    simpl; try reflexivity.
  exfalso. apply Hn. split; lra.
Qed.

Lemma filter_inCell_offCell (x y : Q) (objs : list LevelObject.t) :
  filter (inCell x y) (filter (offCell x y) objs) = [].
Proof.
  induction objs as [|o objs IH]; simpl; [reflexivity|].
  destruct (offCell x y o) eqn:E; simpl; [|exact IH].
  rewrite inCell_offCell in E. apply negb_true_iff in E. now rewrite E.
Qed.

Lemma filter_inCell_other (x y x' y' : Q) (objs : list LevelObject.t) :
  ~ (x' == x /\ y' == y) ->
  filter (inCell x' y') (filter (offCell x y) objs) = filter (inCell x' y') objs.
Proof.
  intro Hn. induction objs as [|o objs IH]; simpl; [reflexivity|].
  destruct (inCell x' y' o) eqn:E.
  - rewrite (inCell_other x y x' y' o Hn E). simpl. now rewrite E, IH.
  - destruct (offCell x y o); simpl; [rewrite E|]; exact IH.
Qed.

Lemma find_none_offCell (x y : Q) (objs : list LevelObject.t) :
  find (inCell x y) (filter (offCell x y) objs) = None.
Proof.
  induction objs as [|o objs IH]; simpl; [reflexivity|].
  destruct (offCell x y o) eqn:E; simpl; [|exact IH].
  rewrite inCell_offCell in E. apply negb_true_iff in E. now rewrite E.
Qed.

Lemma find_app_none {A : Type} (f : A -> bool) (l l' : list A) :
  find f l = None -> find f (l ++ l') = find f l'.
Proof.
  induction l as [|a l IH]; simpl; [reflexivity|].
  destruct (f a); [discriminate|exact IH].
Qed.

Lemma inCell_self (id : string) (t : EntityType) (x y : Q) (r : option Q) :
  inCell x y (LevelObject.mk id t x y r) = true.
Proof.
  unfold inCell. simpl. apply andb_true_iff. split; apply Qeq_bool_iff; reflexivity.
Qed.

(** [placeBlock] in a cell of the grid ([x >= 0], [y >= 1]) leaves
    exactly one object in that cell, the new one, of the selected type
    and unrotated: the EDIT tool finds it there.  The objects of every
    other cell are kept, in their order. *)
Theorem placeBlock_fills_the_cell (selectedEntity : EntityType) (newId : string)
    (x y : Q) (objects : list LevelObject.t) :
  0 <= x -> 1 <= y ->
  filter (inCell x y) (placeBlock selectedEntity newId x y objects) =
    [LevelObject.mk newId selectedEntity x y (Some 0)] /\
  selectAt x y (placeBlock selectedEntity newId x y objects) = Some newId /\
  forall x' y', ~ (x' == x /\ y' == y) ->
    filter (inCell x' y') (placeBlock selectedEntity newId x y objects) =
    filter (inCell x' y') objects.
Proof.
  intros Hx Hy. unfold placeBlock.
  assert (E : (x <? 0) || (y <? 1) = false).
  { apply orb_false_iff. split; apply Qltb_false; assumption. }
  rewrite E. cbv zeta. split; [|split].
  - rewrite filter_app, filter_inCell_offCell. simpl. now rewrite inCell_self.
  - unfold selectAt. rewrite find_app_none by apply find_none_offCell.
    simpl. now rewrite inCell_self.
  - intros x' y' Hn. rewrite filter_app, filter_inCell_other by exact Hn.
    simpl. destruct (inCell x' y' _) eqn:Ei; [|apply app_nil_r].
    exfalso. apply Hn. unfold inCell in Ei. simpl in Ei. qprop. split; lra.
Qed.

Lemma placeBlock_fills_the_cell_witness :
  selectAt 15 2
    (placeBlock HALF_SPIKE "new" 15 2 (LevelData.objects DEFAULT_LEVEL)) =
  Some "new"%string.
Proof.
  apply (placeBlock_fills_the_cell HALF_SPIKE "new" 15 2
           (LevelData.objects DEFAULT_LEVEL)).
  - vm_compute. discriminate.
  - vm_compute. discriminate.
Defined.

(** Outside the grid [placeBlock] does nothing. *)
Lemma placeBlock_outside (selectedEntity : EntityType) (newId : string)
    (x y : Q) (objects : list LevelObject.t) :
  x < 0 \/ y < 1 ->
  placeBlock selectedEntity newId x y objects = objects.
Proof.
  intro H. unfold placeBlock.
  assert (E : (x <? 0) || (y <? 1) = true).
  { apply orb_true_iff. destruct H; [left|right]; now apply Qltb_true. }
  now rewrite E.
Qed.

(** The ERASE tool empties the cell and keeps the objects of every
    other cell; erasing what was just placed gives what erasing alone
    gives. *)
Theorem erase_empties_the_cell (selectedEntity : EntityType) (newId : string)
    (x y : Q) (objects : list LevelObject.t) :
  filter (inCell x y) (erase x y objects) = [] /\
  (forall x' y', ~ (x' == x /\ y' == y) ->
     filter (inCell x' y') (erase x y objects) = filter (inCell x' y') objects) /\
  erase x y (placeBlock selectedEntity newId x y objects) = erase x y objects /\
  selectAt x y (erase x y objects) = None.
Proof.
  unfold erase. split; [apply filter_inCell_offCell|].
  split; [intros x' y' Hn; now apply filter_inCell_other|]. split.
  - unfold placeBlock. destruct ((x <? 0) || (y <? 1)); [reflexivity|].
    cbv zeta. rewrite filter_app. simpl.
    rewrite inCell_offCell, inCell_self. simpl. rewrite app_nil_r.
    induction objects as [|o objs IH]; simpl; [reflexivity|].
    destruct (offCell x y o) eqn:E; simpl; [rewrite E|]; congruence.
  - unfold selectAt. now rewrite find_none_offCell.
Qed.

(** ** Rotating the selection *)




Lemma rotateObject_keeps (o : LevelObject.t) :
  LevelObject.id (rotateObject o) = LevelObject.id o /\
  sameObject o (rotateObject o).
Proof. unfold rotateObject, sameObject. simpl. auto. Qed.







(** ** The simulation reads the type and the cell of an object only *)

Lemma blockSupports_same (g pX posy : Q) (a b : LevelObject.t) :
  sameObject a b -> blockSupports g pX posy a = blockSupports g pX posy b.
Proof.
  destruct a, b. unfold sameObject. simpl. intros (-> & -> & ->). reflexivity.
Qed.

Lemma existsb_same (g pX posy : Q) (l l' : list LevelObject.t) :
  Forall2 sameObject l l' ->
  existsb (blockSupports g pX posy) l = existsb (blockSupports g pX posy) l'.
Proof.
  induction 1 as [|a b l l' Hab _ IH]; simpl; [reflexivity|].
  now rewrite (blockSupports_same g pX posy a b Hab), IH.
Qed.

Lemma collideObject_same (props : Props) (c : TickCtx) (a b : LevelObject.t)
    (w : World) :
  sameObject a b -> collideObject props c a w = collideObject props c b w.
Proof.
  destruct a, b. unfold sameObject. simpl. intros (-> & -> & ->). reflexivity.
Qed.

Lemma collide_same (props : Props) (c : TickCtx) (l l' : list LevelObject.t)
    (w : World) :
  Forall2 sameObject l l' -> collide props c l w = collide props c l' w.
Proof.
  intro H. revert w. induction H as [|a b l l' Hab _ IH]; intro w; simpl;
    [reflexivity|].
  rewrite (collideObject_same props c a b w Hab).
  destruct (collideObject props c b w); [apply IH|reflexivity].
Qed.

Lemma update_same (props : Props) (lvl lvl' : LevelData.t) (w : World) :
  sameLevel lvl lvl' -> update props lvl w = update props lvl' w.
Proof.
  intros (Ho & El & Em). unfold update. cbv zeta.
  destruct (isDead (player (tickStart w))); [reflexivity|].
  assert (Eb : forall u, beforeLoop props lvl u = beforeLoop props lvl' u).
  { intro u. unfold beforeLoop, stabilityCheck.
    rewrite Em, (existsb_same _ _ _ _ _ Ho). reflexivity. }
  unfold simulate, runLoop, loopCtx, loopEntry.
  rewrite Eb, (collide_same _ _ _ _ _ Ho).
  destruct (collide _ _ _ _); [|reflexivity].
  unfold afterCollisions, winCheck, pastEnd, updateCamera, floorCeiling.
  now rewrite El, Em.
Qed.

Lemma run_same (props : Props) (lvl lvl' : LevelData.t)
    (frames : list (list InputEvent)) (w : World) :
  sameLevel lvl lvl' -> run props lvl frames w = run props lvl' frames w.
Proof.
  intro H. unfold run. revert w.
  induction frames as [|evs frames IH]; intro w; simpl; [reflexivity|].
  unfold frame at 2 4. now rewrite (update_same props lvl lvl' _ H), IH.
Qed.

Lemma rotateSelection_same (sel : option string) (objs : list LevelObject.t) :
  Forall2 sameObject (rotateSelection sel objs) objs.
Proof.
  assert (R : forall l, Forall2 sameObject l l).
  { induction l; constructor; auto. repeat split. }
  unfold rotateSelection. destruct sel as [sel|]; [|apply R].
  destruct (String.eqb sel ""); [apply R|].
  induction objs as [|o objs IH]; simpl; constructor; [|exact IH].
  unfold turnSelected.
  destruct (String.eqb (LevelObject.id o) sel); repeat split.
Qed.

(** Rotating objects in the editor changes no run: [update] reads the
    type and the cell of an object, never its rotation (nor its id).
    A rotated spike or half spike is drawn turned and kills where the
    unrotated one does. *)
Theorem rotation_is_cosmetic (sel : option string) (props : Props)
    (level : LevelData.t) (frames : list (list InputEvent)) (w : World) :
  run props (rotatedLevel sel level) frames w = run props level frames w.
Proof.
  apply run_same. unfold sameLevel, rotatedLevel. simpl.
  split; [apply rotateSelection_same|split; reflexivity].
Qed.

(** ** The length of a test level *)

Lemma fold_max_ge (objs : list LevelObject.t) (m : Q) :
  m <= fold_left (fun max obj => Math_max max (LevelObject.x obj)) objs m /\
  (forall o, In o objs ->
     LevelObject.x o <=
     fold_left (fun max obj => Math_max max (LevelObject.x obj)) objs m) /\
  (fold_left (fun max obj => Math_max max (LevelObject.x obj)) objs m = m \/
   exists o, In o objs /\
     fold_left (fun max obj => Math_max max (LevelObject.x obj)) objs m =
     LevelObject.x o).
Proof.
  revert m. induction objs as [|a objs IH]; intro m; simpl.
  - split; [lra|]. split; [intros o []|now left].
  - destruct (IH (Math_max m (LevelObject.x a))) as (H1 & H2 & H3).
    assert (Hm : m <= Math_max m (LevelObject.x a) /\
                 LevelObject.x a <= Math_max m (LevelObject.x a) /\
                 (Math_max m (LevelObject.x a) = m \/
                  Math_max m (LevelObject.x a) = LevelObject.x a)).
    { unfold Math_max. destruct (Qltb_spec m (LevelObject.x a));
        repeat split; auto; lra. }
    destruct Hm as (M1 & M2 & M3).
    split; [lra|]. split.
    + intros o [<-|Ho]; [lra|now apply H2].
    + destruct H3 as [H3|(o & Ho & H3)].
      * rewrite H3. destruct M3 as [-> | ->]; [now left|].
        right. exists a. auto.
      * right. exists o. auto.
Qed.

(** The level handed to a test run is at least 50 tiles long and ends
    23 tiles or more behind its last object; it is exactly the larger
    of the two.  So when a run over it reports the end reached, every
    spike and block is behind the player. *)
Theorem test_level_length (level : LevelData.t) :
  let lvl := handleTestPlay level in
  LevelData.objects lvl = LevelData.objects level /\
  50 <= LevelData.length lvl /\
  (forall o, In o (LevelData.objects level) ->
     LevelObject.x o + 23 <= LevelData.length lvl) /\
  (LevelData.length lvl = 50 \/
   exists o, In o (LevelData.objects level) /\
     LevelData.length lvl = LevelObject.x o + 23) /\
  (forall props w, pastEnd props lvl w = true -> behind lvl w).
Proof.
  cbv zeta. unfold handleTestPlay, testLength, lastObjectX.
  cbn [LevelData.objects LevelData.length].
  destruct (fold_max_ge (LevelData.objects level) 0) as (H1 & H2 & H3).
  set (m := fold_left _ _ _) in *.
  assert (Hm : 50 <= Math_max 50 (m + 23) /\ m + 23 <= Math_max 50 (m + 23) /\
               (Math_max 50 (m + 23) = 50 \/ Math_max 50 (m + 23) = m + 23)).
  { unfold Math_max. destruct (Qltb_spec 50 (m + 23)); repeat split; auto; lra. }
  destruct Hm as (M1 & M2 & M3).
  split; [reflexivity|]. split; [exact M1|]. split; [|split].
  - intros o Ho. specialize (H2 o Ho). lra.
  - destruct M3 as [M3|M3]; [now left|].
    destruct H3 as [H3|(o & Ho & H3)].
    + left. rewrite M3, H3 in *. exfalso. lra.
    + right. exists o. split; [exact Ho|]. now rewrite M3, H3.
  - intros props w Hp o Ho _. unfold pastEnd in Hp.
    cbn [LevelData.objects LevelData.length] in *. qprop.
    specialize (H2 o Ho). unfold TILE_SIZE in *. lra.
Qed.

(** ** From the pointer to the cell *)




(** ** The page and its runner *)

Lemma deliver_callbacks (r : GameState) (l : list Event) (app : App) :
  fold_left (deliver r) l app = fold_left (deliver r) (callbacks l) app.
Proof.
  revert app. induction l as [|e l IH]; intro app; [reflexivity|].
  destruct e; simpl; apply IH.
Qed.

(** The callbacks of one frame of the runner. *)
Lemma runner_callbacks (props : Props) (lvl : LevelData.t) (w : World) :
  callbacks (since w (update props lvl w)) =
  if isDead (player w) then [] else tickCallbacks props lvl w.
Proof.
  destruct (isDead (player w)) eqn:Hd.
  - now destruct (since_update_dead props lvl w Hd).
  - now destruct (since_update_alive props lvl w Hd).
Qed.

Lemma runnerFrame_cases (props : Props) (lvl : LevelData.t) (w : World)
    (evs : list InputEvent) (app : App) :
  let w1 := fold_left handleInput evs w in
  let w2 := update props lvl w1 in
  runnerFrame props lvl w evs app =
  fold_left (deliver (gameState app))
    (if isDead (player w1) then []
     else (if isDead (player w2) then [deathCallback props w2] else []) ++
          (if negb (crashes props lvl w1) && pastEnd props lvl w2
           then [winCallback props w2] else []))
    app.
Proof.
  cbv zeta. unfold runnerFrame. cbv zeta.
  now rewrite deliver_callbacks, runner_callbacks.
Qed.

(** The win screen cannot be reached.  [handleWin] is the only place
    that sets [WON], and only for a render in the state PLAYING; the
    runner mounted in that state is procedural, for which [update]
    skips the test for the end of the level, and the runner mounted in
    the state TESTING reports to [onTestComplete]. *)
Theorem won_is_unreachable (app : App) :
  reachable app -> gameState app <> WON.
Proof.
  induction 1 as [|a app _ IH Ho|props lvl w evs app _ IH Hp].
  - discriminate.
  - destruct a, (gameState app) eqn:E; try discriminate Ho;
      simpl; try rewrite E; discriminate.
  - rewrite runnerFrame_cases. cbv zeta.
    destruct (gameState app) eqn:E; try discriminate Hp;
      injection Hp as <-;
      unfold deathCallback, winCallback, pastEnd;
      cbn [isProcedural isTestMode onTestComplete isPlaying isTesting
           negb andb];
      destruct (isDead (player (fold_left handleInput evs w)));
      try (simpl; rewrite E; discriminate);
      destruct (isDead (player (update _ lvl (fold_left handleInput evs w))));
      rewrite ?andb_false_r; simpl; try rewrite E; try discriminate;
      destruct (negb _ && _); simpl; try rewrite E; discriminate.
Qed.

Lemma won_is_unreachable_witness :
  gameState (act ClickRetry
               (runnerFrame proceduralProps spikeLevel
                  (run proceduralProps spikeLevel (idle 8) initialWorld) []
                  (act ClickPlay initialApp))) <> WON.
Proof.
  apply (won_is_unreachable _).
  apply reach_act; [|vm_compute; reflexivity].
  apply reach_frame; [|reflexivity].
  apply reach_act; [apply reach_initial|reflexivity].
Defined.

(** What a frame of the runner does to the page.  In the state PLAYING
    the page goes to GAME_OVER on the frame that kills the player and
    is left alone by every other frame.  In the state TESTING the page
    returns to the editor on the frame that kills the player or finds
    it past the end, with the trail recorded by the runner; the death
    position is the position of the player, unless the end-of-level
    test of that frame reported last, in which case it is none.  Every
    other frame leaves the page alone. *)
Theorem frame_outcome_on_the_page (lvl : LevelData.t) (w : World)
    (evs : list InputEvent) (app : App) :
  let w1 := fold_left handleInput evs w in
  (gameState app = PLAYING ->
   let props := mkProps true false true in
   let w2 := update props lvl w1 in
   runnerProps (gameState app) = Some props /\
   runnerFrame props lvl w evs app =
   if negb (isDead (player w1)) && isDead (player w2)
   then setGameState GAME_OVER app else app) /\
  (gameState app = TESTING ->
   let props := mkProps false true true in
   let w2 := update props lvl w1 in
   let reachedEnd := negb (crashes props lvl w1) && pastEnd props lvl w2 in
   runnerProps (gameState app) = Some props /\
   runnerFrame props lvl w evs app =
   if negb (isDead (player w1)) && (isDead (player w2) || reachedEnd)
   then mkApp EDITOR (levelData app) (key app) (recordedTrail w2)
              (if reachedEnd then None else Some (position (player w2)))
   else app).
Proof.
  cbv zeta. split; intro E; (split; [now rewrite E|]);
    rewrite runnerFrame_cases; cbv zeta; rewrite E;
    unfold deathCallback, winCallback, pastEnd;
    cbn [isProcedural isTestMode onTestComplete negb andb];
    destruct (isDead (player (fold_left handleInput evs w)));
    cbn [negb andb fold_left]; try reflexivity;
    destruct (isDead (player (update _ lvl (fold_left handleInput evs w))));
    rewrite ?andb_false_r; cbn [orb Datatypes.app fold_left deliver];
    try reflexivity;
    try (destruct (negb (crashes _ _ _) && _));
    cbn [orb Datatypes.app fold_left deliver handleTestComplete handleDie
         isPlaying];
    destruct app; reflexivity.
Qed.

(** ** The debug outlines *)

(** With [showHitboxes] the runner and the editor stroke the same
    outline for every object: the region that [update] tests against
    the player (the box of a block, spike or half spike, the strip of
    a portal, the circle of radius 32 around the centre of an orb),
    in a frame turned by the rotation of the object about the centre
    of its tile.  For an object that is not rotated the outline is
    where the object is tested; [update] does not turn the region of
    a rotated one.  An object of any other type gets no outline and
    has no effect in the loop. *)
Theorem outlines_show_what_is_tested (obj : LevelObject.t) :
  runnerHitbox obj = (drawTurn obj, testedRegion obj) /\
  editorHitbox obj = (drawTurn obj, testedRegion obj) /\
  (rotationOr0 (LevelObject.rotation obj) == 0 ->
   runnerHitbox obj = (None, testedRegion obj) /\
   editorHitbox obj = (None, testedRegion obj)) /\
  (testedRegion obj = None ->
   forall props c w, collideObject props c obj w = Continue w).
Proof.
  assert (R : runnerOutline obj = testedRegion obj).
  { unfold runnerOutline, testedRegion, hitBox, portalRect, centerX, centerY,
      orbRadius.
    destruct (LevelObject.type obj); reflexivity. }
  assert (E : editorOutline obj = testedRegion obj).
  { unfold editorOutline, testedRegion, hitBox, portalRect, centerX, centerY,
      orbRadius.
    destruct (LevelObject.type obj); reflexivity. }
  unfold runnerHitbox, editorHitbox. rewrite R, E.
  split; [reflexivity|]. split; [reflexivity|]. split.
  - intro H0.
    assert (T : drawTurn obj = None).
    { unfold drawTurn. destruct (LevelObject.rotation obj) as [r|];
        [|reflexivity].
      cbn [rotationOr0] in H0. apply Qeq_bool_iff in H0. now rewrite H0. }
    rewrite T. split; reflexivity.
  - unfold testedRegion, collideObject, handleSolid.
    destruct (LevelObject.type obj); cbn [isOrb isPortal isLethal isBlock orb];
      try discriminate;
      intros _ props c w; destruct (checkCollision _ _); reflexivity.
Qed.

(** ** The progress display *)

Lemma Math_floor_100 (q : Q) :
  q <= 100 -> (Math_floor q = inject_Z 100 <-> 100 <= q).
Proof.
  intro H. unfold Math_floor. split.
  - intro E. pose proof (Qfloor_le q) as F.
    assert (E' : Qfloor q = 100%Z).
    { unfold inject_Z in E. now injection E. }
    rewrite E' in F. exact F.
  - intro G. f_equal. apply Qfloor_unique; change (inject_Z 100) with 100; lra.
Qed.

Lemma clamp_0_100 (a : Q) :
  (0 <= Math_min 100 (Math_max 0 a) /\ Math_min 100 (Math_max 0 a) <= 100) /\
  (100 <= Math_min 100 (Math_max 0 a) <-> 100 <= a) /\
  (forall b, a <= b ->
     Math_min 100 (Math_max 0 a) <= Math_min 100 (Math_max 0 b)).
Proof.
  unfold Math_min, Math_max. split; [|split; [|intros b Hb]].
  - destruct (Qltb_spec 0 a); qcase; lra.
  - destruct (Qltb_spec 0 a); qcase; split; intro; lra.
  - destruct (Qltb_spec 0 a), (Qltb_spec 0 b); repeat qcase; lra.
Qed.

Lemma ratio_full (x D : Q) :
  0 < D -> (100 <= x / D * 100 <-> D <= x).
Proof.
  intro HD. assert (E : x == (x / D) * D) by (field; lra).
  revert E. generalize (x / D). intros q E. split; intro G; nra.
Qed.

Lemma ratio_mono (x x' D : Q) :
  0 < D -> x <= x' -> x / D * 100 <= x' / D * 100.
Proof.
  intros HD G.
  assert (E : x == (x / D) * D) by (field; lra).
  assert (E' : x' == (x' / D) * D) by (field; lra).
  revert E E'. generalize (x / D) (x' / D). intros q q' E E'. nra.
Qed.

(** For a level of positive length: the progress is between 0 and 100,
    so the bar never leaves its 200 px track; the display shows 100
    percent exactly when the player is at or past
    [length * TILE_SIZE], in particular on every tick that reports the
    end of the level reached; and the progress never decreases as the
    player advances. *)
Theorem progress_display (lvl : LevelData.t) (w : World) :
  0 < LevelData.length lvl ->
  (0 <= progress lvl w /\ progress lvl w <= 100) /\
  (Rect.x progressTrack <= Rect.x (progressBar lvl w) /\
   Rect.x (progressBar lvl w) + Rect.w (progressBar lvl w) <=
   Rect.x progressTrack + Rect.w progressTrack) /\
  (progressPercent lvl w = inject_Z 100 <->
   LevelData.length lvl * TILE_SIZE <= posX w) /\
  (forall props, pastEnd props lvl w = true ->
     progressPercent lvl w = inject_Z 100) /\
  (forall w', posX w <= posX w' -> progress lvl w <= progress lvl w').
Proof.
  intro HL.
  set (D := LevelData.length lvl * TILE_SIZE).
  assert (HD : 0 < D) by (unfold D, TILE_SIZE; lra).
  assert (T : forall u, progress lvl u = Math_min 100 (Math_max 0 (posX u / D * 100)))
    by reflexivity.
  assert (R : forall u, 100 <= posX u / D * 100 <-> D <= posX u)
    by (intro u; now apply ratio_full).
  assert (M : forall u u', posX u <= posX u' ->
                posX u / D * 100 <= posX u' / D * 100)
    by (intros u u'; now apply ratio_mono).
  assert (B : forall u, 0 <= progress lvl u /\ progress lvl u <= 100).
  { intro u. rewrite T. apply clamp_0_100. }
  assert (C : forall u, 100 <= progress lvl u <-> D <= posX u).
  { intro u. rewrite T, <- (R u). apply clamp_0_100. }
  split; [apply B|]. split.
  - unfold progressBar, progressTrack. simpl. destruct (B w). lra.
  - split; [|split].
    + unfold progressPercent. rewrite Math_floor_100 by apply B. apply C.
    + intros props Hp. unfold progressPercent.
      apply Math_floor_100; [apply B|]. apply C.
      unfold pastEnd in Hp. qprop. fold D in H0. lra.
    + intros w' G. specialize (M w w' G). rewrite !T.
      now apply clamp_0_100.
Qed.

Lemma progress_display_witness :
  progressPercent noObject
    (run playProps noObject (idle 267) initialWorld) = inject_Z 100 <->
  LevelData.length noObject * TILE_SIZE <=
  posX (run playProps noObject (idle 267) initialWorld).
Proof.
  apply (progress_display noObject
           (run playProps noObject (idle 267) initialWorld)).
  vm_compute. reflexivity.
Defined.

(** ** The keys *)

Lemma jump_loopEntry (props : Props) (lvl : LevelData.t) (w : World) :
  jump (input (loopEntry props lvl w)) = jump (input w).
Proof.
  unfold loopEntry, beforeLoop, advanceY, physics.
  set (g := gravityScale (player w)).
  assert (H1 : forall u, input (applySpeed (applyGravity g u)) = input u).
  { intro u. unfold applySpeed, applyGravity. split_ifs; reflexivity. }
  assert (H2 : forall u, input (groundJump g u) = input u).
  { intro u. unfold groundJump. split_ifs; reflexivity. }
  assert (H3 : forall u, input (rotate g (advanceX (clampVelocity g u))) = input u).
  { intro u. unfold rotate, advanceX, clampVelocity. split_ifs; reflexivity. }
  assert (H0 : forall u, input (stabilityCheck lvl g u) = input u).
  { intro u. unfold stabilityCheck. split_ifs; reflexivity. }
  simpl. now rewrite H3, H2, H1, H0, input_recordTrail.
Qed.

Lemma jump_collideObject (props : Props) (c : TickCtx) (o : LevelObject.t)
    (w : World) :
  match collideObject props c o w with
  | Continue w' | Return w' => jump (input w') = jump (input w)
  end.
Proof.
  unfold collideObject, handleOrb, handlePortal, gravityPortal, handleSolid,
    handleBlock, crash, reportDeath.
  split_ifs;
    repeat match goal with H : (_, _) = (_, _) |- _ => inversion H; clear H; subst end;
    try discriminate; reflexivity.
Qed.

Lemma jump_collide (props : Props) (c : TickCtx) (objs : list LevelObject.t)
    (w : World) :
  match collide props c objs w with
  | Continue w' | Return w' => jump (input w') = jump (input w)
  end.
Proof.
  revert w. induction objs as [|o objs IH]; intro w; simpl; [reflexivity|].
  pose proof (jump_collideObject props c o w) as Ho.
  destruct (collideObject props c o w) as [w1|w1]; [|exact Ho].
  specialize (IH w1). destruct (collide props c objs w1); congruence.
Qed.

(** No tick changes whether the jump control is held. *)
Lemma jump_update (props : Props) (lvl : LevelData.t) (w : World) :
  jump (input (update props lvl w)) = jump (input w).
Proof.
  unfold update. cbv zeta.
  destruct (isDead (player (tickStart w))).
  - simpl. now rewrite input_tickStart.
  - unfold simulate, runLoop.
    pose proof (jump_collide props (loopCtx props lvl (tickStart w))
                  (LevelData.objects lvl) (loopEntry props lvl (tickStart w))) as H.
    rewrite jump_loopEntry, input_tickStart in H.
    destruct (collide _ _ _ _) as [w1|w1]; [|exact H].
    rewrite input_afterCollisions. cbn [jump]. rewrite <- H.
    unfold floorCeiling, reportDeath. split_ifs; reflexivity.
Qed.

Lemma handleKeyDown_held (code : string) (w : World) :
  jump (input w) = true -> handleKeyDown code w = w.
Proof.
  intro H. unfold handleKeyDown, handleDown.
  destruct (isJumpKey code); [|reflexivity].
  rewrite H. destruct w as [p [j f] t r s c e]. simpl in *. now subst.
Qed.

(** A jump key (or the pointer) that is kept down is one press.  Once
    a tick has run to its end with the control held, the one-shot flag
    is cleared and the key-down events that follow without a release,
    the auto-repeat of the keyboard and the other jump keys included,
    leave the input as it is: held, not pressed. *)
Theorem held_key_is_one_press (props : Props) (lvl : LevelData.t) (w : World)
    (codes : list string) :
  isDead (player w) = false ->
  jump (input w) = true ->
  crashes props lvl w = false ->
  fold_left (fun u code => handleKeyDown code u) codes (update props lvl w) =
    update props lvl w /\
  input (update props lvl w) = mkInput true false.
Proof.
  intros Hd Hj Hc.
  assert (Hi : input (update props lvl w) = mkInput true false).
  { pose proof (jump_update props lvl w) as J. rewrite Hj in J.
    assert (P : jumpPressedThisFrame (input (update props lvl w)) = false).
    { rewrite update_alive by exact Hd. unfold crashes in Hc. unfold simulate.
      destruct (runLoop props lvl (tickStart w)); [|discriminate].
      apply pressed_afterCollisions. }
    destruct (input (update props lvl w)). simpl in *. now subst. }
  split; [|exact Hi].
  induction codes as [|c codes IH]; simpl; [reflexivity|].
  rewrite handleKeyDown_held; [exact IH|]. now rewrite Hi.
Qed.

Lemma held_key_is_one_press_witness :
  fold_left (fun u code => handleKeyDown code u) ["Space"; "KeyW"]%string
    (update playProps noObject (handleDown initialWorld)) =
    update playProps noObject (handleDown initialWorld) /\
  input (update playProps noObject (handleDown initialWorld)) = mkInput true false.
Proof.
  apply (held_key_is_one_press playProps noObject (handleDown initialWorld)).
  - reflexivity.
  - reflexivity.
  - vm_compute. reflexivity.
Defined.

(** ** The arc of a jump *)

Ltac stage f := unfold f; sim_unfold; cbn [andb orb negb]; sim_unfold.

(** Where no object is, what a tick does to a living player is what
    the stages around the loop do. *)
Lemma open_update (props : Props) (lvl : LevelData.t) (u : World) :
  LevelData.objects lvl = [] ->
  isDead (player u) = false ->
  exists u0,
    player u0 = player u /\ input u0 = input u /\
    player (update props lvl u) =
    player (floorCeiling props lvl (gravityScale (player u))
              (advanceY (physics (gravityScale (player u))
                           (stabilityCheck lvl (gravityScale (player u)) u0)))).
Proof.
  intros Hobjs Hd. exists (recordTrail props (tickStart u)).
  split; [now rewrite player_recordTrail, player_tickStart|].
  split; [now rewrite input_recordTrail, input_tickStart|].
  rewrite update_alive by exact Hd.
  unfold simulate, runLoop. rewrite Hobjs. cbn [collide].
  rewrite player_afterCollisions.
  unfold loopEntry, beforeLoop. now rewrite player_tickStart.
Qed.

(** A tick of free flight under normal gravity. *)
Lemma flight_tick (props : Props) (lvl : LevelData.t) (u : World) :
  LevelData.objects lvl = [] ->
  isDead (player u) = false ->
  gravityScale (player u) == 1 ->
  isGrounded (player u) = false ->
  velY u + 2 <= 30 ->
  isDead (player (update props lvl u)) = false /\
  gravityScale (player (update props lvl u)) = gravityScale (player u) /\
  (posY u + velY u + 2 < 0 ->
   isGrounded (player (update props lvl u)) = false /\
   velY (update props lvl u) == velY u + 2 /\
   posY (update props lvl u) == posY u + velY u + 2) /\
  (0 <= posY u + velY u + 2 ->
   isGrounded (player (update props lvl u)) = true /\
   velY (update props lvl u) == 0 /\
   posY (update props lvl u) == 0).
Proof.
  intros Hobjs Hd Hg Ha Hv.
  destruct (open_update props lvl u Hobjs Hd) as (u0 & Ep & Ei & E).
  unfold velY, posY in *. rewrite E. clear E.
  destruct u as [p i ? ? ? ? ?], u0 as [p0 i0 ? ? ? ? ?].
  cbn [player input] in *. subst p0 i0.
  destruct p as [[px py] [vx vy] gr dd rot g coj sm lp], i as [j jp].
  cbn [isDead isGrounded gravityScale velocity position Vector2.y] in *.
  subst.
  stage stabilityCheck. unfold physics.
  stage applyGravity. stage applySpeed. stage groundJump.
  rewrite andb_false_r.
  stage clampVelocity.
  destruct (Qeqb_spec g 1) as [_|Hn]; [|contradiction].
  destruct (Qltb_spec 30 (vy + 2.0 * g)) as [Hc|_]; [nra|].
  stage advanceX. stage rotate. stage advanceY. stage floorCeiling.
  destruct (Qeqb_spec g 1) as [_|Hn]; [|contradiction].
  qcase; sim_unfold; (split; [reflexivity|]); (split; [reflexivity|]);
    split; intro; repeat split; try reflexivity; try nra.
Qed.

(** The tick of the take-off. *)
Lemma takeoff_tick (props : Props) (lvl : LevelData.t) (u : World) :
  LevelData.objects lvl = [] ->
  isDead (player u) = false ->
  gravityScale (player u) == 1 ->
  isGrounded (player u) = true ->
  jump (input u) = true ->
  posY u < 24 ->
  isDead (player (update props lvl u)) = false /\
  gravityScale (player (update props lvl u)) = gravityScale (player u) /\
  isGrounded (player (update props lvl u)) = false /\
  velY (update props lvl u) == -24 /\
  posY (update props lvl u) == posY u - 24.
Proof.
  intros Hobjs Hd Hg Ha Hj Hy.
  destruct (open_update props lvl u Hobjs Hd) as (u0 & Ep & Ei & E).
  unfold velY, posY in *. rewrite E. clear E.
  destruct u as [p i ? ? ? ? ?], u0 as [p0 i0 ? ? ? ? ?].
  cbn [player input] in *. subst p0 i0.
  destruct p as [[px py] [vx vy] gr dd rot g coj sm lp], i as [j jp].
  cbn [isDead isGrounded gravityScale velocity position Vector2.y jump] in *.
  subst.
  stage stabilityCheck. unfold physics.
  stage applyGravity. stage applySpeed. stage groundJump.
  stage clampVelocity.
  destruct (Qeqb_spec g 1) as [_|Hn]; [|contradiction].
  destruct (Qltb_spec 30 (-24 * g)) as [Hc|_]; [nra|].
  stage advanceX. stage rotate. stage advanceY. stage floorCeiling.
  destruct (Qeqb_spec g 1) as [_|Hn]; [|contradiction].
  qcase; sim_unfold; [exfalso; nra|].
  repeat split; try reflexivity; nra.
Qed.

Lemma open_speed (props : Props) (lvl : LevelData.t) (u : World) :
  LevelData.objects lvl = [] ->
  isDead (player u) = false ->
  posX (update props lvl u) = posX u + MOVE_SPEED * speedMultiplier (player u) /\
  speedMultiplier (player (update props lvl u)) = speedMultiplier (player u).
Proof.
  intros Hobjs Hd.
  destruct (update_advance props lvl u Hd) as (Ex & _). split; [exact Ex|].
  rewrite update_alive by exact Hd.
  unfold simulate, runLoop. rewrite Hobjs. cbn [collide].
  destruct (afterCollisions_advance props lvl
              (gravityScale (player (tickStart u)))
              (loopEntry props lvl (tickStart u))) as (_ & ->).
  destruct (loopEntry_advance props lvl (tickStart u)) as (_ & ->).
  now rewrite player_tickStart.
Qed.

Lemma inFlight_inputs (x0 m : Q) (k : nat) (evs : list InputEvent) (u : World) :
  inFlight x0 m k u -> inFlight x0 m k (fold_left handleInput evs u).
Proof.
  revert u. induction evs as [|e evs IH]; intros u H; simpl; [exact H|].
  apply IH. destruct e; exact H.
Qed.

Lemma succ_Q (k : nat) :
  inject_Z (Z.of_nat (S k)) == inject_Z (Z.of_nat k) + 1.
Proof.
  rewrite Nat2Z.inj_succ. unfold Z.succ. rewrite inject_Z_plus. reflexivity.
Qed.

Lemma nat_Q_le (a b : nat) :
  (a <= b)%nat -> inject_Z (Z.of_nat a) <= inject_Z (Z.of_nat b).
Proof. intro H. rewrite <- Zle_Qle. lia. Qed.

Lemma inFlight_frame (props : Props) (lvl : LevelData.t) (x0 m : Q) (k : nat)
    (evs : list InputEvent) (u : World) :
  LevelData.objects lvl = [] ->
  (1 <= k)%nat ->
  inFlight x0 m k u ->
  ((S k <= 24)%nat -> inFlight x0 m (S k) (frame props lvl u evs)) /\
  (S k = 25%nat ->
   isDead (player (frame props lvl u evs)) = false /\
   isGrounded (player (frame props lvl u evs)) = true /\
   velY (frame props lvl u evs) == 0 /\
   posY (frame props lvl u evs) == 0 /\
   posX (frame props lvl u evs) == x0 + 25 * MOVE_SPEED * m).
Proof.
  intros Hobjs Hk H. apply (inFlight_inputs x0 m k evs) in H.
  unfold frame. set (u1 := fold_left handleInput evs u) in *. clearbody u1.
  destruct H as (Hd & Hg & Ha & Hv & Hy & Hx & Hm).
  pose proof (succ_Q k) as Es.
  pose proof (nat_Q_le 1 k Hk) as H1. change (inject_Z (Z.of_nat 1)) with 1 in H1.
  destruct (open_speed props lvl u1 Hobjs Hd) as (Ex & Em).
  split.
  - intro Hn. pose proof (nat_Q_le (S k) 24 Hn) as H24.
    change (inject_Z (Z.of_nat 24)) with 24 in H24.
    set (t := inject_Z (Z.of_nat k)) in *.
    set (t' := inject_Z (Z.of_nat (S k))) in *.
    destruct (flight_tick props lvl u1 Hobjs Hd Hg Ha) as (Hd' & Hg' & Hf & _);
      [lra|].
    destruct Hf as (Ha' & Hv' & Hy'); [nra|].
    unfold inFlight. fold t'.
    split; [exact Hd'|]. split; [now rewrite Hg'|]. split; [exact Ha'|].
    split; [lra|]. split; [nra|]. split; [|congruence].
    rewrite Ex, Hm. nra.
  - intro Hn. injection Hn as Hn. subst k.
    change (inject_Z (Z.of_nat 24)) with 24 in *.
    destruct (flight_tick props lvl u1 Hobjs Hd Hg Ha) as (Hd' & _ & _ & Hl);
      [lra|].
    destruct Hl as (Ha' & Hv' & Hy'); [lra|].
    repeat split; auto. rewrite Ex, Hm. lra.
Qed.

Lemma inFlight_run (props : Props) (lvl : LevelData.t) (x0 m : Q)
    (frames : list (list InputEvent)) (k : nat) (u : World) :
  LevelData.objects lvl = [] ->
  (1 <= k)%nat ->
  (k + List.length frames <= 24)%nat ->
  inFlight x0 m k u ->
  inFlight x0 m (k + List.length frames) (run props lvl frames u).
Proof.
  intro Hobjs. unfold run. revert k u.
  induction frames as [|evs frames IH]; intros k u Hk Hn H; simpl.
  - now rewrite Nat.add_0_r.
  - simpl in Hn. rewrite <- Nat.add_succ_comm in *.
    apply IH; [lia|exact Hn|].
    apply (inFlight_frame props lvl x0 m k evs u Hobjs Hk H). lia.
Qed.

Lemma inputs_keep_motion (evs : list InputEvent) (w : World) :
  position (player (fold_left handleInput evs w)) = position (player w) /\
  velocity (player (fold_left handleInput evs w)) = velocity (player w) /\
  isGrounded (player (fold_left handleInput evs w)) = isGrounded (player w) /\
  isDead (player (fold_left handleInput evs w)) = isDead (player w) /\
  gravityScale (player (fold_left handleInput evs w)) = gravityScale (player w) /\
  speedMultiplier (player (fold_left handleInput evs w)) =
  speedMultiplier (player w).
Proof.
  revert w. induction evs as [|e evs IH]; intro w; simpl;
    [repeat split|].
  destruct (IH (handleInput w e)) as (-> & -> & -> & -> & -> & ->).
  destruct e; repeat split.
Qed.

(** The jump from the floor, where no object is in the way (normal
    gravity, the jump control held on the first frame; what the input
    does afterwards does not matter).  After [n] frames, [n] from 1 to
    24, the player is in the air at height [n (25 - n)] above the
    floor, with vertical velocity [2 n - 26]: it rises for 12 frames to
    156 px, a quarter tile more than three tiles.  The 25th frame puts
    it back on the floor.  Each frame takes it [9 m] px to the right,
    [m] being the speed multiplier: a jump is 225 px long at normal
    speed. *)
Theorem jump_arc (props : Props) (lvl : LevelData.t) (w : World)
    (evs : list InputEvent) (frames : list (list InputEvent)) :
  LevelData.objects lvl = [] ->
  isDead (player w) = false ->
  gravityScale (player w) == 1 ->
  isGrounded (player w) = true ->
  posY w == 0 ->
  jump (input (fold_left handleInput evs w)) = true ->
  let n := S (List.length frames) in
  let t := inject_Z (Z.of_nat n) in
  let w' := run props lvl (evs :: frames) w in
  ((n <= 24)%nat ->
   isDead (player w') = false /\
   isGrounded (player w') = false /\
   posY w' == - t * (25 - t) /\
   velY w' == 2 * t - 26 /\
   posX w' == posX w + t * MOVE_SPEED * speedMultiplier (player w)) /\
  (n = 25%nat ->
   isDead (player w') = false /\
   isGrounded (player w') = true /\
   posY w' == 0 /\
   velY w' == 0 /\
   posX w' == posX w + 25 * MOVE_SPEED * speedMultiplier (player w)).
Proof.
  intros Hobjs Hd Hg Ha Hy Hj. cbv zeta.
  set (m := speedMultiplier (player w)).
  set (x0 := posX w).
  assert (H1 : inFlight x0 m 1 (frame props lvl w evs)).
  { unfold frame. set (u := fold_left handleInput evs w) in *.
    assert (Eu : posX u = x0 /\ speedMultiplier (player u) = m /\
                 isDead (player u) = false /\
                 isGrounded (player u) = true /\
                 gravityScale (player u) == 1 /\ posY u == 0).
    { destruct (inputs_keep_motion evs w) as (Ep & _ & Eg & Ed & Es & Em).
      fold u in Ep, Eg, Ed, Es, Em. unfold posX, posY, x0, m.
      rewrite Ep, Eg, Ed, Es, Em. repeat split; assumption. }
    destruct Eu as (Ex & Em & Hd1 & Ha1 & Hg1 & Hy1).
    destruct (takeoff_tick props lvl u Hobjs Hd1 Hg1 Ha1 Hj) as
      (Hd' & Hg' & Ha' & Hv' & Hy'); [lra|].
    destruct (open_speed props lvl u Hobjs Hd1) as (Ex' & Em').
    unfold inFlight. change (inject_Z (Z.of_nat 1)) with 1.
    split; [exact Hd'|]. split; [now rewrite Hg'|]. split; [exact Ha'|].
    split; [lra|]. split; [lra|]. split; [|congruence].
    rewrite Ex', Ex, Em. lra. }
  change (run props lvl (evs :: frames) w)
    with (run props lvl frames (frame props lvl w evs)).
  split.
  - intro Hn.
    pose proof (inFlight_run props lvl x0 m frames 1 _ Hobjs (le_n 1) Hn H1) as H.
    change (1 + List.length frames)%nat with (S (List.length frames)) in H.
    unfold inFlight in H. tauto.
  - intro Hn. injection Hn as Hn.
    assert (Hne : frames <> []) by (intro E; subst; discriminate Hn).
    destruct (exists_last Hne) as (frames' & evs' & ->).
    rewrite length_app in Hn. simpl in Hn.
    assert (Hl : List.length frames' = 23%nat) by lia.
    unfold run. rewrite fold_left_app. simpl.
    fold (run props lvl frames' (frame props lvl w evs)).
    assert (H : inFlight x0 m 24 (run props lvl frames' (frame props lvl w evs))).
    { change 24%nat with (1 + 23)%nat. rewrite <- Hl.
      apply inFlight_run; auto. lia. }
    destruct (inFlight_frame props lvl x0 m 24 evs' _ Hobjs ltac:(lia) H)
      as (_ & Hland).
    destruct (Hland eq_refl) as (A & B & C & D & E). tauto.
Qed.

Lemma jump_arc_witness :
  isDead (player (run playProps noObject ([Press] :: idle 11) initialWorld))
    = false /\
  posY (run playProps noObject ([Press] :: idle 11) initialWorld)
    == - 12 * (25 - 12).
Proof.
  destruct (jump_arc playProps noObject initialWorld [Press] (idle 11))
    as (H & _); try reflexivity.
  destruct H as (A & _ & C & _); [simpl; lia|].
  split; [exact A|exact C].
Defined.

(** ** The recorded trail *)

Lemma leftToRight_snoc (trail : list Vector2.t) (p : Vector2.t) :
  leftToRight trail ->
  Forall (fun a => Vector2.x a <= Vector2.x p) trail ->
  leftToRight (trail ++ [p]).
Proof.
  induction trail as [|a [|b rest] IH]; intros H Hp; simpl.
  - exact I.
  - split; [|exact I]. now inversion Hp.
  - destruct H as (Hab & H). split; [exact Hab|].
    apply IH; [exact H|]. now inversion Hp.
Qed.

Lemma trailKept_recordTrail (props : Props) (n : nat) (w : World) :
  0 <= posX w ->
  trailKept props n w -> trailKept props (S n) (recordTrail props w).
Proof.
  intros Hx (H0 & H1 & H2 & H3). unfold recordTrail.
  destruct (isTestMode props) eqn:Et; cbn [andb].
  - destruct (negb _ && _); unfold trailKept.
    + cbn [recordedTrail set_recordedTrail].
      assert (Ex : posX (set_recordedTrail
                     (recordedTrail w ++ [Vector2.mk (posX w) (posY w)]) w) =
                   posX w) by reflexivity.
      rewrite Ex. split; [intro; congruence|]. split; [|split].
      * apply leftToRight_snoc; [exact H1|].
        revert H2. apply Forall_impl. simpl. tauto.
      * apply Forall_app. split; [exact H2|].
        constructor; [simpl; lra|constructor].
      * rewrite length_app. simpl. lia.
    + split; [intro; congruence|]. split; [exact H1|]. split; [exact H2|lia].
  - unfold trailKept. split; [intros _; now apply H0|]. split; [exact H1|].
    split; [exact H2|lia].
Qed.

Lemma trailKept_grow (props : Props) (n : nat) (w w' : World) :
  recordedTrail w' = recordedTrail w -> posX w <= posX w' ->
  trailKept props n w -> trailKept props n w'.
Proof.
  intros Et Hx (H0 & H1 & H2 & H3). unfold trailKept. rewrite Et.
  repeat split; auto.
  revert H2. apply Forall_impl. intros p (A & B). split; lra.
Qed.

Lemma trailKept_frame (props : Props) (lvl : LevelData.t) (n : nat)
    (evs : list InputEvent) (w : World) :
  sane w ->
  trailKept props n w -> trailKept props (S n) (frame props lvl w evs).
Proof.
  intros Hs H. unfold frame.
  pose proof (sane_handleInput evs w Hs) as Hs1.
  assert (H1 : trailKept props n (fold_left handleInput evs w)).
  { revert H. apply trailKept_grow.
    - clear. revert w. induction evs as [|e evs IH]; intro w; simpl;
        [reflexivity|]. rewrite IH. destruct e; reflexivity.
    - destruct (inputs_keep evs w) as (-> & _). lra. }
  set (w1 := fold_left handleInput evs w) in *. clearbody w1.
  destruct (isDead (player w1)) eqn:Hd.
  - rewrite update_dead by exact Hd.
    assert (H2 : trailKept props n
                   (emit (SpawnParticles (posX (tickStart w1) + 24)
                            (posY (tickStart w1) - 24) 5 COLOR_PLAYER 0.5)
                         (tickStart w1))).
    { revert H1. apply trailKept_grow.
      - cbn [emit recordedTrail]. apply recordedTrail_tickStart.
      - unfold posX. cbn [emit player]. rewrite player_tickStart. lra. }
    destruct H2 as (A & B & C & D). repeat split; auto.
  - assert (H2 : trailKept props (S n) (recordTrail props (tickStart w1))).
    { apply trailKept_recordTrail.
      - unfold posX. rewrite player_tickStart. apply Hs1.
      - revert H1. apply trailKept_grow.
        + apply recordedTrail_tickStart.
        + unfold posX. rewrite player_tickStart. lra. }
    revert H2. apply trailKept_grow.
    + now apply recordedTrail_update.
    + destruct (update_advance props lvl w1 Hd) as (-> & _).
      unfold posX at 1. rewrite player_recordTrail, player_tickStart.
      fold (posX w1). destruct Hs1 as (_ & Hm & _). unfold MOVE_SPEED. nra.
Qed.

Lemma trailKept_run (props : Props) (lvl : LevelData.t)
    (frames : list (list InputEvent)) (n : nat) (w : World) :
  sane w ->
  trailKept props n w ->
  trailKept props (n + List.length frames) (run props lvl frames w).
Proof.
  unfold run. revert n w.
  induction frames as [|evs frames IH]; intros n w Hs H; simpl.
  - now rewrite Nat.add_0_r.
  - rewrite <- Nat.add_succ_comm. apply IH.
    + unfold frame. now apply sane_update, sane_handleInput.
    + now apply trailKept_frame.
Qed.

(** The trail a run records for the editor: outside test mode nothing
    is recorded; in test mode at most one point per frame, each a
    position the player had, none to the left of the start or to the
    right of the player, and the points go from left to right. *)
Theorem recorded_trail_runs_forward (props : Props) (lvl : LevelData.t)
    (frames : list (list InputEvent)) :
  trailKept props (List.length frames) (run props lvl frames initialWorld).
Proof.
  apply (trailKept_run props lvl frames 0 initialWorld sane_initialWorld).
  unfold trailKept. simpl. repeat split; auto.
Qed.
